(** * HireTrack: the ingestion, normalisation, dedup and ranking pipeline

    A shallow embedding of [local_app.py]: URL cleaning ([clean_job_url]),
    identity generation ([generate_job_id]), the RSS record builder of
    [fetch_wwr_jobs], the baseline filter ([ai_filter_and_score]), the
    ranking function ([calculate_weighted_score]) and the routes that write
    the [jobs] table ([api_scan], [api_scan_wwr], [api_analyze], ...).

    Python values are modelled as follows.
    - [str] is a list of Unicode code points ([list N]).
    - An exception is a value of [exn]; a call that may raise returns a
      [result].
    - The functions of [urllib.parse] that [clean_job_url] calls are
      transcribed from CPython 3.11's [Lib/urllib/parse.py]; the two checks
      of [urlsplit] that rest on library tables (the validation of a
      bracketed host literal and NFKC normalisation) are parameters.
    - [str.lower] follows CPython 3.11's [do_lower]: the lower-case mapping
      of each code point, and the rule for a capital sigma, over the case
      tables of the interpreter, which are parameters.
    - [hashlib.sha256] is FIPS 180-4 SHA-256 on the UTF-8 encoding.
    - Python floats are the kernel's binary64 floats. *)

From Stdlib Require Import List ZArith NArith Bool Lia String Ascii Floats.
From Stdlib Require Import DecimalString.
Import ListNotations.

Set Implicit Arguments.
Set Warnings "-inexact-float,-register-all".

(** ** Python strings *)

Module Py.

Definition pystr := list N.

(** A string literal of the source, as code points. *)
Definition str (s : string) : pystr := map N_of_ascii (list_ascii_of_string s).

Arguments str s%_string.

Definition chr (s : string) : N :=
  match s with
  | String a _ => N_of_ascii a
  | EmptyString => 0%N
  end.

Arguments chr s%_string.

Fixpoint str_eqb (a b : pystr) : bool :=
  match a, b with
  | [], [] => true
  | x :: a', y :: b' => N.eqb x y && str_eqb a' b'
  | _, _ => false
  end.

(** [not s]: the empty string is falsy. *)
Definition falsy (s : pystr) : bool :=
  match s with [] => true | _ => false end.

Fixpoint startswith (p s : pystr) : bool :=
  match p, s with
  | [], _ => true
  | _ :: _, [] => false
  | a :: p', b :: s' => N.eqb a b && startswith p' s'
  end.

(** [sub in s] *)
Fixpoint contains (sub s : pystr) : bool :=
  startswith sub s ||
  match s with
  | [] => false
  | _ :: s' => contains sub s'
  end.

(** [c in s] for a one-character [c] *)
Definition has (c : N) (s : pystr) : bool := existsb (N.eqb c) s.

(** [s.partition(c)] for a one-character separator: the part before the
    first [c], and the part after it when [c] occurs. *)
Fixpoint partition (c : N) (s : pystr) : pystr * option pystr :=
  match s with
  | [] => ([], None)
  | x :: s' =>
      if N.eqb x c then ([], Some s')
      else let (h, t) := partition c s' in (x :: h, t)
  end.

(** [s.split(c)] for a one-character separator. *)
Fixpoint split (c : N) (s : pystr) : list pystr :=
  match s with
  | [] => [[]]
  | x :: s' =>
      if N.eqb x c then [] :: split c s'
      else match split c s' with
           | h :: t => (x :: h) :: t
           | [] => [[x]]
           end
  end.

(** [s.split(sep)] for a separator of one character or more: occurrences are
    taken left to right and do not overlap. [skip] counts the characters of
    the occurrence just matched that are still to be passed over. *)
Fixpoint split_sep_aux (sep s : pystr) (skip : nat) (acc : pystr)
  : list pystr :=
  match s with
  | [] => [rev acc]
  | x :: s' =>
      match skip with
      | S k => split_sep_aux sep s' k acc
      | O =>
          if startswith sep s
          then rev acc :: split_sep_aux sep s' (List.length sep - 1) []
          else split_sep_aux sep s' 0 (x :: acc)
      end
  end.

Definition split_sep (sep s : pystr) : list pystr := split_sep_aux sep s 0 [].

(** [l[0]] and [l[-1]] of a list that [split] returned (never empty). *)
Definition first (l : list pystr) : pystr := hd [] l.
Definition last (l : list pystr) : pystr := List.last l [].

(** [s.replace(a, b)] for one-character [a] and [b]. *)
Definition replace (a b : N) (s : pystr) : pystr :=
  map (fun x => if N.eqb x a then b else x) s.

(** [sep.join(l)] *)
Fixpoint join (sep : pystr) (l : list pystr) : pystr :=
  match l with
  | [] => []
  | [x] => x
  | x :: l' => x ++ sep ++ join sep l'
  end.

Definition is_upper_ascii (c : N) : bool := (65 <=? c)%N && (c <=? 90)%N.
Definition is_lower_ascii (c : N) : bool := (97 <=? c)%N && (c <=? 122)%N.
Definition is_digit (c : N) : bool := (48 <=? c)%N && (c <=? 57)%N.
Definition is_ascii_alpha (c : N) : bool := is_upper_ascii c || is_lower_ascii c.
Definition is_ascii (c : N) : bool := (c <? 128)%N.

(** [str.lower] on a string of code points below U+0100, where it works
    one code point at a time: ASCII and Latin-1 capitals move by 32. It is
    used for the scheme of a URL, which is ASCII; the general [str.lower]
    is [str_lower] below. *)
Definition lower_char (c : N) : N :=
  if is_upper_ascii c then (c + 32)%N
  else if (192 <=? c)%N && (c <=? 222)%N && negb (c =? 215)%N then (c + 32)%N
  else c.

Definition lower (s : pystr) : pystr := map lower_char s.

(** The whitespace that [str.strip] removes ([Py_UNICODE_ISSPACE]). *)
Definition is_space (c : N) : bool :=
  ((9 <=? c) && (c <=? 13) || (28 <=? c) && (c <=? 32)
   || (c =? 133) || (c =? 160) || (c =? 5760)
   || (8192 <=? c) && (c <=? 8202) || (c =? 8232) || (c =? 8233)
   || (c =? 8239) || (c =? 8287) || (c =? 12288))%N.

Fixpoint lstrip_by (f : N -> bool) (s : pystr) : pystr :=
  match s with
  | [] => []
  | x :: s' => if f x then lstrip_by f s' else s
  end.

Definition rstrip_by (f : N -> bool) (s : pystr) : pystr :=
  rev (lstrip_by f (rev s)).

(** [s.strip()] *)
Definition strip (s : pystr) : pystr := rstrip_by is_space (lstrip_by is_space s).

(** [s[:n]] *)
Definition upto (n : N) (s : pystr) : pystr := firstn (N.to_nat n) s.

Arguments upto n%_N s.

(** Exceptions that the modelled code can raise. *)
Inductive exn :=
| ValueError (msg : string)
| UnicodeEncodeError
| TypeError
| IntegrityError
| ProgrammingError
| OverflowError
| OperationalError
| OtherException (msg : pystr).

(** [str(e)] *)
Definition exn_str (e : exn) : pystr :=
  match e with
  | ValueError msg => str msg
  | OtherException msg => msg
  | _ => []
  end.

Inductive result (A : Type) :=
| Ok (a : A)
| Raise (e : exn).

Arguments Ok {A} a.
Arguments Raise {A} e.

Definition bind {A B} (r : result A) (k : A -> result B) : result B :=
  match r with
  | Ok a => k a
  | Raise e => Raise e
  end.

End Py.

Import Py.

Notation "x <- c1 ;; c2" := (bind c1 (fun x => c2))
  (at level 61, c1 at next level, right associativity).

(** ** [urllib.parse] *)

Module Urllib.

Definition scheme_chars (c : N) : bool :=
  is_ascii_alpha c || is_digit c
  || N.eqb c (chr "+") || N.eqb c (chr "-") || N.eqb c (chr ".").

Definition uses_params : list pystr :=
  [str ""; str "ftp"; str "hdl"; str "prospero"; str "http"; str "imap";
   str "https"; str "shttp"; str "rtsp"; str "rtspu"; str "sip"; str "sips";
   str "mms"; str "sftp"; str "tel"].

Definition uses_netloc : list pystr :=
  [str ""; str "ftp"; str "http"; str "gopher"; str "nntp"; str "telnet";
   str "imap"; str "wais"; str "file"; str "mms"; str "https"; str "shttp";
   str "snews"; str "prospero"; str "rtsp"; str "rtspu"; str "rsync";
   str "svn"; str "svn+ssh"; str "sftp"; str "nfs"; str "git"; str "git+ssh";
   str "ws"; str "wss"].

Definition mem (x : pystr) (l : list pystr) : bool := existsb (str_eqb x) l.

(** [_WHATWG_C0_CONTROL_OR_SPACE] and [_UNSAFE_URL_BYTES_TO_REMOVE] *)
Definition c0_control_or_space (c : N) : bool := (c <=? 32)%N.
Definition unsafe_url_byte (c : N) : bool :=
  N.eqb c 9 || N.eqb c 13 || N.eqb c 10.

Definition netloc_delim (c : N) : bool :=
  N.eqb c (chr "/") || N.eqb c (chr "?") || N.eqb c (chr "#").

(** [_splitnetloc(url, 2)], given [url[2:]]: the authority runs up to the
    first of [/], [?] and [#]. *)
Fixpoint splitnetloc (s : pystr) : pystr * pystr :=
  match s with
  | [] => ([], [])
  | x :: s' =>
      if netloc_delim x then ([], s)
      else let (n, r) := splitnetloc s' in (x :: n, r)
  end.

(** [s.rpartition(c)[2]]: what follows the last [c], or all of [s]. *)
Definition after_last (c : N) (s : pystr) : pystr :=
  rev (fst (partition c (rev s))).

(** [(s[:r], s[r:])] for [r = s.rfind(c)], when [c] occurs in [s]. *)
Definition rsplit_at (c : N) (s : pystr) : option (pystr * pystr) :=
  match partition c (rev s) with
  | (h, Some t) => Some (rev t, c :: rev h)
  | (_, None) => None
  end.

Record ParseResult := mkParseResult {
  scheme : pystr;
  netloc : pystr;
  path : pystr;
  params : pystr;
  query : pystr;
  fragment : pystr
}.

(** What the modelled code takes from other library modules and from the
    Unicode tables of the interpreter:
    [check_bracketed_host h] tells whether [_check_bracketed_host(h)] returns
    (it raises ValueError otherwise; it rests on [ipaddress.ip_address]),
    [normalize_NFKC s] is [unicodedata.normalize('NFKC', s)],
    [to_lower_full c] is the lower-case mapping of the code point [c]
    ([_PyUnicode_ToLowerFull], one to three code points), and [is_cased] and
    [is_case_ignorable] are the properties Cased and Case_Ignorable
    ([_PyUnicode_IsCased], [_PyUnicode_IsCaseIgnorable]). *)
Class LibraryTables := {
  check_bracketed_host : pystr -> bool;
  normalize_NFKC : pystr -> pystr;
  to_lower_full : N -> pystr;
  is_cased : N -> bool;
  is_case_ignorable : N -> bool
}.

Section Parse.

Context {T : LibraryTables}.

Definition check_bracketed_netloc (netloc : pystr) : bool :=
  let hostname_and_port := after_last (chr "@") netloc in
  match partition (chr "[") hostname_and_port with
  | (before_bracket, Some bracketed) =>
      if negb (falsy before_bracket) then false
      else
        let (hostname, after) := partition (chr "]") bracketed in
        let port := match after with Some p => p | None => [] end in
        if negb (falsy port) && negb (startswith (str ":") port) then false
        else check_bracketed_host hostname
  | (_, None) =>
      check_bracketed_host (fst (partition (chr ":") hostname_and_port))
  end.

Definition checknetloc (netloc : pystr) : bool :=
  if falsy netloc || forallb is_ascii netloc then true
  else
    let n := filter (fun c => negb (N.eqb c (chr "@") || N.eqb c (chr ":")
                                   || N.eqb c (chr "#") || N.eqb c (chr "?")))
                    netloc in
    let netloc2 := normalize_NFKC n in
    if str_eqb n netloc2 then true
    else negb (existsb (fun c => has c netloc2) (str "/?#@:")).

(** [urlsplit(url)], followed by the parameter split of [urlparse(url)]; the
    five steps are kept apart so that each can be followed on its own. *)
Definition split_scheme (url : pystr) : pystr * pystr :=
  match partition (chr ":") url with
  | (h, Some t) =>
      match h with
      | c0 :: _ =>
          if is_ascii c0 && is_ascii_alpha c0 && forallb scheme_chars h
          then (lower h, t)
          else ([], url)
      | [] => ([], url)
      end
  | (_, None) => ([], url)
  end.

Definition split_authority (url : pystr) : result (pystr * pystr) :=
  if startswith (str "//") url then
    let (netloc, url') := splitnetloc (skipn 2 url) in
    let lb := has (chr "[") netloc in
    let rb := has (chr "]") netloc in
    if (lb && negb rb) || (rb && negb lb) then Raise (ValueError "Invalid IPv6 URL")
    else if lb && rb && negb (check_bracketed_netloc netloc)
         then Raise (ValueError "Invalid IPv6 URL")
         else Ok (netloc, url')
  else Ok ([], url).

Definition split_once (c : N) (url : pystr) : pystr * pystr :=
  match partition c url with
  | (h, Some t) => (h, t)
  | (h, None) => (h, [])
  end.

Definition splitparams (url : pystr) : pystr * pystr :=
  match rsplit_at (chr "/") url with
  | Some (a, b) =>
      match partition (chr ";") b with
      | (h, Some t) => (a ++ h, t)
      | (_, None) => (url, [])
      end
  | None => split_once (chr ";") url
  end.

(** The first lines of [urlsplit]: leading C0 controls and spaces are
    stripped, then tabs and line ends are removed everywhere. *)
Definition prepare (url : pystr) : pystr :=
  filter (fun c => negb (unsafe_url_byte c)) (lstrip_by c0_control_or_space url).

Definition urlparse (url0 : pystr) : result ParseResult :=
  let url := prepare url0 in
  let (scheme, url) := split_scheme url in
  au <- split_authority url ;;
  let (netloc, url) := au : pystr * pystr in
  let (url, fragment) := split_once (chr "#") url in
  let (url, query) := split_once (chr "?") url in
  if negb (checknetloc netloc)
  then Raise (ValueError "netloc contains invalid characters under NFKC normalization")
  else
    let (url, params) :=
      if mem scheme uses_params && has (chr ";") url
      then splitparams url else (url, []) in
    Ok (mkParseResult scheme netloc url params query fragment).

End Parse.

Definition urlunsplit (scheme netloc url query fragment : pystr) : pystr :=
  let url :=
    if negb (falsy netloc)
       || (negb (falsy scheme) && mem scheme uses_netloc
           && negb (startswith (str "//") url))
    then
      let url := if negb (falsy url) && negb (startswith (str "/") url)
                 then str "/" ++ url else url in
      str "//" ++ netloc ++ url
    else url in
  let url := if negb (falsy scheme) then scheme ++ str ":" ++ url else url in
  let url := if negb (falsy query) then url ++ str "?" ++ query else url in
  if negb (falsy fragment) then url ++ str "#" ++ fragment else url.

Definition urlunparse (scheme netloc url params query fragment : pystr)
  : pystr :=
  let url := if negb (falsy params) then url ++ str ";" ++ params else url in
  urlunsplit scheme netloc url query fragment.


(** *** Percent-encoding *)

Definition hex_val (c : N) : option N :=
  if is_digit c then Some (c - 48)%N
  else if (65 <=? c)%N && (c <=? 70)%N then Some (c - 55)%N
  else if (97 <=? c)%N && (c <=? 102)%N then Some (c - 87)%N
  else None.

(** [unquote_to_bytes(s)] on an ASCII string: [%] followed by two hex digits
    is one byte, any other [%] stands for itself. *)
Fixpoint unquote_to_bytes (s : pystr) : list N :=
  match s with
  | [] => []
  | c :: s' =>
      if N.eqb c (chr "%") then
        match s' with
        | h1 :: h2 :: s'' =>
            match hex_val h1, hex_val h2 with
            | Some a, Some b => (16 * a + b)%N :: unquote_to_bytes s''
            | _, _ => c :: unquote_to_bytes s'
            end
        | _ => c :: unquote_to_bytes s'
        end
      else c :: unquote_to_bytes s'
  end.

Definition replacement_char : N := 65533.

Definition is_cont (b : N) : bool := (128 <=? b)%N && (b <=? 191)%N.

(** The second byte that a three- or four-byte lead admits (no overlong
    forms, no surrogates, nothing above U+10FFFF). *)
Definition second_ok (b0 b1 : N) : bool :=
  if N.eqb b0 224 then (160 <=? b1)%N && (b1 <=? 191)%N
  else if N.eqb b0 237 then (128 <=? b1)%N && (b1 <=? 159)%N
  else if N.eqb b0 240 then (144 <=? b1)%N && (b1 <=? 191)%N
  else if N.eqb b0 244 then (128 <=? b1)%N && (b1 <=? 143)%N
  else is_cont b1.

(** [bs.decode('utf-8', 'replace')]: every ill-formed byte, and every
    truncated sequence as far as it is well-formed, becomes one U+FFFD. *)
Fixpoint utf8_decode (bs : list N) : pystr :=
  match bs with
  | [] => []
  | b0 :: r0 =>
      if (b0 <? 128)%N then b0 :: utf8_decode r0
      else if (b0 <? 194)%N then replacement_char :: utf8_decode r0
      else if (b0 <? 224)%N then
        match r0 with
        | b1 :: r1 =>
            if is_cont b1
            then ((b0 - 192) * 64 + (b1 - 128))%N :: utf8_decode r1
            else replacement_char :: utf8_decode r0
        | [] => [replacement_char]
        end
      else if (b0 <? 240)%N then
        match r0 with
        | b1 :: r1 =>
            if second_ok b0 b1 then
              match r1 with
              | b2 :: r2 =>
                  if is_cont b2
                  then ((b0 - 224) * 4096 + (b1 - 128) * 64 + (b2 - 128))%N
                         :: utf8_decode r2
                  else replacement_char :: utf8_decode r1
              | [] => [replacement_char]
              end
            else replacement_char :: utf8_decode r0
        | [] => [replacement_char]
        end
      else if (b0 <? 245)%N then
        match r0 with
        | b1 :: r1 =>
            if second_ok b0 b1 then
              match r1 with
              | b2 :: r2 =>
                  if is_cont b2 then
                    match r2 with
                    | b3 :: r3 =>
                        if is_cont b3
                        then ((b0 - 240) * 262144 + (b1 - 128) * 4096
                              + (b2 - 128) * 64 + (b3 - 128))%N
                               :: utf8_decode r3
                        else replacement_char :: utf8_decode r2
                    | [] => [replacement_char]
                    end
                  else replacement_char :: utf8_decode r1
              | [] => [replacement_char]
              end
            else replacement_char :: utf8_decode r0
        | [] => [replacement_char]
        end
      else replacement_char :: utf8_decode r0
  end.

(** [unquote(s)]: the maximal ASCII runs are unquoted to bytes and decoded,
    what lies between them is kept. [run] is the current run, reversed. *)
Fixpoint unquote_runs (s run : pystr) : pystr :=
  match s with
  | [] => utf8_decode (unquote_to_bytes (rev run))
  | c :: s' =>
      if is_ascii c then unquote_runs s' (c :: run)
      else utf8_decode (unquote_to_bytes (rev run)) ++ c :: unquote_runs s' []
  end.

Definition unquote (s : pystr) : pystr :=
  if has (chr "%") s then unquote_runs s [] else s.

Definition is_surrogate (c : N) : bool := (55296 <=? c)%N && (c <=? 57343)%N.

(** [c.encode('utf-8', 'strict')] for one code point (below 0x110000). *)
Definition utf8_encode_char (c : N) : result (list N) :=
  if (c <? 128)%N then Ok [c]
  else if (c <? 2048)%N then Ok [192 + c / 64; 128 + c mod 64]%N
  else if is_surrogate c then Raise UnicodeEncodeError
  else if (c <? 65536)%N
       then Ok [224 + c / 4096; 128 + (c / 64) mod 64; 128 + c mod 64]%N
       else Ok [240 + c / 262144; 128 + (c / 4096) mod 64;
                128 + (c / 64) mod 64; 128 + c mod 64]%N.

Fixpoint utf8_encode (s : pystr) : result (list N) :=
  match s with
  | [] => Ok []
  | c :: s' =>
      bs <- utf8_encode_char c ;;
      rest <- utf8_encode s' ;;
      Ok (bs ++ rest)
  end.

Definition always_safe (b : N) : bool :=
  is_ascii_alpha b || is_digit b
  || N.eqb b (chr "_") || N.eqb b (chr ".") || N.eqb b (chr "-")
  || N.eqb b (chr "~").

Definition hex_digit (n : N) : N :=
  if (n <? 10)%N then (48 + n)%N else (55 + n)%N.

(** [_Quoter(safe)[b]] *)
Definition quote_byte (safe : N -> bool) (b : N) : pystr :=
  if always_safe b || ((b <? 128)%N && safe b) then [b]
  else [chr "%"; hex_digit (b / 16); hex_digit (b mod 16)].

(** [quote(s, safe)] *)
Definition quote (safe : N -> bool) (s : pystr) : result pystr :=
  bs <- utf8_encode s ;;
  Ok (flat_map (quote_byte safe) bs).

(** [quote_plus(s)] with the empty [safe] of [urlencode] *)
Definition quote_plus (s : pystr) : result pystr :=
  if negb (has (chr " ") s) then quote (fun _ => false) s
  else
    q <- quote (N.eqb (chr " ")) s ;;
    Ok (replace (chr " ") (chr "+") q).

(** *** Query strings: a [dict] from names to lists of values, in insertion
    order *)

Definition qdict := list (pystr * list pystr).

Fixpoint dict_get (k : pystr) (d : qdict) : option (list pystr) :=
  match d with
  | [] => None
  | (k', v) :: d' => if str_eqb k k' then Some v else dict_get k d'
  end.

(** [if name in d: d[name].append(value) else: d[name] = [value]] *)
Fixpoint dict_append (k v : pystr) (d : qdict) : qdict :=
  match d with
  | [] => [(k, [v])]
  | (k', vs) :: d' =>
      if str_eqb k k' then (k', vs ++ [v]) :: d'
      else (k', vs) :: dict_append k v d'
  end.

(** One field of [parse_qsl]: nothing for an empty field, a field without
    [=] or a field with a blank value. *)
Definition parse_field (name_value : pystr) : option (pystr * pystr) :=
  if falsy name_value then None
  else
    match partition (chr "=") name_value with
    | (_, None) => None
    | (n, Some v) =>
        if falsy v then None
        else Some (unquote (replace (chr "+") (chr " ") n),
                   unquote (replace (chr "+") (chr " ") v))
    end.

Definition parse_qsl (qs : pystr) : list (pystr * pystr) :=
  if falsy qs then []
  else flat_map (fun nv => match parse_field nv with
                           | Some p => [p]
                           | None => []
                           end) (split (chr "&") qs).

Definition parse_qs (qs : pystr) : qdict :=
  fold_left (fun d nv => dict_append (fst nv) (snd nv) d) (parse_qsl qs) [].

Fixpoint encode_values (k : pystr) (vs : list pystr) : result (list pystr) :=
  match vs with
  | [] => Ok []
  | v :: vs' =>
      qv <- quote_plus v ;;
      rest <- encode_values k vs' ;;
      Ok ((k ++ str "=" ++ qv) :: rest)
  end.

Fixpoint encode_items (d : qdict) : result (list pystr) :=
  match d with
  | [] => Ok []
  | (k, vs) :: d' =>
      qk <- quote_plus k ;;
      l <- encode_values qk vs ;;
      rest <- encode_items d' ;;
      Ok (l ++ rest)
  end.

(** [urlencode(d, doseq=True)] *)
Definition urlencode (d : qdict) : result pystr :=
  l <- encode_items d ;;
  Ok (join (str "&") l).

End Urllib.

Import Urllib.

(** ** [str.lower] *)

Section Lower.

Context {T : LibraryTables}.

Definition capital_sigma : N := 931.
Definition final_sigma : N := 962.
Definition small_sigma : N := 963.

(** The first code point of [s] that is not case-ignorable. *)
Fixpoint skip_ignorable (s : pystr) : option N :=
  match s with
  | [] => None
  | c :: s' => if is_case_ignorable c then skip_ignorable s' else Some c
  end.

(** [handle_capital_sigma]: a capital sigma becomes a final sigma when a
    cased letter precedes it and none follows it, case-ignorable code
    points set aside; [before] holds the code points that precede it, the
    nearest first, and [after] those that follow it. *)
Definition handle_capital_sigma (before after : pystr) : N :=
  let is_final :=
    match skip_ignorable before with
    | Some c =>
        is_cased c
        && match skip_ignorable after with
           | Some d => negb (is_cased d)
           | None => true
           end
    | None => false
    end in
  if is_final then final_sigma else small_sigma.

(** [do_lower]: every code point is mapped on its own, but for the capital
    sigma, whose mapping depends on the string around it. *)
Fixpoint do_lower (before s : pystr) : pystr :=
  match s with
  | [] => []
  | c :: rest =>
      (if (c =? capital_sigma)%N then [handle_capital_sigma before rest]
       else to_lower_full c)
      ++ do_lower (c :: before) rest
  end.

(** [s.lower()] *)
Definition str_lower (s : pystr) : pystr := do_lower [] s.

End Lower.

(** ** URL cleaning *)

Definition tracking_params : list pystr :=
  [str "trackingId"; str "refId"; str "lipi"; str "midToken"; str "midSig";
   str "trk"; str "trkEmail"; str "eid"; str "otpToken"; str "utm_source";
   str "utm_medium"; str "utm_campaign"; str "ref"; str "source"].

Definition linkedin_view (job_id : pystr) : pystr :=
  str "https://www.linkedin.com/jobs/view/" ++ job_id.

Definition indeed_viewjob (jk : pystr) : pystr :=
  str "https://www.indeed.com/viewjob?jk=" ++ jk.

(** [path.split('/jobs/view/')[-1].split('?')[0].split('/')[0]] *)
Definition path_job_id (path : pystr) : pystr :=
  first (split (chr "/")
           (first (split (chr "?") (last (split_sep (str "/jobs/view/") path))))).

(** The LinkedIn and Indeed branches of [clean_job_url]: the URL to return,
    or nothing when control falls through to the tracking-parameter code. *)
Definition job_board_url (parsed : ParseResult) : option pystr :=
  if contains (str "linkedin.com") (netloc parsed) then
    if contains (str "/jobs/view/") (path parsed) then
      Some (linkedin_view (path_job_id (path parsed)))
    else if contains (str "currentJobId=") (query parsed) then
      let params := parse_qs (query parsed) in
      let job_id :=
        first (match dict_get (str "currentJobId") params with
               | Some v => v
               | None => [str ""]
               end) in
      if negb (falsy job_id) then Some (linkedin_view job_id) else None
    else None
  else if contains (str "indeed.com") (netloc parsed) then
    let params := parse_qs (query parsed) in
    match dict_get (str "jk") params with
    | Some v => Some (indeed_viewjob (first v))
    | None =>
        match dict_get (str "vjk") params with
        | Some v => Some (indeed_viewjob (first v))
        | None => None
        end
    end
  else None.

Definition strip_tracking (parsed : ParseResult) : result pystr :=
  let params := parse_qs (query parsed) in
  let cleaned_params :=
    filter (fun kv => negb (mem (fst kv) tracking_params)) params in
  match cleaned_params with
  | _ :: _ =>
      new_query <- urlencode cleaned_params ;;
      Ok (urlunparse (scheme parsed) (netloc parsed) (path parsed)
                     (str "") new_query (str ""))
  | [] =>
      Ok (urlunparse (scheme parsed) (netloc parsed) (path parsed)
                     (str "") (str "") (str ""))
  end.

Section App.

Context {T : LibraryTables}.

Definition clean_job_url (url : pystr) : result pystr :=
  if falsy url then Ok url
  else
    parsed <- urlparse url ;;
    match job_board_url parsed with
    | Some canonical => Ok canonical
    | None =>
        if negb (falsy (query parsed)) then strip_tracking parsed
        else Ok url
    end.

End App.

(** ** [hashlib.sha256]: FIPS 180-4, on 32-bit words held in [N] *)

Module SHA256.

Local Open Scope N_scope.

Definition mask32 : N := 4294967295.
Definition add32 (a b : N) : N := N.land (a + b) mask32.
Definition not32 (a : N) : N := N.lxor a mask32.
Definition rotr (n x : N) : N :=
  N.lor (N.shiftr x n) (N.land (N.shiftl x (32 - n)) mask32).

Definition Ch (x y z : N) : N := N.lxor (N.land x y) (N.land (not32 x) z).
Definition Maj (x y z : N) : N :=
  N.lxor (N.lxor (N.land x y) (N.land x z)) (N.land y z).
Definition Sigma0 (x : N) : N := N.lxor (N.lxor (rotr 2 x) (rotr 13 x)) (rotr 22 x).
Definition Sigma1 (x : N) : N := N.lxor (N.lxor (rotr 6 x) (rotr 11 x)) (rotr 25 x).
Definition sigma0 (x : N) : N := N.lxor (N.lxor (rotr 7 x) (rotr 18 x)) (N.shiftr x 3).
Definition sigma1 (x : N) : N := N.lxor (N.lxor (rotr 17 x) (rotr 19 x)) (N.shiftr x 10).

(** The constants are the first thirty-two bits of the fractional parts of
    the cube roots (for [K]) and of the square roots (for [H0]) of the
    first primes. *)
Definition is_prime (n : N) : bool :=
  forallb (fun d => negb (n mod d =? 0)) (map N.of_nat (seq 2 (N.to_nat n - 2))).

Definition primes : list N := filter is_prime (map N.of_nat (seq 2 310)).

Fixpoint cube_root (bits : nat) (r x : N) : N :=
  match bits with
  | O => r
  | S bits' =>
      let c := N.setbit r (N.of_nat bits') in
      cube_root bits' (if c * c * c <=? x then c else r) x
  end.

Definition frac_cube_root (p : N) : N :=
  N.land (cube_root 36 0 (N.shiftl p 96)) mask32.

Definition frac_square_root (p : N) : N :=
  N.land (N.sqrt (N.shiftl p 64)) mask32.

Definition K : list N := Eval vm_compute in map frac_cube_root primes.

Record state := mkState { ha : N; hb : N; hc : N; hd : N;
                          he : N; hf : N; hg : N; hh : N }.

Definition H0 : state :=
  Eval vm_compute in
  match map frac_square_root (firstn 8 primes) with
  | [a; b; c; d; e; f; g; h] => mkState a b c d e f g h
  | _ => mkState 0 0 0 0 0 0 0 0
  end.

(** Padding: a 1 bit, zeros up to 56 modulo 64 bytes, the bit length on
    eight bytes. *)
Definition be_bytes (n : nat) (x : N) : list N :=
  map (fun i => N.land (N.shiftr x (8 * N.of_nat i)) 255) (rev (seq 0 n)).

Definition pad (msg : list N) : list N :=
  let len := N.of_nat (List.length msg) in
  let zeros := N.to_nat ((119 - len mod 64) mod 64) in
  msg ++ [128] ++ repeat 0 zeros ++ be_bytes 8 (8 * len).

Fixpoint words (n : nat) (bs : list N) : list N :=
  match n, bs with
  | S n', b0 :: b1 :: b2 :: b3 :: bs' =>
      (b0 * 16777216 + b1 * 65536 + b2 * 256 + b3) :: words n' bs'
  | _, _ => []
  end.

(** The message schedule: sixteen words of the block, then forty-eight
    derived ones. *)
Fixpoint schedule (n : nat) (w : list N) : list N :=
  match n with
  | O => w
  | S n' =>
      let t := List.length w in
      let x i := nth (t - i) w 0 in
      schedule n' (w ++ [add32 (add32 (sigma1 (x 2%nat)) (x 7%nat))
                               (add32 (sigma0 (x 15%nat)) (x 16%nat))])
  end.

Definition round (s : state) (kw : N * N) : state :=
  let t1 := add32 (add32 (add32 (hh s) (Sigma1 (he s)))
                         (add32 (Ch (he s) (hf s) (hg s)) (fst kw))) (snd kw) in
  let t2 := add32 (Sigma0 (ha s)) (Maj (ha s) (hb s) (hc s)) in
  mkState (add32 t1 t2) (ha s) (hb s) (hc s) (add32 (hd s) t1) (he s) (hf s) (hg s).

Definition compress (s : state) (block : list N) : state :=
  let w := schedule 48 (words 16 block) in
  let r := fold_left round (combine K w) s in
  mkState (add32 (ha s) (ha r)) (add32 (hb s) (hb r)) (add32 (hc s) (hc r))
          (add32 (hd s) (hd r)) (add32 (he s) (he r)) (add32 (hf s) (hf r))
          (add32 (hg s) (hg r)) (add32 (hh s) (hh r)).

Fixpoint blocks (n : nat) (s : state) (bs : list N) : state :=
  match n with
  | O => s
  | S n' => blocks n' (compress s (firstn 64 bs)) (skipn 64 bs)
  end.

Definition digest (msg : list N) : state :=
  let p := pad msg in
  blocks (List.length p / 64) H0 p.

Definition hex_lower (n : N) : N := if n <? 10 then 48 + n else 87 + n.

Definition hex_word (x : N) : pystr :=
  map (fun i => hex_lower (N.land (N.shiftr x (4 * N.of_nat i)) 15))
      [7; 6; 5; 4; 3; 2; 1; 0]%nat.

(** [hashlib.sha256(msg).hexdigest()] *)
Definition hexdigest (msg : list N) : pystr :=
  let s := digest msg in
  hex_word (ha s) ++ hex_word (hb s) ++ hex_word (hc s) ++ hex_word (hd s)
  ++ hex_word (he s) ++ hex_word (hf s) ++ hex_word (hg s) ++ hex_word (hh s).

End SHA256.

(** ** Identity generation *)

Section Identity.

Context {T : LibraryTables}.

Definition generate_job_id (url title company : pystr) : result pystr :=
  clean_url <- clean_job_url url ;;
  let content :=
    str_lower (clean_url ++ str ":" ++ title ++ str ":" ++ company) in
  encoded <- utf8_encode content ;;
  Ok (upto 16 (SHA256.hexdigest encoded)).

End Identity.

(** ** Ranking *)

Module Ranking.

Local Open Scope float_scope.

(** [float(z)]: the float nearest to the [int] [z], ties to even; exact
    below 2^53 in absolute value. (Python raises OverflowError from 2^1024
    on, where this gives an infinity; the integers of the program, a
    64-bit column and a number of days, are far below.) *)
Definition float_of_Z (z : Z) : float :=
  if (Z.abs z <? 2 ^ 63)%Z then
    if (z <? 0)%Z then - PrimFloat.of_uint63 (Uint63.of_Z (- z))
    else PrimFloat.of_uint63 (Uint63.of_Z z)
  else SF2Prim (binary_normalize prec emax z 0 false).

(** [num / den] rounded to the nearest integer, ties to even ([den > 0]). *)
Definition div_half_even (num den : Z) : Z :=
  let q := (num / den)%Z in
  let r := (num mod den)%Z in
  match (2 * r ?= den)%Z with
  | Lt => q
  | Gt => (q + 1)%Z
  | Eq => if Z.even q then q else (q + 1)%Z
  end.

(** [round(x, 2)]: the exact binary value of [x] is rounded half-even to two
    decimals, and the nearest float to that decimal is returned. A float
    with no fractional bits, an infinity or a NaN is returned as it is. *)
Definition round2 (x : float) : float :=
  match Prim2SF x with
  | S754_finite s m e =>
      if (0 <=? e)%Z then x
      else
        let q := div_half_even (Zpos m * 100) (2 ^ (- e)) in
        let r := float_of_Z q / 100 in
        if s then - r else r
  | _ => x
  end.

(** [max(0, x)]: [x] when [x > 0], the integer 0 otherwise; both are used as
    floats afterwards. *)
Definition max0 (x : float) : float := if 0 <? x then x else 0.

(** [calculate_weighted_score(baseline_score, email_date)], given the whole
    days elapsed since [email_date]; [None] when [email_date] cannot be
    read and the code's [except] sets the recency score to 0. *)
Definition calculate_weighted_score (baseline_score : Z) (days_old : option Z)
  : float :=
  let recency_score :=
    match days_old with
    | Some d => max0 (100 - float_of_Z d * 3.33)
    | None => 0
    end in
  let weighted := float_of_Z baseline_score * 0.7 + recency_score * 0.3 in
  round2 weighted.

(** The ranking as the specification words it, for comparison: the recency
    decays by [100/30] a day. *)
Definition weighted_score_as_specified (baseline_score days_old : Z) : float :=
  round2 (0.7 * float_of_Z baseline_score
          + 0.3 * max0 (100 - float_of_Z days_old * 100 / 30)).

End Ranking.

(** ** Records, external capabilities and the two scoring calls *)

(** A value that [json.loads] returns. *)
Inductive json :=
| JNull
| JBool (b : bool)
| JInt (z : Z)
| JFloat (f : float)
| JStr (s : pystr)
| JList (l : list json)
| JObject (o : list (pystr * json)).

Definition jdict := list (pystr * json).

(** [d.get(k, default)] *)
Fixpoint jget (k : pystr) (d : jdict) (default : json) : json :=
  match d with
  | [] => default
  | (k', v) :: d' => if str_eqb k k' then v else jget k d' default
  end.

(** [bool(v)] *)
Definition truthy (v : json) : bool :=
  match v with
  | JNull => false
  | JBool b => b
  | JInt z => negb (z =? 0)%Z
  | JFloat f => negb (PrimFloat.eqb f 0%float)
  | JStr s => negb (falsy s)
  | JList l => match l with [] => false | _ => true end
  | JObject o => match o with [] => false | _ => true end
  end.

(** A job as the parsers build it (the dict of the source). *)
Record Job := mkJob {
  job_id : pystr;
  title : pystr;
  company : pystr;
  location : pystr;
  url : pystr;
  source : pystr;
  raw_text : pystr;
  created_at : pystr;
  email_date : pystr
}.

(** The record of the feed parser has a [description] as well, which is
    [None] when the element has no text. *)
Record FeedJob := mkFeedJob {
  job : Job;
  description : option pystr
}.

(** What the two prompts interpolate; the fixed text around it is left out. *)
Inductive prompt :=
| FilterPrompt (resume_text title company location brief : pystr)
| AnalysisPrompt (resume_text title company location details : pystr).

(** [re.search(r'\{[\s\S]*\}', text)]: from the first opening brace to the
    last closing brace after it. *)
Fixpoint from_first (c : N) (s : pystr) : option pystr :=
  match s with
  | [] => None
  | x :: s' => if N.eqb x c then Some s else from_first c s'
  end.

Definition search_braces (text : pystr) : option pystr :=
  match from_first (chr "{") text with
  | Some s =>
      match from_first (chr "}") (rev s) with
      | Some r => Some (rev r)
      | None => None
      end
  | None => None
  end.

(** What the HTML parser hands over for one link of an alert mail: the
    [href], the title text, and the text of the enclosing [td], [div] or
    [tr] when there is one (joined by spaces and stripped, and joined by
    newlines). *)
Record Link := mkLink {
  href : pystr;
  link_title : pystr;
  parent_text : option pystr;
  parent_text_nl : pystr
}.

(** A mail of [scan_emails]: its date and the links that the LinkedIn and the
    Indeed patterns select in its body. *)
Record Message := mkMessage {
  message_date : pystr;
  linkedin_links : list Link;
  indeed_links : list Link
}.

(** An element of the feed document: its text, and how many child elements
    it has (an element without children is falsy). *)
Record Element := mkElement {
  text : option pystr;
  children : nat
}.

Record Item := mkItem {
  title_elem : option Element;
  link_elem : option Element;
  desc_elem : option Element;
  pub_date_elem : option Element
}.

(** [not elem], for the result of [item.find(...)]. *)
Definition not_elem (e : option Element) : bool :=
  match e with
  | None => true
  | Some el => Nat.eqb (children el) 0
  end.

(** A value that SQLite stores: NULL, INTEGER, REAL or TEXT. *)
Inductive sqlval :=
| SNull
| SInt (z : Z)
| SReal (f : float)
| SText (s : pystr).

(** A [datetime]: whether it carries a time zone, its position on the time
    line in microseconds, and its [isoformat()]. *)
Record datetime := mkDatetime {
  tz_aware : bool;
  ticks : Z;
  isoformat : pystr
}.

(** The world outside the program.
    - [messages_create p w] is the text of the first content block of the
      response of the generative-text service, or the exception (a subclass
      of [Exception]) that the call or the access to the block raises.
    - [json_loads] is applied to a text that starts with an opening brace:
      it returns a dict or raises.
    - [gmail_service] is [get_gmail_service()]; [gmail_search q w] is the
      listing for the query [q] and the fetching of its messages one by
      one, up to the exception that interrupts it, if any.
    - [fetch_feed u w] is the list of the [item] elements of the feed at
      [u], or the exception of the transfer or of the XML parser.
    - [cover_letter_text job_id resume_text w] is what
      [generate_cover_letter] returns for the stored job, or the exception
      raised outside its [try].
    - [has_description_column] tells whether the [jobs] table of the
      database file has the [description] column that two routes name;
      [init_db] creates the table without it, and leaves a table that
      exists as it is.
    - [numeric_text s] is the INTEGER or REAL value that SQLite stores in
      a column of numeric affinity for the text [s] when [s] is a
      well-formed integer or real literal, and nothing otherwise;
      [real_text f] is the text that SQLite stores in a column of TEXT
      affinity for the float [f]. *)
Class External := {
  World : Type;
  messages_create : prompt -> World -> result pystr * World;
  json_loads : pystr -> result jdict;
  json_dumps : jdict -> pystr;
  load_resumes : World -> pystr;
  datetime_now : World -> datetime * World;
  parsedate_to_datetime : pystr -> result datetime;
  html_text : pystr -> pystr;
  gmail_service : World -> result unit * World;
  gmail_search : pystr -> World -> (list Message * option exn) * World;
  fetch_feed : pystr -> World -> result (list Item) * World;
  cover_letter_text : pystr -> pystr -> World -> result pystr * World;
  has_description_column : bool;
  numeric_text : pystr -> option sqlval;
  real_text : float -> pystr
}.

Section Scoring.

Context {E : External}.

(** [ai_filter_and_score(job, resume_text)]: [(keep, baseline_score,
    reason)], as the JSON values that the response holds. *)
Definition filter_fallback : json * json * json :=
  (JBool true, JInt 30, JStr (str "filter error - kept by default")).

Definition ai_filter_and_score (title company location raw_text : pystr)
  (resume_text : pystr) (w : World) : result (json * json * json) * World :=
  let p := FilterPrompt resume_text title company location
                        (upto 500 raw_text) in
  let (response, w) := messages_create p w in
  match response with
  | Ok text =>
      match search_braces text with
      | Some m =>
          match json_loads m with
          | Ok result =>
              (Ok (jget (str "keep") result (JBool false),
                   jget (str "baseline_score") result (JInt 0),
                   jget (str "filter_reason") result (JStr (str "unknown"))), w)
          | Raise _ => (Ok filter_fallback, w)
          end
      | None => (Ok filter_fallback, w)
      end
  | Raise _ => (Ok filter_fallback, w)
  end.

(** [analyze_job(job, resume_text)], on the four fields it reads. *)
Definition analyze_job (title company location raw_text resume_text : pystr)
  (w : World) : jdict * World :=
  let p := AnalysisPrompt resume_text title company location raw_text in
  let (response, w) := messages_create p w in
  let failed e :=
    [(str "qualification_score", JInt 0); (str "should_apply", JBool false);
     (str "recommendation", JStr (exn_str e))] in
  match response with
  | Ok text =>
      match search_braces text with
      | Some m =>
          match json_loads m with
          | Ok result => (result, w)
          | Raise e => (failed e, w)
          end
      | None => ([], w)
      end
  | Raise e => (failed e, w)
  end.

End Scoring.

(** ** Source parsers *)

Section Parsers.

Context {T : LibraryTables} {E : External}.

Definition nth_str (n : nat) (l : list pystr) : pystr := nth n l [].

(** [parse_linkedin_jobs], after the extraction of the links. *)
Fixpoint parse_linkedin_links (links : list Link) (seen : list pystr)
  (email_date : pystr) : result (list Job) :=
  match links with
  | [] => Ok []
  | link :: rest =>
      url <- clean_job_url (href link) ;;
      if falsy url || mem url seen then parse_linkedin_links rest seen email_date
      else
        let seen := url :: seen in
        let title := link_title link in
        if falsy title || (List.length title <? 3)%nat
        then parse_linkedin_links rest seen email_date
        else
          let '(company, location, raw_text) :=
            match parent_text link with
            | Some raw_text =>
                let parts := split 183 raw_text in
                (if (1 <? List.length parts)%nat
                 then upto 100 (strip (nth_str 1 parts)) else str "",
                 if (2 <? List.length parts)%nat
                 then upto 100 (strip (nth_str 2 parts)) else str "",
                 raw_text)
            | None => (str "", str "", title)
            end in
          id <- generate_job_id url title company ;;
          jobs <- parse_linkedin_links rest seen email_date ;;
          Ok (mkJob id (upto 200 title) company location url (str "linkedin")
                    (upto 1000 raw_text) email_date email_date :: jobs)
  end.

Definition parse_linkedin_jobs (links : list Link) (email_date : pystr)
  : result (list Job) :=
  parse_linkedin_links links [] email_date.

(** [[l.strip() for l in text.split('\n') if l.strip()]] *)
Definition stripped_lines (text : pystr) : list pystr :=
  map strip (filter (fun l => negb (falsy (strip l))) (split 10 text)).

(** [parse_indeed_jobs], after the extraction of the links. *)
Fixpoint parse_indeed_links (links : list Link) (seen : list pystr)
  (email_date : pystr) : result (list Job) :=
  match links with
  | [] => Ok []
  | link :: rest =>
      url <- clean_job_url (href link) ;;
      if falsy url || mem url seen then parse_indeed_links rest seen email_date
      else
        let seen := url :: seen in
        let title := link_title link in
        if falsy title || (List.length title <? 3)%nat
        then parse_indeed_links rest seen email_date
        else
          let '(company, location, raw_text) :=
            match parent_text link with
            | Some raw_text =>
                let lines := stripped_lines (parent_text_nl link) in
                (if (1 <? List.length lines)%nat
                 then upto 100 (nth_str 1 lines) else str "",
                 if (2 <? List.length lines)%nat
                 then upto 100 (nth_str 2 lines) else str "",
                 raw_text)
            | None => (str "", str "", title)
            end in
          id <- generate_job_id url title company ;;
          jobs <- parse_indeed_links rest seen email_date ;;
          Ok (mkJob id (upto 200 title) company location url (str "indeed")
                    (upto 1000 raw_text) email_date email_date :: jobs)
  end.

Definition parse_indeed_jobs (links : list Link) (email_date : pystr)
  : result (list Job) :=
  parse_indeed_links links [] email_date.

(** One message of [scan_emails]. *)
Definition parse_message (linkedin : bool) (m : Message) : result (list Job) :=
  if linkedin then parse_linkedin_jobs (linkedin_links m) (message_date m)
  else parse_indeed_jobs (indeed_links m) (message_date m).

(** The messages of one query, in turn; the first exception ends the query
    and leaves in [all_jobs] what was added so far. *)
Fixpoint parse_messages (linkedin : bool) (ms : list Message)
  (all_jobs : list Job) : list Job :=
  match ms with
  | [] => all_jobs
  | m :: ms' =>
      match parse_message linkedin m with
      | Ok jobs => parse_messages linkedin ms' (all_jobs ++ jobs)
      | Raise _ => all_jobs
      end
  end.

Definition queries : list (pystr * bool) :=
  [(str "jobs-noreply@linkedin.com", true);
   (str "jobalerts-noreply@linkedin.com", true);
   (str "noreply@indeed.com", false);
   (str "alert@indeed.com", false)].

Fixpoint scan_queries (qs : list (pystr * bool)) (all_jobs : list Job)
  (w : World) : list Job * World :=
  match qs with
  | [] => (all_jobs, w)
  | (q, linkedin) :: qs' =>
      let '(ms, _, w) := gmail_search q w in
      scan_queries qs' (parse_messages linkedin ms all_jobs) w
  end.

(** [scan_emails()] *)
Definition scan_emails (w : World) : result (list Job) * World :=
  let (service, w) := gmail_service w in
  match service with
  | Ok _ => let (jobs, w) := scan_queries queries [] w in (Ok jobs, w)
  | Raise e => (Raise e, w)
  end.

Definition WWR_FEEDS : list pystr :=
  [str "https://weworkremotely.com/categories/remote-programming-jobs.rss";
   str "https://weworkremotely.com/categories/remote-devops-sysadmin-jobs.rss";
   str "https://weworkremotely.com/categories/remote-full-stack-programming-jobs.rss"].

Definition or_empty (t : option pystr) : pystr :=
  match t with Some s => s | None => str "" end.

(** The publication date of an item: [None] when the item is older than
    the cutoff and is dropped, the date to record otherwise. A date that
    carries a time zone cannot be compared with the cutoff: the comparison
    raises, the [except] passes, and the current time is recorded. *)
Definition item_pub_date (pub_date_elem : option Element) (cutoff : Z)
  (now : pystr) : option pystr :=
  match pub_date_elem with
  | Some el =>
      match text el with
      | Some t =>
          if falsy t then Some now
          else
            match parsedate_to_datetime t with
            | Ok dt =>
                if tz_aware dt then Some now
                else if (ticks dt <? cutoff)%Z then None
                else Some (isoformat dt)
            | Raise _ => Some now
            end
      | None => Some now
      end
  | None => Some now
  end.

(** The body of the loop over the items of a feed: nothing for an item that
    is skipped, the record otherwise. *)
Definition feed_item (item : Item) (cutoff : Z) (w : World)
  : result (option FeedJob) * World :=
  if not_elem (title_elem item) || not_elem (link_elem item) then (Ok None, w)
  else
    let title := or_empty (match title_elem item with
                           | Some el => text el | None => None end) in
    let link := or_empty (match link_elem item with
                          | Some el => text el | None => None end) in
    match clean_job_url link with
    | Raise e => (Raise e, w)
    | Ok url =>
        let description :=
          match desc_elem item with
          | Some el => text el
          | None => Some (str "")
          end in
        let (company, job_title) :=
          match partition (chr ":") title with
          | (before, Some after) => (strip before, strip after)
          | (_, None) => (str "", title)
          end in
        let (now, w) := datetime_now w in
        match item_pub_date (pub_date_elem item) cutoff (isoformat now) with
        | None => (Ok None, w)
        | Some pub_date =>
            let description :=
              match description with
              | Some d => if falsy d then description
                          else Some (upto 2000 (html_text d))
              | None => None
              end in
            match generate_job_id url job_title company with
            | Raise e => (Raise e, w)
            | Ok id =>
                let raw :=
                  match description with
                  | Some d => if falsy d then title else d
                  | None => title
                  end in
                (Ok (Some (mkFeedJob
                             (mkJob id (upto 200 job_title) (upto 100 company)
                                    (str "Remote") url (str "weworkremotely")
                                    raw pub_date pub_date)
                             description)), w)
            end
        end
    end.

(** The items of one feed; an exception ends the feed and keeps the jobs
    added so far. *)
Fixpoint feed_items (items : list Item) (cutoff : Z) (jobs : list FeedJob)
  (w : World) : list FeedJob * World :=
  match items with
  | [] => (jobs, w)
  | item :: rest =>
      let (r, w) := feed_item item cutoff w in
      match r with
      | Ok (Some j) => feed_items rest cutoff (jobs ++ [j]) w
      | Ok None => feed_items rest cutoff jobs w
      | Raise _ => (jobs, w)
      end
  end.

Fixpoint fetch_feeds (feeds : list pystr) (cutoff : Z) (jobs : list FeedJob)
  (w : World) : list FeedJob * World :=
  match feeds with
  | [] => (jobs, w)
  | feed_url :: rest =>
      let (r, w) := fetch_feed feed_url w in
      match r with
      | Ok items =>
          let (jobs, w) := feed_items items cutoff jobs w in
          fetch_feeds rest cutoff jobs w
      | Raise _ => fetch_feeds rest cutoff jobs w
      end
  end.

(** [fetch_wwr_jobs(days_back)] *)
Definition fetch_wwr_jobs (days_back : Z) (w : World) : list FeedJob * World :=
  let (now, w) := datetime_now w in
  let cutoff := (ticks now - days_back * 86400000000)%Z in
  fetch_feeds WWR_FEEDS cutoff [] w.

End Parsers.

(** ** The [jobs] table *)

Module Jobs.

(** A row; the columns that every statement of the program fills from a
    [str] are strings, the others hold any SQL value, converted as the
    affinity of the column has it ([integer_affinity], [text_affinity]
    below). *)
Record Row := mkRow {
  job_id : pystr;
  title : pystr;
  company : pystr;
  location : pystr;
  url : pystr;
  source : pystr;
  status : sqlval;
  score : sqlval;
  baseline_score : sqlval;
  analysis : sqlval;
  cover_letter : sqlval;
  notes : sqlval;
  raw_text : pystr;
  created_at : pystr;
  updated_at : pystr;
  email_date : sqlval;
  is_filtered : Z;
  description : sqlval
}.

Definition table := list Row.

(** [SELECT 1 FROM jobs WHERE job_id = ?] *)
Definition existing (id : pystr) (db : table) : bool :=
  existsb (fun r => str_eqb (job_id r) id) db.

(** [SELECT * FROM jobs WHERE job_id = ?], first row *)
Definition fetchone (id : pystr) (db : table) : option Row :=
  find (fun r => str_eqb (job_id r) id) db.

(** [INSERT INTO jobs]: [job_id] is the primary key. *)
Definition insert (r : Row) (db : table) : result table :=
  if existing (job_id r) db then Raise IntegrityError else Ok (db ++ [r]).

(** [UPDATE jobs SET ... WHERE ...] *)
Definition update (cond : Row -> bool) (assign : Row -> Row) (db : table)
  : table :=
  map (fun r => if cond r then assign r else r) db.

End Jobs.

(** How [sqlite3] binds a Python value to a statement: a NaN is bound as
    NULL, and a list or a dict is refused (with ProgrammingError from
    Python 3.11 on, InterfaceError before). *)
Definition bind_str (s : pystr) : result pystr :=
  if existsb is_surrogate s then Raise UnicodeEncodeError else Ok s.

Definition bind_param (v : json) : result sqlval :=
  match v with
  | JNull => Ok SNull
  | JBool b => Ok (SInt (if b then 1 else 0))
  | JInt z =>
      if ((- 2 ^ 63 <=? z) && (z <? 2 ^ 63))%Z then Ok (SInt z)
      else Raise OverflowError
  | JFloat f => Ok (if PrimFloat.is_nan f then SNull else SReal f)
  | JStr s => t <- bind_str s ;; Ok (SText t)
  | JList _ => Raise ProgrammingError
  | JObject _ => Raise ProgrammingError
  end.

(** The integer that a float holds, when it holds one below 2^63 in
    absolute value. *)
Definition exact_integer (f : float) : option Z :=
  match Prim2SF f with
  | S754_zero _ => Some 0%Z
  | S754_finite s m e =>
      let z :=
        if (0 <=? e)%Z then Some (Zpos m * 2 ^ e)%Z
        else if (Zpos m mod 2 ^ (- e) =? 0)%Z
             then Some (Zpos m / 2 ^ (- e))%Z
             else None in
      match z with
      | Some z =>
          if (z <? 2 ^ 63)%Z then Some (if s then (- z)%Z else z) else None
      | None => None
      end
  | _ => None
  end.

(** [str(z)], which is also the text of an INTEGER in SQLite. *)
Definition decimal (z : Z) : pystr := str (NilZero.string_of_int (Z.to_int z)).

Section Affinity.

Context {E : External}.

(** What a column of INTEGER affinity ([score], [baseline_score]) stores
    for a value: a float that holds an integer becomes that INTEGER, and a
    text that reads as a number becomes that number. *)
Definition integer_affinity (v : sqlval) : sqlval :=
  match v with
  | SReal f =>
      match exact_integer f with
      | Some z => SInt z
      | None => SReal f
      end
  | SText s =>
      match numeric_text s with
      | Some n => n
      | None => SText s
      end
  | _ => v
  end.

(** What a column of TEXT affinity ([status], [notes]) stores for a value:
    a number becomes its text. *)
Definition text_affinity (v : sqlval) : sqlval :=
  match v with
  | SInt z => SText (decimal z)
  | SReal f => SText (real_text f)
  | _ => v
  end.

Definition bind_integer (v : json) : result sqlval :=
  x <- bind_param v ;; Ok (integer_affinity x).

Definition bind_text (v : json) : result sqlval :=
  x <- bind_param v ;; Ok (text_affinity x).

End Affinity.

(** ** Routes *)

Inductive reply :=
| ScanReply (found new filtered : nat)
| AnalyzeReply (analyzed : nat)
| ErrorReply (code : nat) (error : pystr)
| SuccessReply
| CoverLetterReply (cover_letter : pystr)
| CaptureReply (status job_id : pystr) (baseline_score : option json).

(** The body of a request to [/api/capture], with the defaults of the route
    for the keys that are absent; the values are strings. *)
Record Capture := mkCapture {
  capture_url : pystr;
  capture_title : pystr;
  capture_company : pystr;
  capture_location : pystr;
  capture_description : pystr;
  capture_source : pystr
}.

Section Routes.

Context {T : LibraryTables} {E : External}.

(** The row that the [INSERT] of a scan adds; [notes] is bound for a
    filtered job only, and [description] by the feed scan only. *)
Definition scan_row (job : Job) (description : sqlval) (baseline_score : json)
  (now : pystr) (is_filtered : Z) (notes : option json) : result Jobs.Row :=
  id <- bind_str (job_id job) ;;
  title <- bind_str (title job) ;;
  company <- bind_str (company job) ;;
  location <- bind_str (location job) ;;
  url <- bind_str (url job) ;;
  source <- bind_str (source job) ;;
  description <- match description with
                 | SText d => t <- bind_str d ;; Ok (SText t)
                 | v => Ok v
                 end ;;
  raw_text <- bind_str (raw_text job) ;;
  baseline_score <- bind_integer baseline_score ;;
  created_at <- bind_str (created_at job) ;;
  email_date <- bind_str (email_date job) ;;
  notes <- match notes with
           | Some reason => bind_text reason
           | None => Ok SNull
           end ;;
  Ok (Jobs.mkRow id title company location url source (SText (str "new"))
                 (SInt 0) baseline_score SNull SNull notes raw_text created_at
                 now (SText email_date) is_filtered description).

(** One turn of the loop of [api_scan] and of [api_scan_wwr]; [description]
    is the value bound to the column of that name when the statement has
    it, and the statement fails on a table without that column. *)
Definition scan_job (job : Job) (description : option sqlval)
  (resume_text : pystr) (st : Jobs.table * nat * nat) (w : World)
  : result (Jobs.table * nat * nat) * World :=
  let '(db, new_count, filtered_count) := st in
  if Jobs.existing (job_id job) db then (Ok st, w)
  else
    let (r, w) := ai_filter_and_score (title job) (company job) (location job)
                                      (raw_text job) resume_text w in
    match r with
    | Raise e => (Raise e, w)
    | Ok (keep, baseline_score, reason) =>
        let (now, w) := datetime_now w in
        let prepared :=
          match description with
          | Some d => if has_description_column then Ok d
                      else Raise OperationalError
          | None => Ok SNull
          end in
        if truthy keep then
          (d <- prepared ;;
           row <- scan_row job d baseline_score (isoformat now) 0 None ;;
           db <- Jobs.insert row db ;;
           Ok (db, S new_count, filtered_count), w)
        else
          (d <- prepared ;;
           row <- scan_row job d baseline_score (isoformat now) 1
                           (Some reason) ;;
           db <- Jobs.insert row db ;;
           Ok (db, new_count, S filtered_count), w)
    end.

(** The loop; an exception leaves it at once. *)
Fixpoint scan_loop (jobs : list (Job * option sqlval)) (resume_text : pystr)
  (st : Jobs.table * nat * nat) (w : World)
  : result (Jobs.table * nat * nat) * World :=
  match jobs with
  | [] => (Ok st, w)
  | (job, description) :: rest =>
      let (r, w) := scan_job job description resume_text st w in
      match r with
      | Ok st' => scan_loop rest resume_text st' w
      | Raise e => (Raise e, w)
      end
  end.

(** What a scan does once the candidates are there: without resumes it
    answers 400 before it opens the database; the rows it inserts are
    committed together at the end, so an exception leaves the table as it
    was. *)
Definition ingest (jobs : list (Job * option sqlval)) (no_resumes : pystr)
  (db : Jobs.table) (w : World) : Jobs.table * result reply * World :=
  let resume_text := load_resumes w in
  if falsy resume_text then (db, Ok (ErrorReply 400 no_resumes), w)
  else
    let (r, w) := scan_loop jobs resume_text (db, 0, 0) w in
    match r with
    | Ok (db', new_count, filtered_count) =>
        (db', Ok (ScanReply (List.length jobs) new_count filtered_count), w)
    | Raise e => (db, Raise e, w)
    end.

(** [POST /api/scan] *)
Definition api_scan (db : Jobs.table) (w : World)
  : Jobs.table * result reply * World :=
  let (jobs, w) := scan_emails w in
  match jobs with
  | Raise e => (db, Raise e, w)
  | Ok jobs =>
      ingest (map (fun j => (j, None)) jobs)
             (str "No resumes found. Add .txt/.md files to resumes/ folder")
             db w
  end.

(** [job.get('description', '')], bound to the statement *)
Definition feed_description (j : FeedJob) : sqlval :=
  match description j with
  | Some d => SText d
  | None => SNull
  end.

(** [POST /api/wwr] *)
Definition api_scan_wwr (db : Jobs.table) (w : World)
  : Jobs.table * result reply * World :=
  let (jobs, w) := fetch_wwr_jobs 7 w in
  ingest (map (fun j => (job j, Some (feed_description j))) jobs)
         (str "No resumes found") db w.

(** [SELECT * FROM jobs WHERE is_filtered = 0 AND (score = 0 OR score IS
    NULL)] *)
Definition score_unset (v : sqlval) : bool :=
  match v with
  | SNull => true
  | SInt z => (z =? 0)%Z
  | SReal f => PrimFloat.eqb f 0%float
  | SText _ => false
  end.

Definition to_analyze (r : Jobs.Row) : bool :=
  (Jobs.is_filtered r =? 0)%Z && score_unset (Jobs.score r).

(** One turn of the loop of [api_analyze]: the update is committed at once. *)
Definition analyze_row (job : Jobs.Row) (resume_text : pystr)
  (db : Jobs.table) (w : World) : result Jobs.table * World :=
  let (analysis, w) :=
    analyze_job (Jobs.title job) (Jobs.company job) (Jobs.location job)
                (Jobs.raw_text job) resume_text w in
  let (now, w) := datetime_now w in
  (score <- bind_integer (jget (str "qualification_score") analysis (JInt 0)) ;;
   text <- bind_str (json_dumps analysis) ;;
   let status :=
     if truthy (jget (str "should_apply") analysis JNull)
     then str "interested" else str "new" in
   Ok (Jobs.update
         (fun r => str_eqb (Jobs.job_id r) (Jobs.job_id job))
         (fun r => Jobs.mkRow (Jobs.job_id r) (Jobs.title r) (Jobs.company r)
                     (Jobs.location r) (Jobs.url r) (Jobs.source r)
                     (SText status) score (Jobs.baseline_score r) (SText text)
                     (Jobs.cover_letter r) (Jobs.notes r) (Jobs.raw_text r)
                     (Jobs.created_at r) (isoformat now) (Jobs.email_date r)
                     (Jobs.is_filtered r) (Jobs.description r))
         db), w).

Fixpoint analyze_loop (jobs : list Jobs.Row) (resume_text : pystr)
  (db : Jobs.table) (w : World) : Jobs.table * option exn * World :=
  match jobs with
  | [] => (db, None, w)
  | job :: rest =>
      let (r, w) := analyze_row job resume_text db w in
      match r with
      | Ok db' => analyze_loop rest resume_text db' w
      | Raise e => (db, Some e, w)
      end
  end.

(** [POST /api/analyze] *)
Definition api_analyze (db : Jobs.table) (w : World)
  : Jobs.table * result reply * World :=
  let resume_text := load_resumes w in
  if falsy resume_text then (db, Ok (ErrorReply 400 (str "No resumes found")), w)
  else
    let jobs := filter to_analyze db in
    let '(db', e, w) := analyze_loop jobs resume_text db w in
    match e with
    | None => (db', Ok (AnalyzeReply (List.length jobs)), w)
    | Some e => (db', Raise e, w)
    end.

(** [PATCH /api/jobs/<job_id>] with the value of the [status] key of the
    body ([None] when the key is absent). *)
Definition update_job (id : pystr) (new_status : json) (db : Jobs.table)
  (w : World) : Jobs.table * result reply * World :=
  let (now, w) := datetime_now w in
  match bind_text new_status with
  | Raise e => (db, Raise e, w)
  | Ok v =>
      (Jobs.update
         (fun r => str_eqb (Jobs.job_id r) id)
         (fun r => Jobs.mkRow (Jobs.job_id r) (Jobs.title r) (Jobs.company r)
                     (Jobs.location r) (Jobs.url r) (Jobs.source r)
                     v (Jobs.score r) (Jobs.baseline_score r) (Jobs.analysis r)
                     (Jobs.cover_letter r) (Jobs.notes r) (Jobs.raw_text r)
                     (Jobs.created_at r) (isoformat now) (Jobs.email_date r)
                     (Jobs.is_filtered r) (Jobs.description r))
         db, Ok SuccessReply, w)
  end.

(** [POST /api/jobs/<job_id>/cover-letter] *)
Definition api_cover_letter (id : pystr) (db : Jobs.table) (w : World)
  : Jobs.table * result reply * World :=
  let resume_text := load_resumes w in
  match Jobs.fetchone id db with
  | None => (db, Raise TypeError, w)
  | Some _ =>
      let (r, w) := cover_letter_text id resume_text w in
      match r with
      | Raise e => (db, Raise e, w)
      | Ok letter =>
          let (now, w) := datetime_now w in
          match bind_str letter with
          | Raise e => (db, Raise e, w)
          | Ok letter =>
              (Jobs.update
                 (fun r => str_eqb (Jobs.job_id r) id)
                 (fun r => Jobs.mkRow (Jobs.job_id r) (Jobs.title r)
                             (Jobs.company r) (Jobs.location r) (Jobs.url r)
                             (Jobs.source r) (Jobs.status r) (Jobs.score r)
                             (Jobs.baseline_score r) (Jobs.analysis r)
                             (SText letter) (Jobs.notes r) (Jobs.raw_text r)
                             (Jobs.created_at r) (isoformat now)
                             (Jobs.email_date r) (Jobs.is_filtered r)
                             (Jobs.description r))
                 db, Ok (CoverLetterReply letter), w)
          end
      end
  end.

(** [POST /api/capture] *)
Definition description_blank (v : sqlval) : bool :=
  match v with
  | SNull => true
  | SText d => falsy d
  | _ => false
  end.

Definition detect_source (url source : pystr) : pystr :=
  if contains (str "linkedin.com") url then str "linkedin"
  else if contains (str "indeed.com") url then str "indeed"
  else if contains (str "weworkremotely.com") url then str "weworkremotely"
  else source.

Definition capture_update (id description now : pystr) (db : Jobs.table)
  : result Jobs.table :=
  if negb has_description_column then Raise OperationalError
  else
    d <- bind_str (upto 5000 description) ;;
    raw <- bind_str (upto 2000 description) ;;
    Ok (Jobs.update
          (fun r => str_eqb (Jobs.job_id r) id
                    && description_blank (Jobs.description r))
          (fun r => Jobs.mkRow (Jobs.job_id r) (Jobs.title r) (Jobs.company r)
                      (Jobs.location r) (Jobs.url r) (Jobs.source r)
                      (Jobs.status r) (Jobs.score r) (Jobs.baseline_score r)
                      (Jobs.analysis r) (Jobs.cover_letter r) (Jobs.notes r)
                      raw (Jobs.created_at r) now (Jobs.email_date r)
                      (Jobs.is_filtered r) (SText d))
          db).

Definition capture_insert (id url source : pystr) (c : Capture)
  (baseline_score : json) (now1 now2 : pystr) (db : Jobs.table)
  : result Jobs.table :=
  if negb has_description_column then Raise OperationalError
  else
    id <- bind_str id ;;
    title <- bind_str (upto 200 (capture_title c)) ;;
    company <- bind_str (upto 100 (capture_company c)) ;;
    location <- bind_str (upto 100 (capture_location c)) ;;
    url <- bind_str url ;;
    source <- bind_str source ;;
    d <- bind_str (upto 5000 (capture_description c)) ;;
    raw <- bind_str (upto 2000 (capture_description c)) ;;
    baseline_score <- bind_integer baseline_score ;;
    Jobs.insert
      (Jobs.mkRow id title company location url source (SText (str "new"))
                  (SInt 0) baseline_score SNull SNull SNull raw now1 now2
                  SNull 0 (SText d))
      db.

Definition api_capture (c : Capture) (db : Jobs.table) (w : World)
  : Jobs.table * result reply * World :=
  match clean_job_url (capture_url c) with
  | Raise e => (db, Raise e, w)
  | Ok url =>
      let source := detect_source url (capture_source c) in
      if falsy url || falsy (capture_title c)
      then (db, Ok (ErrorReply 400 (str "url and title required")), w)
      else
        match generate_job_id url (capture_title c) (capture_company c) with
        | Raise e => (db, Raise e, w)
        | Ok id =>
            if Jobs.existing id db then
              let (now, w) := datetime_now w in
              match capture_update id (capture_description c) (isoformat now)
                                   db with
              | Ok db' => (db', Ok (CaptureReply (str "updated") id None), w)
              | Raise e => (db, Raise e, w)
              end
            else
              let resume_text := load_resumes w in
              let (scored, w) :=
                if negb (falsy resume_text) then
                  let raw := if negb (falsy (capture_description c))
                             then upto 500 (capture_description c)
                             else capture_title c in
                  let (r, w) :=
                    ai_filter_and_score (capture_title c) (capture_company c)
                                        (capture_location c) raw resume_text w in
                  (match r with
                   | Ok (_, baseline_score, _) => Ok baseline_score
                   | Raise e => Raise e
                   end, w)
                else (Ok (JInt 50), w) in
              match scored with
              | Raise e => (db, Raise e, w)
              | Ok baseline_score =>
                  let (now1, w) := datetime_now w in
                  let (now2, w) := datetime_now w in
                  match capture_insert id url source c baseline_score
                                       (isoformat now1) (isoformat now2) db with
                  | Ok db' =>
                      (db', Ok (CaptureReply (str "created") id
                                             (Some baseline_score)), w)
                  | Raise e => (db, Raise e, w)
                  end
              end
        end
  end.

(** The requests that write the table. *)
Inductive request :=
| Scan
| ScanWwr
| Analyze
| UpdateJob (job_id : pystr) (status : json)
| CoverLetter (job_id : pystr)
| CaptureJob (c : Capture).

Definition handle (r : request) (db : Jobs.table) (w : World)
  : Jobs.table * result reply * World :=
  match r with
  | Scan => api_scan db w
  | ScanWwr => api_scan_wwr db w
  | Analyze => api_analyze db w
  | UpdateJob id status => update_job id status db w
  | CoverLetter id => api_cover_letter id db w
  | CaptureJob c => api_capture c db w
  end.

(** The tables that the program can reach from the empty table of
    [init_db], whatever the world answers. *)
Inductive reachable : Jobs.table -> Prop :=
| reachable_init : reachable []
| reachable_step : forall db r w,
    reachable db -> reachable (fst (fst (handle r db w))).

End Routes.

(** ** Predicates of the statements *)

(** A character that [urlsplit] does not remove. *)
Definition safe_char (c : N) : bool := negb (unsafe_url_byte c).

(** A character of an authority that [urlsplit] takes as it stands. *)
Definition plain_netloc_char (c : N) : bool :=
  negb (netloc_delim c) && is_ascii c
  && negb (N.eqb (chr "[") c) && negb (N.eqb (chr "]") c).

Definition is_not (c x : N) : bool := negb (N.eqb c x).

(** A LinkedIn job token that [clean_job_url] leaves as it is. *)
Definition linkedin_token (j : pystr) : bool :=
  negb (has (chr "/") j) && negb (has (chr "?") j) && negb (has (chr "#") j)
  && negb (has (chr ";") j) && forallb safe_char j.

(** An Indeed job key that [clean_job_url] leaves as it is. *)
Definition indeed_token (j : pystr) : bool :=
  negb (falsy j) && negb (has (chr "#") j) && negb (has (chr "&") j)
  && negb (has (chr "+") j) && negb (has (chr "%") j) && forallb safe_char j.

(** A code point that UTF-8 encodes: not a lone surrogate. *)
Definition scalar (c : N) : bool := negb (is_surrogate c).

(** A dict whose names and values can all be encoded. *)
Definition scalar_dict (d : qdict) : bool :=
  forallb (fun kv => forallb scalar (fst kv) && forallb (forallb scalar) (snd kv)) d.

Definition is_hex_lower (c : N) : bool :=
  is_digit c || ((97 <=? c)%N && (c <=? 102)%N).

Section CaseVariants.

Context {T : LibraryTables}.


End CaseVariants.

Section Settled.

Context {T : LibraryTables}.

(** A URL that a second pass of [clean_job_url] leaves as it is: a LinkedIn
    job view or an Indeed job page with a well-formed token, or a URL with
    no query string that neither job-board branch rewrites. *)
Definition settled (r : pystr) : Prop :=
  (exists j, r = linkedin_view j /\ linkedin_token j = true)
  \/ (exists j, r = indeed_viewjob j /\ indeed_token j = true)
  \/ (exists p, urlparse r = Ok p /\ job_board_url p = None /\ query p = []).

End Settled.

(** A response in which the baseline filter finds no payload: the call
    raised, or the text holds no braces, or [json.loads] rejects what the
    braces hold. *)
Definition no_payload {E : External} (r : result pystr) : Prop :=
  match r with
  | Raise _ => True
  | Ok text =>
      match search_braces text with
      | None => True
      | Some m => exists e, json_loads m = Raise e
      end
  end.

(** The number of rows with a given [job_id]. *)
Definition count_id (id : pystr) (db : Jobs.table) : nat :=
  List.length (filter (fun r => str_eqb (Jobs.job_id r) id) db).

(** A filtered row has no qualification score and no analysis. *)
Definition unscored (r : Jobs.Row) : Prop :=
  Jobs.is_filtered r <> 0%Z -> Jobs.score r = SInt 0 /\ Jobs.analysis r = SNull.

(** The invariant of the table: [job_id] is a key, and filtered rows are
    unscored. *)
Definition rows_ok (db : Jobs.table) : Prop :=
  NoDup (map Jobs.job_id db) /\ forall r, In r db -> unscored r.

Definition keys (db : Jobs.table) : list (pystr * Z) :=
  map (fun r => (Jobs.job_id r, Jobs.is_filtered r)) db.


(** ** Worlds for the worked examples *)

(** The case tables of Unicode 14 on U+0000 to U+00FF and on the Greek
    letters U+0391 to U+03CE; the examples hold no other code point. *)
Definition plain_lower (c : N) : pystr :=
  if ((65 <=? c) && (c <=? 90)
      || (192 <=? c) && (c <=? 222) && negb (c =? 215)
      || (913 <=? c) && (c <=? 929) || (931 <=? c) && (c <=? 939))%N
  then [(c + 32)%N] else [c].

Definition plain_cased (c : N) : bool :=
  ((65 <=? c) && (c <=? 90) || (97 <=? c) && (c <=? 122)
   || (c =? 170) || (c =? 181) || (c =? 186)
   || (192 <=? c) && (c <=? 214) || (216 <=? c) && (c <=? 246)
   || (248 <=? c) && (c <=? 255)
   || (913 <=? c) && (c <=? 929) || (931 <=? c) && (c <=? 974))%N.

Definition plain_case_ignorable (c : N) : bool :=
  existsb (N.eqb c) [39; 46; 58; 94; 96; 168; 173; 175; 180; 183; 184]%N.

(** The tables of an interpreter whose two checks of [urlsplit] always
    pass; the examples have neither a bracket nor a character above U+007F
    in an authority, so that neither check is consulted on them. *)
Definition plain_tables : Urllib.LibraryTables :=
  {| Urllib.check_bracketed_host := fun _ => true;
     Urllib.normalize_NFKC := fun s => s;
     Urllib.to_lower_full := plain_lower;
     Urllib.is_cased := plain_cased;
     Urllib.is_case_ignorable := plain_case_ignorable |}.

(** A world that always gives the same answers: the generative-text service
    answers [answer] and [json.loads] returns [loaded]; one mail of the
    first LinkedIn query holds [links]; the first feed holds [items]; the
    resumes are [resumes]; the clock is a counter. The examples bind no
    text to a numeric column and no float to a text column, so that the two
    conversions of SQLite are not consulted on them. *)
Record Script := mkScript {
  answer : result pystr;
  loaded : result jdict;
  links : list Link;
  items : list Item;
  resumes : pystr;
  description_column : bool
}.

Definition scripted (s : Script) : External :=
  {| World := nat;
     messages_create := fun _ w => (answer s, S w);
     json_loads := fun _ => loaded s;
     json_dumps := fun _ => str "{}";
     load_resumes := fun _ => resumes s;
     datetime_now := fun w =>
       (mkDatetime false (Z.of_nat w) (str "2025-06-01T12:00:00"), S w);
     parsedate_to_datetime := fun _ => Raise (ValueError "not a date");
     html_text := fun d => d;
     gmail_service := fun w => (Ok tt, w);
     gmail_search := fun q w =>
       (if str_eqb q (str "jobs-noreply@linkedin.com")
        then [mkMessage (str "2025-06-01T08:00:00") (links s) []] else [],
        None, w);
     fetch_feed := fun u w =>
       (if str_eqb u (hd [] WWR_FEEDS) then Ok (items s) else Ok [], w);
     cover_letter_text := fun _ _ w => (Ok (str "Dear team"), w);
     has_description_column := description_column s;
     numeric_text := fun _ => None;
     real_text := fun _ => str "" |}.

Definition demo_link : Link :=
  mkLink (str "https://www.linkedin.com/comm/jobs/view/4242?trk=eml")
         (str "Backend Engineer")
         (Some [66; 97; 99; 107; 101; 110; 100; 32; 183; 32; 65; 67; 77; 69;
                32; 183; 32; 82; 101; 109; 111; 116; 101]%N)
         (str "").

(** The service is down: every posting is kept by the fallback. *)
Definition offline : Script :=
  mkScript (Raise (OtherException (str "connection error"))) (Ok [])
           [demo_link] [] (str "Python, Go, PostgreSQL") false.

(** The service rejects every posting. *)
Definition rejecting : Script :=
  mkScript (Ok (str "{}"))
           (Ok [(str "keep", JBool false); (str "baseline_score", JInt 12);
                (str "filter_reason", JStr (str "filtered: onsite only"))])
           [demo_link] [] (str "Python, Go, PostgreSQL") false.

(** No resume has been added. *)
Definition no_resumes : Script :=
  mkScript (Ok (str "{}")) (Ok []) [demo_link] [] (str "") false.

(** No resume has been added, and the credentials of the mail service are
    missing: [get_gmail_service] raises FileNotFoundError, with a message
    that names the file. *)
Definition no_credentials : External :=
  {| World := nat;
     messages_create := @messages_create (scripted no_resumes);
     json_loads := @json_loads (scripted no_resumes);
     json_dumps := @json_dumps (scripted no_resumes);
     load_resumes := @load_resumes (scripted no_resumes);
     datetime_now := @datetime_now (scripted no_resumes);
     parsedate_to_datetime := @parsedate_to_datetime (scripted no_resumes);
     html_text := @html_text (scripted no_resumes);
     gmail_service := fun w =>
       (Raise (OtherException
                 (str "Missing credentials.json. Download from Google Cloud Console.")),
        w);
     gmail_search := @gmail_search (scripted no_resumes);
     fetch_feed := @fetch_feed (scripted no_resumes);
     cover_letter_text := @cover_letter_text (scripted no_resumes);
     has_description_column := false;
     numeric_text := @numeric_text (scripted no_resumes);
     real_text := @real_text (scripted no_resumes) |}.





(** What the scan of the mail finds in these worlds, and the tables that a
    first scan of an empty table leaves. *)
Definition demo_jobs : list Job :=
  match fst (@scan_emails plain_tables (scripted offline) 0%nat) with
  | Ok jobs => jobs
  | Raise _ => []
  end.

Definition kept_table : Jobs.table :=
  fst (fst (@api_scan plain_tables (scripted offline) [] 0%nat)).

Definition rejected_table : Jobs.table :=
  fst (fst (@handle plain_tables (scripted rejecting) Scan [] 0%nat)).

(** ** Predicates of the further properties *)

(** A reply that refuses the request: an exception (answered with status
    500) or an error reply. *)
Definition refused (r : result reply) : bool :=
  match r with
  | Raise _ => true
  | Ok (ErrorReply _ _) => true
  | Ok _ => false
  end.

Definition within (n : nat) (s : pystr) : Prop := (List.length s <= n)%nat.

(** What every record of a mail parser satisfies. *)
Definition mail_job_ok (board date : pystr) (j : Job) : Prop :=
  List.length (job_id j) = 16%nat /\ forallb is_hex_lower (job_id j) = true
  /\ (3 <= List.length (title j) <= 200)%nat
  /\ within 100 (company j) /\ within 100 (location j)
  /\ within 1000 (raw_text j)
  /\ source j = board /\ created_at j = date /\ email_date j = date
  /\ url j <> [].

(** What every record of the feed parser satisfies. *)
Definition feed_job_ok (fj : FeedJob) : Prop :=
  List.length (job_id (job fj)) = 16%nat
  /\ forallb is_hex_lower (job_id (job fj)) = true
  /\ within 200 (title (job fj)) /\ within 100 (company (job fj))
  /\ location (job fj) = str "Remote"
  /\ source (job fj) = str "weworkremotely"
  /\ created_at (job fj) = email_date (job fj)
  /\ match description fj with
     | Some d => within 2000 d
     | None => True
     end.

(** An item whose [title] or [link] element is absent or has no child
    element: the test [not title_elem or not link_elem] of the loop holds. *)
Definition childless (item : Item) : bool :=
  not_elem (title_elem item) || not_elem (link_elem item).

(** The integers from [lo] to [lo + n - 1]. *)
Definition zrange (lo n : Z) : list Z :=
  map (fun i => (lo + Z.of_nat i)%Z) (seq 0 (Z.to_nat n)).

(** The recency score of [calculate_weighted_score] is 0 at [d] days. *)
Definition no_recency (d : Z) : bool :=
  PrimFloat.Leibniz.eqb (Ranking.max0 (100 - Ranking.float_of_Z d * 3.33)) 0%float.

(** The weighted score lies between 0 and 100. *)
Definition in_range (b d : Z) : bool :=
  let s := Ranking.calculate_weighted_score b (Some d) in
  PrimFloat.leb 0 s && PrimFloat.leb s 100.

(** A code point of a Python string that UTF-8 encodes: below U+110000 and
    not a lone surrogate. *)
Definition code_point (c : N) : bool := (c <? 1114112)%N && scalar c.

Definition is_byte (b : N) : bool := (b <? 256)%N.

Definition high (b : N) : bool := negb (b <? 128)%N.

(** A character that a quoted string can hold: never [+], [&] or [=]. *)
Definition quoted_char (c : N) : bool :=
  is_ascii c && negb (N.eqb c 43) && negb (N.eqb c 38) && negb (N.eqb c 61).

(** What [parse_qsl] needs of an encoded name or value. *)
Definition field_char (c : N) : bool :=
  is_ascii c && negb (N.eqb c 38) && negb (N.eqb c 61).

(** The name and value pairs of a dict, in the order of [urlencode]. *)
Definition expand (d : qdict) : list (pystr * pystr) :=
  flat_map (fun kv => map (pair (fst kv)) (snd kv)) d.

(** The dicts that [parse_qs] returns: no name twice, no empty list of
    values, no empty value, code points only. *)
Definition dict_ok (d : qdict) : Prop :=
  NoDup (map fst d)
  /\ forall k vs, In (k, vs) d ->
       forallb code_point k = true /\ vs <> []
       /\ forall v, In v vs -> forallb code_point v = true /\ v <> [].

Definition add_pair (d : qdict) (nv : pystr * pystr) : qdict :=
  dict_append (fst nv) (snd nv) d.

(** [k not in tracking_params], for an item of the dict. *)
Definition untracked (kv : pystr * list pystr) : bool :=
  negb (mem (fst kv) tracking_params).

(** The ages from 31 days on give the score of 31 days. *)
Definition clamp (d : Z) : Z := Z.min d 31.

(** Every element is related to itself and to every later one. *)
Fixpoint ordered (r : float -> float -> bool) (l : list float) : bool :=
  match l with
  | [] => true
  | x :: l' => forallb (r x) l && ordered r l'
  end.

Definition score_by_age (b : Z) : list float :=
  map (fun d => Ranking.calculate_weighted_score b (Some d)) (zrange 0 32).

Definition score_by_baseline (d : Z) : list float :=
  map (fun b => Ranking.calculate_weighted_score b (Some d)) (zrange 0 101).

(** The row that a scan stores for a job: the fields of the job as they
    are, the status [new], no score, no analysis, no cover letter; a kept
    row has no notes. *)
Definition row_of_job (j : Job) (row : Jobs.Row) : Prop :=
  Jobs.job_id row = job_id j /\ Jobs.title row = title j
  /\ Jobs.company row = company j /\ Jobs.location row = location j
  /\ Jobs.url row = url j /\ Jobs.source row = source j
  /\ Jobs.raw_text row = raw_text j /\ Jobs.created_at row = created_at j
  /\ Jobs.email_date row = SText (email_date j)
  /\ Jobs.status row = SText (str "new") /\ Jobs.score row = SInt 0
  /\ Jobs.analysis row = SNull /\ Jobs.cover_letter row = SNull
  /\ ((Jobs.is_filtered row = 0%Z /\ Jobs.notes row = SNull)
      \/ Jobs.is_filtered row = 1%Z).

(** ** [get_email_body] *)

(** A message payload of the Gmail API, or one of its parts: the value of
    [mimeType] when the key is there; the [data] of the [body] ([None] when
    there is no [body] key, [Some None] when the body has no [data] key);
    the [parts] when the key is there. *)
Inductive Payload :=
| mkPayload (mime_type : option pystr) (body : option (option pystr))
            (parts : option (list Payload)).

Section EmailBody.

(** [base64.urlsafe_b64decode(data).decode('utf-8')], which raises on data
    that is not base64 or not UTF-8. *)
Variable b64decode_utf8 : pystr -> result pystr.

(** [payload['body'].get('data')] when it is there and truthy. *)
Definition truthy_data (body : option (option pystr)) : option pystr :=
  match body with
  | Some (Some d) => if falsy d then None else Some d
  | _ => None
  end.

(** [part['body']['data']] when [part['mimeType'] == 'text/html' and 'data'
    in part.get('body', {})]. *)
Definition html_data (mime_type : pystr) (body : option (option pystr))
  : option pystr :=
  if str_eqb mime_type (str "text/html") then
    match body with
    | Some (Some d) => Some d
    | _ => None
    end
  else None.

Fixpoint get_email_body (payload : Payload) : result pystr :=
  match payload with
  | mkPayload _ body parts =>
      match truthy_data body with
      | Some d => b64decode_utf8 d
      | None =>
          match parts with
          | Some ps =>
              (fix loop (ps : list Payload) : result pystr :=
                 match ps with
                 | [] => Ok (str "")
                 | part :: rest =>
                     match part with
                     | mkPayload None _ _ =>
                         Raise (OtherException (str "'mimeType'"))
                     | mkPayload (Some m) part_body sub =>
                         match html_data m part_body with
                         | Some d => b64decode_utf8 d
                         | None =>
                             match sub with
                             | Some _ =>
                                 body <- get_email_body part ;;
                                 if negb (falsy body) then Ok body
                                 else loop rest
                             | None => loop rest
                             end
                         end
                     end
                 end) ps
          | None => Ok (str "")
          end
      end
  end.

(** The loop over the parts, by itself. *)
Fixpoint parts_body (ps : list Payload) : result pystr :=
  match ps with
  | [] => Ok (str "")
  | part :: rest =>
      match part with
      | mkPayload None _ _ => Raise (OtherException (str "'mimeType'"))
      | mkPayload (Some m) part_body sub =>
          match html_data m part_body with
          | Some d => b64decode_utf8 d
          | None =>
              match sub with
              | Some _ =>
                  body <- get_email_body part ;;
                  if negb (falsy body) then Ok body else parts_body rest
              | None => parts_body rest
              end
          end
      end
  end.

(** Every [data] of the payload and of its parts, at any depth. *)
Fixpoint all_data (payload : Payload) : list pystr :=
  match payload with
  | mkPayload _ body parts =>
      match body with
      | Some (Some d) => [d]
      | _ => []
      end
      ++ match parts with
         | Some ps =>
             (fix each (ps : list Payload) : list pystr :=
                match ps with
                | [] => []
                | part :: rest => all_data part ++ each rest
                end) ps
         | None => []
         end
  end.

(** A part without parts of its own whose type is not [text/html]. *)
Definition plain_leaf (part : Payload) : bool :=
  match part with
  | mkPayload (Some m) _ None => negb (str_eqb m (str "text/html"))
  | _ => false
  end.

End EmailBody.

(** ** Further worlds for the worked examples *)

Definition demo_indeed_link : Link :=
  mkLink (str "https://www.indeed.com/rc/clk?jk=abc123&from=mail")
         (str "Platform Engineer")
         (Some (str "Platform Engineer Initech Remote"))
         (str "Platform Engineer" ++ 10%N :: str "Initech" ++ 10%N :: str "Remote").

(** A feed as the site serves it: the elements of an item hold text and no
    child element. *)
Definition plain_item : Item :=
  mkItem (Some (mkElement (Some (str "Initech: Platform Engineer")) 0))
         (Some (mkElement
                  (Some (str "https://weworkremotely.com/remote-jobs/initech-1")) 0))
         (Some (mkElement (Some (str "Go and Kubernetes")) 0))
         None.

Definition plain_feed : Script :=
  mkScript (Ok (str "{}")) (Ok []) [] [plain_item] (str "Python, Go") true.

(** A database whose table has the [description] column, with the service
    down. *)
Definition extension : Script :=
  mkScript (Raise (OtherException (str "connection error"))) (Ok [])
           [] [] (str "Python, Go, PostgreSQL") true.

Definition demo_capture : Capture :=
  mkCapture (str "https://example.com/jobs/42?utm_source=x")
            (str "Site Reliability Engineer") (str "Initech") (str "Remote")
            (str "Keep the lights on.") (str "extension").

Definition second_capture : Capture :=
  mkCapture (str "https://example.com/jobs/42")
            (str "Site Reliability Engineer") (str "Initech") (str "Remote")
            (str "Another text.") (str "extension").

Definition captured : Jobs.table * result reply * nat :=
  @api_capture plain_tables (scripted extension) demo_capture [] 0%nat.

Definition captured_table : Jobs.table := fst (fst captured).

Definition captured_id : pystr :=
  match snd (fst captured) with
  | Ok (CaptureReply _ id _) => id
  | _ => []
  end.

(** A URL with two tracking parameters, and its parts. *)
Definition tracked_url : pystr :=
  str "https://example.com/jobs/42?utm_source=x&id=7&ref=abc".

Definition tracked_parts : ParseResult :=
  mkParseResult (str "https") (str "example.com") (str "/jobs/42") (str "")
                (str "utm_source=x&id=7&ref=abc") (str "").

(** A mail with a plain and an HTML alternative, and a mail with the plain
    one only; the decoder of the examples leaves the data as they are. *)
Definition demo_payload : Payload :=
  mkPayload (Some (str "multipart/alternative")) (Some None)
            (Some [mkPayload (Some (str "text/plain"))
                             (Some (Some (str "cGxhaW4"))) None;
                   mkPayload (Some (str "text/html"))
                             (Some (Some (str "PGI-aGk8L2I-"))) None]).

Definition plain_parts : list Payload :=
  [mkPayload (Some (str "text/plain")) (Some (Some (str "cGxhaW4"))) None].

Definition undecoded (data : pystr) : result pystr := Ok data.

(** The row of [kept_table]. *)
Definition kept_row : Jobs.Row :=
  nth 0 kept_table
      (Jobs.mkRow [] [] [] [] [] [] SNull SNull SNull SNull SNull SNull
                  [] [] [] SNull 0 SNull).

(** The kept row after an analysis pass with the service down. *)
Definition retried_table : Jobs.table :=
  match fst (@analyze_row (scripted offline) kept_row
               (str "Python, Go, PostgreSQL") kept_table 2%nat) with
  | Ok t => t
  | Raise _ => []
  end.

Definition retried_row : Jobs.Row := hd kept_row retried_table.

(** * Properties *)
Import Urllib.

Lemma str_eqb_eq a b : str_eqb a b = true <-> a = b.
Proof.
  revert b; induction a as [|x a IH]; intros [|y b]; simpl; split;
    try congruence; try reflexivity.
  - intros H. apply andb_true_iff in H as [H1 H2].
    apply N.eqb_eq in H1. apply IH in H2. congruence.
  - intros H. injection H as -> ->. rewrite N.eqb_refl. simpl. now apply IH.
Qed.

Lemma has_app c a b : has c (a ++ b) = has c a || has c b.
Proof. unfold has. apply existsb_app. Qed.

Lemma partition_absent c s : has c s = false -> partition c s = (s, None).
Proof.
  induction s as [|x s IH]; simpl; [reflexivity|].
  rewrite (N.eqb_sym c x). destruct (N.eqb x c); simpl; [discriminate|].
  intros H. now rewrite IH.
Qed.

Lemma partition_app c p s :
  has c p = false ->
  partition c (p ++ s) = (p ++ fst (partition c s), snd (partition c s)).
Proof.
  induction p as [|x p IH]; simpl.
  - now destruct (partition c s).
  - rewrite (N.eqb_sym c x). destruct (N.eqb x c); simpl; [discriminate|].
    intros H. now rewrite IH.
Qed.

Lemma partition_hit c p s :
  has c p = false -> partition c (p ++ c :: s) = (p, Some s).
Proof.
  intros H. rewrite partition_app by assumption. simpl.
  rewrite N.eqb_refl. simpl. now rewrite app_nil_r.
Qed.

Lemma split_absent c s : has c s = false -> split c s = [s].
Proof.
  induction s as [|x s IH]; simpl; [reflexivity|].
  rewrite (N.eqb_sym c x). destruct (N.eqb x c); simpl; [discriminate|].
  intros H. now rewrite IH.
Qed.

Lemma filter_id {A} (f : A -> bool) l : forallb f l = true -> filter f l = l.
Proof.
  induction l as [|x l IH]; simpl; [reflexivity|].
  destruct (f x); simpl; [|discriminate]. intros H. now rewrite IH.
Qed.


Lemma prepare_keep x s :
  c0_control_or_space x = false -> forallb safe_char s = true ->
  prepare (x :: s) = x :: s.
Proof.
  intros Hx Hs. unfold prepare. simpl. rewrite Hx.
  apply (filter_id safe_char (x :: s)). simpl. rewrite Hs, andb_true_r.
  unfold safe_char, unsafe_url_byte. unfold c0_control_or_space in Hx.
  apply N.leb_gt in Hx.
  destruct (N.eqb_spec x 9), (N.eqb_spec x 13), (N.eqb_spec x 10);
    try reflexivity; lia.
Qed.

Lemma splitnetloc_app n tail :
  forallb (fun c => negb (netloc_delim c)) n = true ->
  match tail with [] => true | x :: _ => netloc_delim x end = true ->
  splitnetloc (n ++ tail) = (n, tail).
Proof.
  intros Hn Ht. induction n as [|x n IH]; simpl in *.
  - destruct tail as [|y tail]; [reflexivity|]. simpl. now rewrite Ht.
  - apply andb_true_iff in Hn as [Hx Hn]. apply negb_true_iff in Hx.
    rewrite Hx, IH by assumption. reflexivity.
Qed.


Lemma forallb_weaken {A} (f g : A -> bool) l :
  (forall x, f x = true -> g x = true) ->
  forallb f l = true -> forallb g l = true.
Proof.
  intros Hfg H. apply forallb_forall. intros x Hx.
  apply Hfg. now apply (proj1 (forallb_forall _ _) H).
Qed.

Lemma has_absent c s :
  forallb (fun x => negb (N.eqb c x)) s = true -> has c s = false.
Proof.
  induction s as [|x s IH]; simpl; [reflexivity|].
  intros H. apply andb_true_iff in H as [Hx Hs].
  apply negb_true_iff in Hx. now rewrite Hx, IH.
Qed.

Lemma plain_netloc n :
  forallb plain_netloc_char n = true ->
  forallb (fun c => negb (netloc_delim c)) n = true
  /\ forallb is_ascii n = true
  /\ has (chr "[") n = false /\ has (chr "]") n = false.
Proof.
  intros H. repeat split.
  - revert H. apply forallb_weaken. unfold plain_netloc_char. intros x Hx.
    now repeat (apply andb_true_iff in Hx as [Hx ?]).
  - revert H. apply forallb_weaken. unfold plain_netloc_char. intros x Hx.
    now repeat (apply andb_true_iff in Hx as [Hx ?]).
  - apply has_absent. revert H. apply forallb_weaken.
    unfold plain_netloc_char. intros x Hx.
    now repeat (apply andb_true_iff in Hx as [Hx ?]).
  - apply has_absent. revert H. apply forallb_weaken.
    unfold plain_netloc_char. intros x Hx.
    now repeat (apply andb_true_iff in Hx as [Hx ?]).
Qed.

Section S.
Context {T : LibraryTables}.

Lemma scheme_chars_safe c : scheme_chars c = true -> safe_char c = true.
Proof.
  unfold safe_char, unsafe_url_byte. intros H.
  destruct (N.eqb_spec c 9), (N.eqb_spec c 13), (N.eqb_spec c 10);
    try reflexivity; subst; vm_compute in H; discriminate.
Qed.

Lemma scheme_chars_no_colon s :
  forallb scheme_chars s = true -> has (chr ":") s = false.
Proof.
  intros H. apply has_absent. revert H. apply forallb_weaken.
  intros x Hx. destruct (N.eqb_spec (chr ":") x) as [<-|]; [|reflexivity].
  vm_compute in Hx. discriminate.
Qed.

(** [urlparse] on [scheme://netloc] followed by a tail without fragment. *)
Lemma urlparse_absolute c0 sch net tail :
  is_ascii_alpha c0 = true ->
  forallb scheme_chars (c0 :: sch) = true ->
  forallb plain_netloc_char net = true ->
  forallb safe_char net = true ->
  forallb safe_char tail = true ->
  has (chr "#") tail = false ->
  match tail with [] => true | x :: _ => netloc_delim x end = true ->
  urlparse ((c0 :: sch) ++ str "://" ++ net ++ tail)
  = Ok (let (url, query) := split_once (chr "?") tail in
        let (url, params) :=
          if mem (lower (c0 :: sch)) uses_params && has (chr ";") url
          then splitparams url else (url, []) in
        mkParseResult (lower (c0 :: sch)) net url params query []).
Proof.
  intros Ha Hs Hn Hns Hts Hf Hd.
  destruct (plain_netloc _ Hn) as (N1 & N2 & N3 & N4).
  unfold urlparse.
  assert (Hasc : is_ascii c0 = true).
  { unfold is_ascii_alpha, is_upper_ascii, is_lower_ascii, is_ascii in *.
    apply N.ltb_lt. apply orb_true_iff in Ha as [Ha|Ha];
    apply andb_true_iff in Ha as [A B]; apply N.leb_le in A, B; lia. }
  rewrite <- app_comm_cons. rewrite prepare_keep.
  2:{ unfold c0_control_or_space. apply N.leb_gt.
      unfold is_ascii_alpha, is_upper_ascii, is_lower_ascii in Ha.
      apply orb_true_iff in Ha as [Ha|Ha];
      apply andb_true_iff in Ha as [A B]; apply N.leb_le in A, B; lia. }
  2:{ simpl in Hs. apply andb_true_iff in Hs as [_ Hs].
      rewrite !forallb_app.
      repeat (apply andb_true_iff; split); try assumption; try reflexivity.
      revert Hs. apply forallb_weaken, scheme_chars_safe. }
  rewrite app_comm_cons.
  unfold split_scheme.
  change (str "://" ++ net ++ tail) with (58%N :: (47 :: 47 :: net ++ tail)%N).
  rewrite partition_hit by (now apply scheme_chars_no_colon).
  rewrite Hasc, Ha, Hs. cbn [andb].
  unfold split_authority.
  change (startswith (str "//") (47 :: 47 :: net ++ tail)%N)
    with (N.eqb 47 47 && (N.eqb 47 47 && true)).
  cbn [N.eqb Pos.eqb andb skipn].
  rewrite splitnetloc_app by assumption.
  rewrite N3, N4. cbn [andb orb negb]. unfold bind.
  unfold split_once at 1.
  rewrite partition_absent by assumption.
  unfold checknetloc. rewrite N2, orb_true_r. cbn [negb].
  destruct (split_once (chr "?") tail) as [url query].
  destruct (mem (lower (c0 :: sch)) uses_params && has (chr ";") url).
  - destruct (splitparams url). reflexivity.
  - reflexivity.
Qed.

End S.


Lemma startswith_app p s : startswith p (p ++ s) = true.
Proof. induction p as [|x p IH]; simpl; [reflexivity|]. now rewrite N.eqb_refl. Qed.

Lemma contains_startswith p s : startswith p s = true -> contains p s = true.
Proof. intros H. destruct s; simpl; now rewrite H. Qed.

Lemma startswith_absent c p s : has c s = false -> startswith (c :: p) s = false.
Proof.
  destruct s as [|x s]; simpl; [reflexivity|].
  destruct (N.eqb c x); [discriminate|reflexivity].
Qed.

Lemma has_tail c x s : has c (x :: s) = false -> has c s = false.
Proof. simpl. intros H. now apply orb_false_iff in H as [_ H]. Qed.

Lemma split_sep_aux_absent c p s acc :
  has c s = false -> split_sep_aux (c :: p) s 0 acc = [rev acc ++ s].
Proof.
  revert acc. induction s as [|x s IH]; intros acc H.
  - simpl. now rewrite app_nil_r.
  - cbn [split_sep_aux]. rewrite startswith_absent by assumption.
    rewrite IH by (now apply has_tail in H). simpl.
    now rewrite <- app_assoc.
Qed.

Lemma split_sep_aux_skip sep p s acc :
  split_sep_aux sep (p ++ s) (List.length p) acc = split_sep_aux sep s 0 acc.
Proof.
  induction p as [|x p IH]; simpl; [|assumption].
  destruct s; reflexivity.
Qed.

Lemma split_sep_prefix c p s :
  has c s = false -> split_sep (c :: p) ((c :: p) ++ s) = [[]; s].
Proof.
  intros H. unfold split_sep. rewrite <- app_comm_cons.
  cbn [split_sep_aux]. rewrite app_comm_cons, startswith_app.
  cbn [List.length Nat.sub]. rewrite Nat.sub_0_r.
  rewrite split_sep_aux_skip, split_sep_aux_absent by assumption.
  reflexivity.
Qed.

Lemma replace_absent a b s : has a s = false -> replace a b s = s.
Proof.
  unfold replace. induction s as [|x s IH]; simpl; [reflexivity|].
  rewrite (N.eqb_sym a x). destruct (N.eqb x a); simpl; [discriminate|].
  intros H. now rewrite IH.
Qed.

Section S2.
Context {T : LibraryTables}.


Lemma linkedin_token_spec j :
  linkedin_token j = true ->
  has (chr "/") j = false /\ has (chr "?") j = false
  /\ has (chr "#") j = false /\ has (chr ";") j = false
  /\ forallb safe_char j = true.
Proof.
  unfold linkedin_token. intros H.
  repeat (apply andb_true_iff in H as [H ?]).
  repeat match goal with
         | X : negb _ = true |- _ => apply negb_true_iff in X
         end.
  auto.
Qed.

Lemma indeed_token_spec j :
  indeed_token j = true ->
  falsy j = false /\ has (chr "#") j = false /\ has (chr "&") j = false
  /\ has (chr "+") j = false /\ has (chr "%") j = false
  /\ forallb safe_char j = true.
Proof.
  unfold indeed_token. intros H.
  repeat (apply andb_true_iff in H as [H ?]).
  repeat match goal with
         | X : negb _ = true |- _ => apply negb_true_iff in X
         end.
  repeat split; assumption.
Qed.

Lemma urlparse_linkedin_view j :
  linkedin_token j = true ->
  urlparse (linkedin_view j)
  = Ok (mkParseResult (str "https") (str "www.linkedin.com")
                      (str "/jobs/view/" ++ j) [] [] []).
Proof.
  intros H.
  destruct (linkedin_token_spec _ H) as (Hslash & Hq & Hhash & Hsemi & Hsafe).
  change (linkedin_view j)
    with ((104%N :: str "ttps") ++ str "://" ++ str "www.linkedin.com"
          ++ (str "/jobs/view/" ++ j)).
  rewrite urlparse_absolute; try reflexivity.
  - unfold split_once. rewrite partition_absent.
    + rewrite has_app, Hsemi, orb_false_r. reflexivity.
    + now rewrite has_app, Hq.
  - rewrite forallb_app, Hsafe. reflexivity.
  - now rewrite has_app, Hhash.
Qed.

Lemma clean_linkedin_view j :
  linkedin_token j = true -> clean_job_url (linkedin_view j) = Ok (linkedin_view j).
Proof.
  intros H. unfold clean_job_url.
  change (falsy (linkedin_view j)) with false. cbv iota.
  rewrite urlparse_linkedin_view by assumption. unfold bind, job_board_url, path_job_id.
  cbn [netloc path query].
  change (contains (str "linkedin.com") (str "www.linkedin.com")) with true.
  cbv iota.
  rewrite contains_startswith by apply startswith_app.
  destruct (linkedin_token_spec _ H) as (Hslash & Hq & Hhash & Hsemi & Hsafe).
  change (str "/jobs/view/") with (47%N :: str "jobs/view/").
  rewrite split_sep_prefix by assumption.
  cbn [last List.last].
  rewrite (@split_absent (chr "?") j Hq). cbn [first hd].
  rewrite (@split_absent (chr "/") j Hslash). reflexivity.
Qed.

Lemma urlparse_indeed_viewjob j :
  indeed_token j = true ->
  urlparse (indeed_viewjob j)
  = Ok (mkParseResult (str "https") (str "www.indeed.com")
                      (str "/viewjob") [] (str "jk=" ++ j) []).
Proof.
  intros H.
  destruct (indeed_token_spec _ H) as (Hne & Hhash & Hamp & Hplus & Hpct & Hsafe).
  change (indeed_viewjob j)
    with ((104%N :: str "ttps") ++ str "://" ++ str "www.indeed.com"
          ++ (str "/viewjob?jk=" ++ j)).
  rewrite urlparse_absolute; try reflexivity.
  - rewrite forallb_app, Hsafe. reflexivity.
  - now rewrite has_app, Hhash.
Qed.

Lemma parse_qs_single_jk j :
  indeed_token j = true -> parse_qs (str "jk=" ++ j) = [(str "jk", [j])].
Proof.
  intros H.
  destruct (indeed_token_spec _ H) as (Hne & Hhash & Hamp & Hplus & Hpct & Hsafe).
  unfold parse_qs, parse_qsl.
  change (falsy (str "jk=" ++ j)) with false. cbv iota.
  rewrite split_absent by (now rewrite has_app, Hamp).
  cbn [flat_map]. unfold parse_field.
  change (falsy (str "jk=" ++ j)) with false. cbv iota.
  change (str "jk=" ++ j) with (str "jk" ++ chr "=" :: j).
  rewrite partition_hit by reflexivity.
  rewrite Hne. rewrite (@replace_absent (chr "+") (chr " ") j Hplus).
  unfold unquote at 2. rewrite Hpct. reflexivity.
Qed.

Lemma clean_indeed_viewjob j :
  indeed_token j = true -> clean_job_url (indeed_viewjob j) = Ok (indeed_viewjob j).
Proof.
  intros H. unfold clean_job_url.
  change (falsy (indeed_viewjob j)) with false. cbv iota.
  rewrite urlparse_indeed_viewjob by assumption. unfold bind, job_board_url.
  cbn [netloc path query].
  change (contains (str "linkedin.com") (str "www.indeed.com")) with false.
  change (contains (str "indeed.com") (str "www.indeed.com")) with true.
  cbv iota. rewrite parse_qs_single_jk by assumption. reflexivity.
Qed.

(** A URL without query string that is not a LinkedIn job view comes back
    as it is. *)
Lemma clean_no_query u p :
  urlparse u = Ok p -> job_board_url p = None -> query p = [] ->
  clean_job_url u = Ok u.
Proof.
  intros Hp Hb Hq. unfold clean_job_url. destruct (falsy u); [reflexivity|].
  rewrite Hp. unfold bind. now rewrite Hb, Hq.
Qed.

End S2.


Lemma partition_some c s h t :
  partition c s = (h, Some t) -> s = h ++ c :: t.
Proof.
  revert h. induction s as [|x s IH]; simpl; intros h; [discriminate|].
  destruct (N.eqb_spec x c) as [->|].
  - now intros [= <- <-].
  - destruct (partition c s) as [h' t'] eqn:E. intros [= <- ->].
    simpl. f_equal. now apply IH.
Qed.

Lemma rsplit_at_spec c s a b :
  Urllib.rsplit_at c s = Some (a, b) -> s = a ++ b.
Proof.
  unfold Urllib.rsplit_at.
  destruct (partition c (rev s)) as [h [t|]] eqn:E; [|discriminate].
  intros [= <- <-]. apply partition_some in E.
  rewrite <- (rev_involutive s), E, rev_app_distr. simpl.
  now rewrite <- app_assoc.
Qed.

(** *** What the parts of a string inherit from it *)

Section Inherit.

Variable P : N -> bool.

Lemma all_lstrip f s : forallb P s = true -> forallb P (lstrip_by f s) = true.
Proof.
  induction s as [|x s IH]; simpl; [reflexivity|].
  intros H. destruct (f x); [|exact H].
  apply andb_true_iff in H as [_ H]. now apply IH.
Qed.

Lemma all_filter (f : N -> bool) s :
  forallb P s = true -> forallb P (filter f s) = true.
Proof.
  induction s as [|x s IH]; simpl; [reflexivity|].
  intros H. apply andb_true_iff in H as [Hx H].
  destruct (f x); simpl; [rewrite Hx|]; now apply IH.
Qed.

Lemma all_rev s : forallb P (rev s) = forallb P s.
Proof.
  induction s as [|x s IH]; simpl; [reflexivity|].
  rewrite forallb_app, IH. simpl. rewrite andb_true_r. apply andb_comm.
Qed.

Lemma all_partition c s :
  forallb P s = true ->
  forallb P (fst (partition c s)) = true
  /\ forall t, snd (partition c s) = Some t -> forallb P t = true.
Proof.
  induction s as [|x s IH]; simpl.
  - split; [reflexivity|discriminate].
  - intros H. apply andb_true_iff in H as [Hx H].
    destruct (N.eqb x c); simpl.
    + split; [reflexivity|]. now intros t [= <-].
    + destruct (IH H) as [A B]. destruct (partition c s) as [h t]. simpl in *.
      now rewrite Hx.
Qed.

Lemma all_split_once c s :
  forallb P s = true ->
  forallb P (fst (Urllib.split_once c s)) = true
  /\ forallb P (snd (Urllib.split_once c s)) = true.
Proof.
  intros H. unfold Urllib.split_once.
  destruct (all_partition c s H) as [A B].
  destruct (partition c s) as [h [t|]]; simpl in *; auto.
Qed.

Lemma all_split c s x :
  forallb P s = true -> In x (split c s) -> forallb P x = true.
Proof.
  revert x. induction s as [|y s IH]; simpl; intros x H Hin.
  - destruct Hin as [<-|[]]. reflexivity.
  - apply andb_true_iff in H as [Hy H].
    destruct (N.eqb y c).
    + destruct Hin as [<-|Hin]; [reflexivity|]. now apply IH.
    + destruct (split c s) as [|h t] eqn:E.
      * destruct Hin as [<-|[]]. simpl. now rewrite Hy.
      * destruct Hin as [<-|Hin].
        -- simpl. rewrite Hy. apply IH; [assumption|now left].
        -- apply IH; [assumption|now right].
Qed.

Lemma all_split_sep_aux sep s skip acc x :
  forallb P s = true -> forallb P acc = true ->
  In x (split_sep_aux sep s skip acc) -> forallb P x = true.
Proof.
  revert skip acc x. induction s as [|y s IH]; intros skip acc x H Ha Hin.
  - simpl in Hin. destruct Hin as [<-|[]]. now rewrite all_rev.
  - simpl in H. apply andb_true_iff in H as [Hy H].
    cbn [split_sep_aux] in Hin. destruct skip as [|k].
    + destruct (startswith sep (y :: s)).
      * destruct Hin as [<-|Hin]; [now rewrite all_rev|].
        now apply (IH _ _ _ H (eq_refl : forallb P [] = true) Hin).
      * apply (IH _ _ _ H) in Hin; [assumption|]. simpl. now rewrite Hy.
    + now apply (IH _ _ _ H Ha Hin).
Qed.

Lemma all_first l : (forall x, In x l -> forallb P x = true) ->
  forallb P (first l) = true.
Proof. destruct l as [|x l]; simpl; [reflexivity|]. intros H. apply H. now left. Qed.

Lemma all_last l : (forall x, In x l -> forallb P x = true) ->
  forallb P (last l) = true.
Proof.
  unfold last. induction l as [|x l IH]; [reflexivity|]. intros H.
  destruct l as [|y l]; [apply H; now left|].
  cbn [List.last]. apply IH. intros z Hz. apply H. now right.
Qed.

Lemma all_splitnetloc s :
  forallb P s = true ->
  forallb P (fst (Urllib.splitnetloc s)) = true
  /\ forallb P (snd (Urllib.splitnetloc s)) = true.
Proof.
  induction s as [|x s IH]; simpl; [auto|]. intros H.
  destruct (Urllib.netloc_delim x); simpl; [auto|].
  apply andb_true_iff in H as [Hx H]. destruct (IH H) as [A B].
  destruct (Urllib.splitnetloc s). simpl in *. now rewrite Hx.
Qed.

Lemma all_split_scheme s :
  forallb P s = true -> forallb P (snd (Urllib.split_scheme s)) = true.
Proof.
  intros H. unfold Urllib.split_scheme.
  destruct (all_partition (chr ":") s H) as [A B].
  destruct (partition (chr ":") s) as [h [t|]]; simpl in *; [|assumption].
  destruct h as [|c0 h]; [assumption|].
  destruct (_ && _); simpl; auto.
Qed.

Lemma all_splitparams s :
  forallb P s = true -> forallb P (fst (Urllib.splitparams s)) = true.
Proof.
  intros H. unfold Urllib.splitparams.
  destruct (Urllib.rsplit_at (chr "/") s) as [[a b]|] eqn:E.
  - apply rsplit_at_spec in E. subst s.
    rewrite forallb_app in H. apply andb_true_iff in H as [Ha Hb].
    destruct (all_partition (chr ";") b Hb) as [A _].
    destruct (partition (chr ";") b) as [h [t|]]; simpl in *.
    + now rewrite forallb_app, Ha, A.
    + now rewrite forallb_app, Ha, Hb.
  - now apply all_split_once.
Qed.

End Inherit.


Lemma has_is_not c s : has c s = false <-> forallb (is_not c) s = true.
Proof.
  unfold is_not. induction s as [|x s IH]; simpl; [tauto|].
  rewrite orb_false_iff, andb_true_iff, negb_true_iff. tauto.
Qed.

Lemma partition_fst_absent c s : has c (fst (partition c s)) = false.
Proof.
  induction s as [|x s IH]; simpl; [reflexivity|].
  destruct (N.eqb_spec x c) as [->|Hn]; [reflexivity|].
  destruct (partition c s) as [h t]. simpl in *. rewrite IH, orb_false_r.
  apply N.eqb_neq. congruence.
Qed.

Lemma split_first_absent c s : has c (first (split c s)) = false.
Proof.
  induction s as [|x s IH]; simpl; [reflexivity|].
  destruct (N.eqb_spec x c) as [->|Hn]; [reflexivity|].
  destruct (split c s) as [|h t]; simpl in *.
  - rewrite orb_false_r. apply N.eqb_neq. congruence.
  - rewrite IH, orb_false_r. apply N.eqb_neq. congruence.
Qed.

Section ParseParts.

Context {T : Urllib.LibraryTables}.

Import Urllib.

Lemma all_split_authority P s n r :
  forallb P s = true -> split_authority s = Ok (n, r) ->
  forallb P n = true /\ forallb P r = true.
Proof.
  intros H. unfold split_authority.
  destruct (startswith (str "//") s); [|intros [= <- <-]; now auto].
  assert (H2 : forallb P (skipn 2 s) = true).
  { apply forallb_forall. intros x Hx.
    apply (proj1 (forallb_forall _ _) H). rewrite <- (firstn_skipn 2 s).
    apply in_or_app. now right. }
  destruct (all_splitnetloc P _ H2) as [A B].
  destruct (splitnetloc (skipn 2 s)) as [n' r']. simpl in A, B.
  destruct (_ || _); [discriminate|].
  destruct (_ && _); [discriminate|].
  now intros [= <- <-].
Qed.

(** The path and the query of a parsed URL are made of characters of the
    prepared URL. *)
Lemma urlparse_inherits P u p :
  forallb P (prepare u) = true -> urlparse u = Ok p ->
  forallb P (path p) = true /\ forallb P (query p) = true.
Proof.
  intros H. unfold urlparse.
  pose proof (all_split_scheme P _ H) as H1.
  destruct (split_scheme (prepare u)) as [sch url1]. simpl in H1.
  destruct (split_authority url1) as [[n url2]|e] eqn:E; [|discriminate].
  destruct (all_split_authority P _ H1 E) as [_ H2]. unfold bind.
  destruct (all_split_once P (chr "#") url2 H2) as [H3 _].
  destruct (split_once (chr "#") url2) as [url3 frag]. simpl in H3.
  destruct (all_split_once P (chr "?") url3 H3) as [H4 H5].
  destruct (split_once (chr "?") url3) as [url4 q]. simpl in H4, H5.
  destruct (negb (checknetloc n)); [discriminate|].
  pose proof (all_splitparams P url4 H4) as H6.
  destruct (mem sch uses_params && has (chr ";") url4).
  - destruct (splitparams url4) as [url5 pa]. simpl in H6.
    intros [= <-]. now simpl.
  - intros [= <-]. now simpl.
Qed.

Lemma prepare_safe u : forallb safe_char (prepare u) = true.
Proof.
  unfold prepare. apply forallb_forall. intros x Hx.
  now apply filter_In in Hx as [_ Hx].
Qed.

Lemma all_prepare P u : forallb P u = true -> forallb P (prepare u) = true.
Proof. intros H. unfold prepare. now apply all_filter, all_lstrip. Qed.

(** The path of a parsed URL has no [?], no [#], no tab and no line end. *)
Lemma urlparse_path u p :
  urlparse u = Ok p ->
  has (chr "?") (path p) = false /\ has (chr "#") (path p) = false
  /\ forallb safe_char (path p) = true.
Proof.
  intros Hp. split; [|split].
  - revert Hp. unfold urlparse.
    destruct (split_scheme (prepare u)) as [sch url1].
    destruct (split_authority url1) as [[n url2]|e]; [|discriminate].
    unfold bind.
    destruct (split_once (chr "#") url2) as [url3 frag].
    pose proof (partition_fst_absent (chr "?") url3) as H4.
    unfold split_once.
    assert (H5 : forallb (is_not (chr "?"))
                   (fst (let (h, o) := partition (chr "?") url3 in
                         match o with Some t => (h, t) | None => (h, []) end))
                 = true).
    { apply has_is_not. now destruct (partition (chr "?") url3) as [h [t|]]. }
    destruct (let (h, o) := partition (chr "?") url3 in
              match o with Some t => (h, t) | None => (h, []) end)
      as [url4 q]. simpl in H5.
    destruct (negb (checknetloc n)); [discriminate|].
    pose proof (all_splitparams _ url4 H5) as H6.
    destruct (mem sch uses_params && has (chr ";") url4).
    + destruct (splitparams url4) as [url5 pa]. simpl in H6.
      intros [= <-]. now apply has_is_not.
    + intros [= <-]. now apply has_is_not.
  - revert Hp. unfold urlparse.
    destruct (split_scheme (prepare u)) as [sch url1].
    destruct (split_authority url1) as [[n url2]|e]; [|discriminate].
    unfold bind.
    assert (H3 : forallb (is_not (chr "#")) (fst (split_once (chr "#") url2))
                 = true).
    { apply has_is_not. unfold split_once.
      pose proof (partition_fst_absent (chr "#") url2).
      now destruct (partition (chr "#") url2) as [h [t|]]. }
    destruct (split_once (chr "#") url2) as [url3 frag]. simpl in H3.
    destruct (all_split_once _ (chr "?") url3 H3) as [H4 _].
    destruct (split_once (chr "?") url3) as [url4 q]. simpl in H4.
    destruct (negb (checknetloc n)); [discriminate|].
    pose proof (all_splitparams _ url4 H4) as H6.
    destruct (mem sch uses_params && has (chr ";") url4).
    + destruct (splitparams url4) as [url5 pa]. simpl in H6.
      intros [= <-]. now apply has_is_not.
    + intros [= <-]. now apply has_is_not.
  - now apply (urlparse_inherits safe_char u (prepare_safe u) Hp).
Qed.

End ParseParts.


Lemma all_path_job_id P path :
  forallb P path = true -> forallb P (path_job_id path) = true.
Proof.
  intros H. unfold path_job_id.
  apply all_first. intros x. apply all_split.
  apply all_first. intros y. apply all_split.
  apply all_last. intros z. unfold split_sep.
  now apply all_split_sep_aux.
Qed.

Lemma path_job_id_token path :
  has (chr "?") path = false -> has (chr "#") path = false ->
  forallb safe_char path = true ->
  has (chr ";") (path_job_id path) = false ->
  linkedin_token (path_job_id path) = true.
Proof.
  intros Hq Hh Hs Hsemi. unfold linkedin_token.
  rewrite Hsemi. rewrite (all_path_job_id safe_char path Hs).
  rewrite (proj2 (has_is_not _ _)
             (all_path_job_id _ path (proj1 (has_is_not _ _) Hq))).
  rewrite (proj2 (has_is_not _ _)
             (all_path_job_id _ path (proj1 (has_is_not _ _) Hh))).
  unfold path_job_id at 1. rewrite split_first_absent. reflexivity.
Qed.


(** *** No lone surrogate comes out of percent-decoding *)

Import Urllib.


Ltac bool_to_prop :=
  repeat match goal with
  | H : (_ && _) = true |- _ => apply andb_true_iff in H as [? ?]
  | H : (_ <? _)%N = true |- _ => apply N.ltb_lt in H
  | H : (_ <? _)%N = false |- _ => apply N.ltb_ge in H
  | H : (_ <=? _)%N = true |- _ => apply N.leb_le in H
  | H : (_ <=? _)%N = false |- _ => apply N.leb_gt in H
  | H : (_ =? _)%N = true |- _ => apply N.eqb_eq in H
  | H : (_ =? _)%N = false |- _ => apply N.eqb_neq in H
  end.

Lemma scalar_intro c : (c < 55296 \/ 57343 < c)%N -> scalar c = true.
Proof.
  intros H. unfold scalar, is_surrogate. apply negb_true_iff.
  apply andb_false_iff. destruct H; [left; apply N.leb_gt|right; apply N.leb_gt]; lia.
Qed.

Lemma utf8_decode_scalar_len n : forall bs,
  (List.length bs <= n)%nat -> forallb scalar (utf8_decode bs) = true.
Proof.
  induction n as [|n IH]; intros bs Hlen.
  - destruct bs; [reflexivity|simpl in Hlen; lia].
  - destruct bs as [|b0 r0]; [reflexivity|].
    simpl in Hlen. cbn [utf8_decode].
    assert (I0 : forallb scalar (utf8_decode r0) = true) by (apply IH; lia).
    destruct (b0 <? 128)%N eqn:E1.
    { cbn [forallb]. rewrite I0, andb_true_r. apply scalar_intro.
      bool_to_prop. lia. }
    destruct (b0 <? 194)%N eqn:E2; [cbn [forallb]; now rewrite I0|].
    destruct (b0 <? 224)%N eqn:E3.
    { destruct r0 as [|b1 r1]; [reflexivity|].
      destruct (is_cont b1) eqn:C1; [|cbn [forallb]; now rewrite I0].
      cbn [forallb]. rewrite IH by (simpl in *; lia). rewrite andb_true_r.
      unfold is_cont in C1. apply scalar_intro. bool_to_prop. lia. }
    destruct (b0 <? 240)%N eqn:E4.
    { destruct r0 as [|b1 r1]; [reflexivity|].
      destruct (second_ok b0 b1) eqn:S1; [|cbn [forallb]; now rewrite I0].
      destruct r1 as [|b2 r2]; [reflexivity|].
      destruct (is_cont b2) eqn:C2.
      2:{ cbn [forallb]. now rewrite IH by (simpl in *; lia). }
      cbn [forallb]. rewrite IH by (simpl in *; lia). rewrite andb_true_r.
      unfold is_cont in C2. unfold second_ok, is_cont in S1.
      apply scalar_intro.
      destruct (b0 =? 224)%N eqn:F1; [bool_to_prop; lia|].
      destruct (b0 =? 237)%N eqn:F2; [bool_to_prop; lia|].
      destruct (b0 =? 240)%N eqn:F3; [bool_to_prop; lia|].
      destruct (b0 =? 244)%N eqn:F4; bool_to_prop; lia. }
    destruct (b0 <? 245)%N eqn:E5; [|cbn [forallb]; now rewrite I0].
    destruct r0 as [|b1 r1]; [reflexivity|].
    destruct (second_ok b0 b1) eqn:S1; [|cbn [forallb]; now rewrite I0].
    destruct r1 as [|b2 r2]; [reflexivity|].
    destruct (is_cont b2) eqn:C2.
    2:{ cbn [forallb]. now rewrite IH by (simpl in *; lia). }
    destruct r2 as [|b3 r3]; [reflexivity|].
    destruct (is_cont b3) eqn:C3.
    2:{ cbn [forallb]. now rewrite IH by (simpl in *; lia). }
    cbn [forallb]. rewrite IH by (simpl in *; lia). rewrite andb_true_r.
    unfold is_cont in C2, C3. unfold second_ok, is_cont in S1.
    apply scalar_intro.
    destruct (b0 =? 224)%N eqn:F1; [bool_to_prop; lia|].
    destruct (b0 =? 237)%N eqn:F2; [bool_to_prop; lia|].
    destruct (b0 =? 240)%N eqn:F3; [bool_to_prop; lia|].
    destruct (b0 =? 244)%N eqn:F4; bool_to_prop; lia.
Qed.

Lemma utf8_decode_scalar bs : forallb scalar (utf8_decode bs) = true.
Proof. now apply (@utf8_decode_scalar_len (List.length bs)). Qed.

Lemma unquote_runs_scalar s run :
  forallb scalar s = true -> forallb scalar (unquote_runs s run) = true.
Proof.
  revert run. induction s as [|c s IH]; intros run H; simpl.
  - apply utf8_decode_scalar.
  - simpl in H. apply andb_true_iff in H as [Hc H].
    destruct (is_ascii c); [now apply IH|].
    rewrite forallb_app, utf8_decode_scalar. simpl. rewrite Hc. now apply IH.
Qed.

Lemma unquote_scalar s :
  forallb scalar s = true -> forallb scalar (unquote s) = true.
Proof.
  intros H. unfold unquote. destruct (has _ s); [|assumption].
  now apply unquote_runs_scalar.
Qed.

Lemma replace_scalar a b s :
  scalar b = true -> forallb scalar s = true ->
  forallb scalar (replace a b s) = true.
Proof.
  intros Hb. unfold replace. induction s as [|x s IH]; simpl; [reflexivity|].
  intros H. apply andb_true_iff in H as [Hx H]. rewrite IH by assumption.
  destruct (N.eqb x a); now rewrite ?Hb, ?Hx.
Qed.


Lemma dict_append_scalar k v d :
  forallb scalar k = true -> forallb scalar v = true ->
  scalar_dict d = true -> scalar_dict (dict_append k v d) = true.
Proof.
  intros Hk Hv. unfold scalar_dict.
  induction d as [|[k' vs] d IH]; simpl.
  - now rewrite Hk, Hv.
  - intros H. apply andb_true_iff in H as [H1 H2].
    apply andb_true_iff in H1 as [H1 H3].
    simpl in H1, H3.
    destruct (str_eqb k k'); cbn [forallb fst snd].
    + repeat (apply andb_true_iff; split); try assumption.
      rewrite forallb_app. apply andb_true_iff. split; [exact H3|].
      cbn [forallb]. now rewrite Hv.
    + repeat (apply andb_true_iff; split); try assumption. now apply IH.
Qed.

Lemma parse_field_scalar nv k v :
  forallb scalar nv = true -> parse_field nv = Some (k, v) ->
  forallb scalar k = true /\ forallb scalar v = true.
Proof.
  intros H. unfold parse_field. destruct (falsy nv); [discriminate|].
  destruct (all_partition scalar (chr "=") nv H) as [A B].
  destruct (partition (chr "=") nv) as [n [t|]]; [|discriminate].
  simpl in A. specialize (B t eq_refl).
  destruct (falsy t); [discriminate|]. intros [= <- <-].
  split; apply unquote_scalar, replace_scalar; auto.
Qed.

Lemma parse_qsl_scalar qs :
  forallb scalar qs = true ->
  forallb (fun nv => forallb scalar (fst nv) && forallb scalar (snd nv))
          (parse_qsl qs) = true.
Proof.
  intros H. unfold parse_qsl. destruct (falsy qs); [reflexivity|].
  apply forallb_forall. intros [k v] Hin.
  apply in_flat_map in Hin as (nv & Hnv & Hin).
  pose proof (all_split scalar (chr "&") qs nv H Hnv) as Hs.
  destruct (parse_field nv) as [[k' v']|] eqn:E; [|destruct Hin].
  destruct Hin as [[= <- <-]|[]].
  destruct (parse_field_scalar nv Hs E) as [A B]. simpl. now rewrite A, B.
Qed.

Lemma parse_qs_scalar qs :
  forallb scalar qs = true -> scalar_dict (parse_qs qs) = true.
Proof.
  intros H. unfold parse_qs.
  pose proof (parse_qsl_scalar qs H) as Hl.
  assert (G : forall l d,
             forallb (fun nv => forallb scalar (fst nv) && forallb scalar (snd nv)) l = true ->
             scalar_dict d = true ->
             scalar_dict (fold_left (fun d nv => dict_append (fst nv) (snd nv) d) l d) = true).
  { induction l as [|[k v] l IHl]; intros d Hl' Hd; simpl; [assumption|].
    simpl in Hl'. apply andb_true_iff in Hl' as [Hkv Hl'].
    apply andb_true_iff in Hkv as [Hk Hv].
    apply IHl; [assumption|]. now apply dict_append_scalar. }
  now apply G.
Qed.

Lemma utf8_encode_scalar s :
  forallb scalar s = true -> exists bs, utf8_encode s = Ok bs.
Proof.
  induction s as [|c s IH]; simpl; [now exists []|].
  intros H. apply andb_true_iff in H as [Hc H]. destruct (IH H) as [bs ->].
  unfold utf8_encode_char. unfold scalar in Hc. apply negb_true_iff in Hc.
  rewrite Hc. destruct (c <? 128)%N; [eexists; reflexivity|].
  destruct (c <? 2048)%N; [eexists; reflexivity|].
  destruct (c <? 65536)%N; eexists; reflexivity.
Qed.

Lemma quote_scalar safe s :
  forallb scalar s = true -> exists q, quote safe s = Ok q.
Proof.
  intros H. unfold quote. destruct (utf8_encode_scalar s H) as [bs ->].
  eexists; reflexivity.
Qed.

Lemma quote_plus_scalar s :
  forallb scalar s = true -> exists q, quote_plus s = Ok q.
Proof.
  intros H. unfold quote_plus. destruct (negb _).
  - now apply quote_scalar.
  - destruct (quote_scalar (N.eqb (chr " ")) s H) as [q ->].
    eexists; reflexivity.
Qed.

Lemma encode_values_scalar k vs :
  forallb (forallb scalar) vs = true -> exists l, encode_values k vs = Ok l.
Proof.
  induction vs as [|v vs IH]; simpl; [now eexists|].
  intros H. apply andb_true_iff in H as [Hv H].
  destruct (quote_plus_scalar v Hv) as [q ->]. destruct (IH H) as [l ->].
  eexists; reflexivity.
Qed.

Lemma urlencode_scalar d :
  scalar_dict d = true -> exists q, urlencode d = Ok q.
Proof.
  intros H. unfold urlencode.
  assert (G : exists l, encode_items d = Ok l).
  { induction d as [|[k vs] d IH]; simpl; [now eexists|].
    simpl in H. apply andb_true_iff in H as [Hkv H].
    apply andb_true_iff in Hkv as [Hk Hvs]. simpl in Hk, Hvs.
    destruct (quote_plus_scalar k Hk) as [qk ->]. simpl.
    destruct (encode_values_scalar qk vs Hvs) as [l ->]. simpl.
    destruct (IH H) as [l' ->]. eexists; reflexivity. }
  destruct G as [l ->]. eexists; reflexivity.
Qed.

Lemma strip_tracking_scalar p :
  forallb scalar (query p) = true -> exists r, strip_tracking p = Ok r.
Proof.
  intros H. unfold strip_tracking.
  pose proof (parse_qs_scalar _ H) as Hd.
  assert (Hf : scalar_dict (filter (fun kv => negb (mem (fst kv) tracking_params))
                              (parse_qs (query p))) = true).
  { unfold scalar_dict in *. apply forallb_forall. intros kv Hin.
    apply filter_In in Hin as [Hin _].
    now apply (proj1 (forallb_forall _ _) Hd). }
  destruct (filter _ (parse_qs (query p))) as [|kv d] eqn:E.
  - eexists; reflexivity.
  - destruct (urlencode_scalar _ Hf) as [q ->]. eexists; reflexivity.
Qed.


Section UrlTheorems.

Context {T : LibraryTables}.


Lemma settled_fixed r : settled r -> clean_job_url r = Ok r.
Proof.
  intros [(j & -> & H)|[(j & -> & H)|(p & Hp & Hb & Hq)]].
  - now apply clean_linkedin_view.
  - now apply clean_indeed_viewjob.
  - now apply (clean_no_query r Hp).
Qed.

Lemma linkedin_path_settled u p :
  falsy u = false -> urlparse u = Ok p ->
  contains (str "linkedin.com") (netloc p) = true ->
  contains (str "/jobs/view/") (path p) = true ->
  has (chr ";") (path_job_id (path p)) = false ->
  clean_job_url u = Ok (linkedin_view (path_job_id (path p)))
  /\ settled (linkedin_view (path_job_id (path p))).
Proof.
  intros Hu Hp Hn Hv Hs. split.
  - unfold clean_job_url. rewrite Hu, Hp. unfold bind, job_board_url.
    now rewrite Hn, Hv.
  - left. exists (path_job_id (path p)). split; [reflexivity|].
    destruct (urlparse_path u Hp) as (A & B & C).
    now apply path_job_id_token.
Qed.

(** X1. Where the result of [clean_job_url] is settled, a second pass returns
    it unchanged: normalisation is idempotent at every such URL. *)
Theorem clean_job_url_idempotent_settled u r :
  clean_job_url u = Ok r -> settled r ->
  (x <- clean_job_url u ;; clean_job_url x) = clean_job_url u.
Proof.
  intros Hu Hr. rewrite Hu. unfold bind. now apply settled_fixed.
Qed.

Lemma split_authority_plain url :
  forallb is_ascii url = true -> has (chr "[") url = false ->
  has (chr "]") url = false ->
  exists n r, split_authority url = Ok (n, r) /\ checknetloc n = true.
Proof.
  intros Pa Pl Pr. apply has_is_not in Pl, Pr. unfold split_authority.
  assert (S2 : forall P, forallb P url = true -> forallb P (skipn 2 url) = true).
  { intros P H. apply forallb_forall. intros x Hx.
    apply (proj1 (forallb_forall _ _) H). rewrite <- (firstn_skipn 2 url).
    apply in_or_app. now right. }
  destruct (startswith (str "//") url).
  - destruct (all_splitnetloc _ _ (S2 _ Pa)) as [Na _].
    destruct (all_splitnetloc _ _ (S2 _ Pl)) as [Nl _].
    destruct (all_splitnetloc _ _ (S2 _ Pr)) as [Nr _].
    destruct (splitnetloc (skipn 2 url)) as [n url2]. cbn [fst snd] in Na, Nl, Nr.
    apply has_is_not in Nl, Nr. exists n, url2. cbv zeta.
    rewrite Nl, Nr. split; [reflexivity|].
    unfold checknetloc. now rewrite Na, orb_true_r.
  - exists [], url. split; reflexivity.
Qed.

Lemma urlparse_accepts u :
  forallb is_ascii u = true -> has (chr "[") u = false ->
  has (chr "]") u = false -> exists p, urlparse u = Ok p.
Proof.
  intros Ha Hl Hr. unfold urlparse.
  pose proof (all_prepare is_ascii u Ha) as Pa.
  pose proof (all_prepare _ u (proj1 (has_is_not _ _) Hl)) as Pl.
  pose proof (all_prepare _ u (proj1 (has_is_not _ _) Hr)) as Pr.
  apply all_split_scheme in Pa, Pl, Pr.
  destruct (split_scheme (prepare u)) as [sch url1]. cbn [fst snd] in Pa, Pl, Pr.
  apply has_is_not in Pl, Pr.
  destruct (split_authority_plain url1 Pa Pl Pr) as (n & url2 & -> & Hc).
  unfold bind.
  destruct (split_once (chr "#") url2) as [url3 frag].
  destruct (split_once (chr "?") url3) as [url4 q].
  rewrite Hc. cbn [negb].
  destruct (_ && _); [destruct (splitparams url4)|]; eexists; reflexivity.
Qed.

Lemma ascii_scalar u : forallb is_ascii u = true -> forallb scalar u = true.
Proof.
  apply forallb_weaken. intros x Hx. apply scalar_intro.
  unfold is_ascii in Hx. apply N.ltb_lt in Hx. lia.
Qed.

Lemma clean_job_url_parsed u p :
  forallb scalar u = true -> urlparse u = Ok p ->
  exists r, clean_job_url u = Ok r.
Proof.
  intros Hs Hp. unfold clean_job_url. destruct (falsy u); [now eexists|].
  rewrite Hp. unfold bind.
  destruct (job_board_url p); [now eexists|].
  destruct (negb (falsy (query p))); [|now eexists].
  apply strip_tracking_scalar.
  now apply (urlparse_inherits scalar u (all_prepare _ u Hs) Hp).
Qed.

Lemma clean_job_url_rejected u e :
  falsy u = false -> urlparse u = Raise e -> clean_job_url u = Raise e.
Proof. intros Hu He. unfold clean_job_url. now rewrite Hu, He. Qed.

(** C7, as amended. [clean_job_url] returns the empty string unchanged;
    it returns, without raising, for every string that [urlparse] accepts
    and that holds no lone surrogate, and so for every ASCII string without
    square brackets; and for a string that is not empty and that [urlparse]
    rejects, the exception of [urlparse] reaches the caller. *)
Theorem clean_job_url_total u :
  (u = [] -> clean_job_url u = Ok u)
  /\ (forall p, urlparse u = Ok p -> forallb scalar u = true ->
      exists r, clean_job_url u = Ok r)
  /\ (forallb is_ascii u = true -> has (chr "[") u = false ->
      has (chr "]") u = false -> exists r, clean_job_url u = Ok r)
  /\ (forall e, u <> [] -> urlparse u = Raise e -> clean_job_url u = Raise e).
Proof.
  split; [now intros ->|]. split; [|split].
  - intros p Hp Hs. exact (clean_job_url_parsed u Hs Hp).
  - intros Ha Hl Hr. destruct (urlparse_accepts u Ha Hl Hr) as [p Hp].
    exact (clean_job_url_parsed u (ascii_scalar u Ha) Hp).
  - intros e Hu He. apply clean_job_url_rejected; [|exact He].
    destruct u; [now contradiction Hu|reflexivity].
Qed.

(** X2. Where the result of [clean_job_url] is settled, the identity does not
    depend on whether the URL is normalised beforehand. *)
Theorem generate_job_id_settled u r title company :
  clean_job_url u = Ok r -> settled r ->
  generate_job_id u title company = generate_job_id r title company.
Proof.
  intros Hu Hr. unfold generate_job_id.
  now rewrite Hu, (settled_fixed Hr).
Qed.

End UrlTheorems.


Lemma hex_lower_digit x : is_hex_lower (SHA256.hex_lower (N.land x 15)) = true.
Proof.
  assert (H : (N.land x 15 < 16)%N).
  { change 15%N with (N.ones 4). rewrite N.land_ones.
    now apply N.mod_lt. }
  unfold SHA256.hex_lower, is_hex_lower, is_digit.
  destruct (N.ltb_spec (N.land x 15) 10).
  - apply orb_true_iff. left. apply andb_true_iff.
    split; apply N.leb_le; lia.
  - apply orb_true_iff. right. apply andb_true_iff.
    split; apply N.leb_le; lia.
Qed.

Lemma hex_word_hex x : forallb is_hex_lower (SHA256.hex_word x) = true.
Proof.
  unfold SHA256.hex_word. cbn [map forallb].
  now rewrite !hex_lower_digit.
Qed.

Lemma hexdigest_length msg : List.length (SHA256.hexdigest msg) = 64%nat.
Proof. unfold SHA256.hexdigest. now rewrite !length_app. Qed.

Lemma hexdigest_hex msg : forallb is_hex_lower (SHA256.hexdigest msg) = true.
Proof.
  unfold SHA256.hexdigest. now rewrite !forallb_app, !hex_word_hex.
Qed.

Section IdentityTheorems.

Context {T : Urllib.LibraryTables}.




End IdentityTheorems.


(** *** The table *)


Lemma str_eqb_refl a : str_eqb a a = true.
Proof. now apply str_eqb_eq. Qed.

Lemma existing_In id db :
  Jobs.existing id db = true <-> In id (map Jobs.job_id db).
Proof.
  unfold Jobs.existing. rewrite existsb_exists, in_map_iff. split.
  - intros (r & Hr & He). exists r. split; [|assumption].
    now apply str_eqb_eq in He.
  - intros (r & He & Hr). exists r. split; [assumption|].
    now apply str_eqb_eq.
Qed.

Lemma existing_app id db db' :
  Jobs.existing id (db ++ db') = Jobs.existing id db || Jobs.existing id db'.
Proof. unfold Jobs.existing. apply existsb_app. Qed.

Lemma insert_ok row db db' :
  Jobs.insert row db = Ok db' ->
  db' = db ++ [row] /\ Jobs.existing (Jobs.job_id row) db = false.
Proof.
  unfold Jobs.insert. destruct (Jobs.existing _ db); [discriminate|].
  now intros [= <-].
Qed.

Lemma insert_nodup row db db' :
  NoDup (map Jobs.job_id db) -> Jobs.insert row db = Ok db' ->
  NoDup (map Jobs.job_id db').
Proof.
  intros Hn Hi. apply insert_ok in Hi as [-> Hx].
  rewrite map_app. simpl. apply NoDup_app.
  - exact Hn.
  - constructor; [intros []|constructor].
  - intros a Hin [<-|[]]. apply existing_In in Hin. congruence.
Qed.

Lemma rows_ok_insert row db db' :
  rows_ok db -> Jobs.insert row db = Ok db' -> unscored row -> rows_ok db'.
Proof.
  intros [Hn Hu] Hi Hr. split.
  - now apply (insert_nodup row db).
  - apply insert_ok in Hi as [-> Hx].
    intros r Hin. apply in_app_or in Hin as [Hin|[<-|[]]]; auto.
Qed.

Lemma update_ids cond assign db :
  (forall r, Jobs.job_id (assign r) = Jobs.job_id r) ->
  map Jobs.job_id (Jobs.update cond assign db) = map Jobs.job_id db.
Proof.
  intros H. unfold Jobs.update. rewrite map_map. apply map_ext.
  intros r. now destruct (cond r).
Qed.

Lemma rows_ok_update cond assign db :
  (forall r, Jobs.job_id (assign r) = Jobs.job_id r) ->
  (forall r, In r db -> cond r = true -> unscored (assign r)) ->
  rows_ok db -> rows_ok (Jobs.update cond assign db).
Proof.
  intros Hid Hu [Hn Hr]. split.
  - now rewrite update_ids.
  - intros r Hin. unfold Jobs.update in Hin.
    apply in_map_iff in Hin as (r0 & <- & Hin).
    destruct (cond r0) eqn:E; auto.
Qed.

Lemma bind_str_ok s t : bind_str s = Ok t -> t = s.
Proof. unfold bind_str. destruct (existsb _ s); [discriminate|]. now intros [= <-]. Qed.

Lemma count_id_one id db :
  NoDup (map Jobs.job_id db) -> Jobs.existing id db = true -> count_id id db = 1%nat.
Proof.
  unfold count_id. induction db as [|r db IH]; simpl; [discriminate|].
  intros Hn. apply NoDup_cons_iff in Hn as [Hr Hn].
  destruct (str_eqb (Jobs.job_id r) id) eqn:E; simpl.
  - intros _. apply str_eqb_eq in E. subst id. f_equal.
    destruct (filter _ db) as [|x l] eqn:F; [reflexivity|]. exfalso.
    assert (Hin : In x (filter (fun r0 => str_eqb (Jobs.job_id r0) (Jobs.job_id r)) db))
      by (rewrite F; now left).
    apply filter_In in Hin as [Hin Hx]. apply str_eqb_eq in Hx.
    apply Hr. rewrite <- Hx. now apply in_map.
  - intros Hx. now apply IH.
Qed.

Section PipelineLemmas.

Context {T : Urllib.LibraryTables} {E : External}.

Lemma ai_filter_and_score_returns title company location raw resume w :
  exists v w', ai_filter_and_score title company location raw resume w = (Ok v, w').
Proof.
  unfold ai_filter_and_score.
  destruct (messages_create _ w) as [[text|e] w']; [|now eexists _, _].
  destruct (search_braces text) as [m|]; [|now eexists _, _].
  destruct (json_loads m); now eexists _, _.
Qed.

Lemma scan_row_ok job d score now f notes row :
  scan_row job d score now f notes = Ok row ->
  Jobs.job_id row = job_id job /\ Jobs.is_filtered row = f
  /\ Jobs.score row = SInt 0 /\ Jobs.analysis row = SNull
  /\ Jobs.title row = title job /\ Jobs.company row = company job
  /\ Jobs.location row = location job /\ Jobs.raw_text row = raw_text job.
Proof.
  unfold scan_row.
  repeat match goal with
  | |- (bind ?x _ = Ok _) -> _ =>
      let v := fresh "v" in let Hv := fresh "Hv" in
      destruct x as [v|] eqn:Hv; cbn [bind]; [|discriminate]
  end.
  intros [= <-]. cbn.
  repeat match goal with H : bind_str _ = Ok _ |- _ => apply bind_str_ok in H end.
  subst. repeat split; reflexivity.
Qed.

(** What one turn of the scan loop does when it does not raise: nothing for
    a job that is there already, one more row for a new one. *)
Lemma scan_job_ok job d resume db n f w db' n' f' w' :
  scan_job job d resume (db, n, f) w = (Ok (db', n', f'), w') ->
  (Jobs.existing (job_id job) db = true /\ db' = db /\ n' = n /\ f' = f /\ w' = w)
  \/ (Jobs.existing (job_id job) db = false
      /\ exists row, db' = db ++ [row] /\ Jobs.job_id row = job_id job
                     /\ Jobs.score row = SInt 0 /\ Jobs.analysis row = SNull
                     /\ ((Jobs.is_filtered row = 0%Z /\ n' = S n /\ f' = f)
                         \/ (Jobs.is_filtered row = 1%Z /\ n' = n /\ f' = S f))).
Proof.
  unfold scan_job. destruct (Jobs.existing (job_id job) db) eqn:Ex.
  - intros [= <- <- <- <-]. left. auto.
  - intros H. right. split; [reflexivity|]. revert H.
    destruct (ai_filter_and_score _ _ _ _ resume w) as [[[[keep score] reason]|e] w1];
      [|discriminate].
    destruct (datetime_now w1) as [now w2].
    set (prepared := match d with
                     | Some d0 => if has_description_column then Ok d0
                                  else Raise OperationalError
                     | None => Ok SNull
                     end).
    destruct (truthy keep).
    + destruct prepared as [d0|]; cbn [bind]; [|discriminate].
      destruct (scan_row job d0 score (isoformat now) 0 None) as [row|] eqn:R;
        cbn [bind]; [|discriminate].
      destruct (Jobs.insert row db) as [db1|] eqn:I; cbn [bind]; [|discriminate].
      intros [= <- <- <- <-]. apply insert_ok in I as [-> _].
      apply scan_row_ok in R as (A & B & C & D & _).
      exists row. subst. auto 10.
    + destruct prepared as [d0|]; cbn [bind]; [|discriminate].
      destruct (scan_row job d0 score (isoformat now) 1 (Some reason)) as [row|] eqn:R;
        cbn [bind]; [|discriminate].
      destruct (Jobs.insert row db) as [db1|] eqn:I; cbn [bind]; [|discriminate].
      intros [= <- <- <- <-]. apply insert_ok in I as [-> _].
      apply scan_row_ok in R as (A & B & C & D & _).
      exists row. subst. auto 10.
Qed.

Lemma scan_job_existing job d resume db n f w :
  Jobs.existing (job_id job) db = true ->
  scan_job job d resume (db, n, f) w = (Ok (db, n, f), w).
Proof. intros H. unfold scan_job. now rewrite H. Qed.

Lemma scan_loop_skips jobs resume db n f w :
  (forall j, In j jobs -> Jobs.existing (job_id (fst j)) db = true) ->
  scan_loop jobs resume (db, n, f) w = (Ok (db, n, f), w).
Proof.
  induction jobs as [|[job d] jobs IH]; intros H; [reflexivity|].
  cbn [scan_loop]. rewrite scan_job_existing by (apply (H (job, d)); now left).
  apply IH. intros j Hj. apply H. now right.
Qed.

Lemma scan_loop_ok jobs resume : forall db n f w db' n' f' w',
  scan_loop jobs resume (db, n, f) w = (Ok (db', n', f'), w') ->
  (forall id, Jobs.existing id db = true -> Jobs.existing id db' = true)
  /\ (forall j, In j jobs -> Jobs.existing (job_id (fst j)) db' = true)
  /\ (NoDup (map Jobs.job_id db) -> NoDup (map Jobs.job_id db'))
  /\ (rows_ok db -> rows_ok db').
Proof.
  induction jobs as [|[job d] jobs IH]; intros db n f w db' n' f' w' H.
  - cbn [scan_loop] in H. injection H as <- <- <- <-.
    split; [|split; [|split]]; auto; intros j [].
  - cbn [scan_loop] in H.
    destruct (scan_job job d resume (db, n, f) w) as [[[[db1 n1] f1]|e] w1] eqn:J;
      [|discriminate].
    destruct (IH _ _ _ _ _ _ _ _ H) as (A & B & C & D).
    apply scan_job_ok in J as [(Ex & -> & _)|(Ex & row & -> & Hid & Hs & Ha & _)].
    + split; [|split; [|split]]; auto. intros j [<-|Hj]; auto.
    + assert (Hi : Jobs.insert row db = Ok (db ++ [row])).
      { unfold Jobs.insert. now rewrite Hid, Ex. }
      split; [|split; [|split]].
      * intros id Hid'. apply A. rewrite existing_app, Hid'. reflexivity.
      * intros j [<-|Hj]; [|now apply B]. apply A.
        rewrite existing_app. apply orb_true_iff. right.
        cbn. now rewrite Hid, str_eqb_refl.
      * intros Hnd. apply C. now apply (insert_nodup row db).
      * intros Hok. apply D. apply (rows_ok_insert (row := row) Hok Hi).
        intros _. auto.
Qed.

End PipelineLemmas.


Section PipelineTheorems.

Context {T : Urllib.LibraryTables} {E : External}.

(** C3. When the generative-text call raises, or its response holds no
    payload that [json.loads] accepts, [ai_filter_and_score] returns
    [(True, 30, "filter error - kept by default")] and raises nothing. *)
Theorem ai_filter_and_score_fallback title company location raw resume w :
  no_payload
    (fst (messages_create
            (FilterPrompt resume title company location (upto 500 raw)) w)) ->
  ai_filter_and_score title company location raw resume w
  = (Ok (JBool true, JInt 30, JStr (str "filter error - kept by default")),
     snd (messages_create
            (FilterPrompt resume title company location (upto 500 raw)) w)).
Proof.
  unfold ai_filter_and_score, no_payload.
  destruct (messages_create _ w) as [[text|e] w']; cbn [fst snd];
    [|reflexivity].
  destruct (search_braces text) as [m|]; [|reflexivity].
  now intros [e ->].
Qed.

(** C8, as amended. When [load_resumes] returns the empty string, the feed
    scan answers with the error reply 400; the email scan does so when
    [scan_emails] returns, and lets the exception through when
    [scan_emails] raises, which it does before the resumes are looked at.
    In every case the table is left as it was, and no candidate is scored
    or stored. *)
Theorem scan_without_resumes db w :
  load_resumes (snd (scan_emails w)) = [] ->
  load_resumes (snd (fetch_wwr_jobs 7 w)) = [] ->
  api_scan_wwr db w
  = (db, Ok (ErrorReply 400 (str "No resumes found")),
     snd (fetch_wwr_jobs 7 w))
  /\ api_scan db w
     = (db,
        match fst (scan_emails w) with
        | Ok _ =>
            Ok (ErrorReply 400
                  (str "No resumes found. Add .txt/.md files to resumes/ folder"))
        | Raise e => Raise e
        end,
        snd (scan_emails w)).
Proof.
  intros H1 H2. unfold api_scan, api_scan_wwr, ingest. split.
  - destruct (fetch_wwr_jobs 7 w) as [fj w2]. cbn [snd] in *. now rewrite H2.
  - destruct (scan_emails w) as [[jobs|e] w1]; cbn [fst snd] in *;
      [|reflexivity].
    now rewrite H1.
Qed.

(** C4. After a scan that completed, a second scan that finds the same
    candidates leaves the table unchanged and reports no new and no
    filtered job; every candidate has exactly one row; a candidate whose
    [job_id] is in the table is passed over without any write. *)
Theorem api_scan_twice db w w1 jobs db1 found new filtered w2 w' w1' :
  NoDup (map Jobs.job_id db) ->
  scan_emails w = (Ok jobs, w1) ->
  api_scan db w = (db1, Ok (ScanReply found new filtered), w2) ->
  scan_emails w' = (Ok jobs, w1') ->
  falsy (load_resumes w1') = false ->
  api_scan db1 w' = (db1, Ok (ScanReply (List.length jobs) 0 0), w1')
  /\ (forall j, In j jobs -> count_id (job_id j) db1 = 1%nat)
  /\ (forall job description resume n f wx,
        Jobs.existing (job_id job) db1 = true ->
        scan_job job description resume (db1, n, f) wx = (Ok (db1, n, f), wx)).
Proof.
  intros Hn Hs1 Hrun Hs2 Hres.
  unfold api_scan in Hrun. rewrite Hs1 in Hrun. unfold ingest in Hrun.
  destruct (falsy (load_resumes w1)); [discriminate Hrun|].
  match type of Hrun with
  | context [scan_loop ?a ?b ?c ?d] =>
      destruct (scan_loop a b c d) as [[[[dbx nx] fx]|e] wx] eqn:L
  end; [|discriminate Hrun].
  injection Hrun as <- _ <- <- <-.
  destruct (scan_loop_ok _ _ _ _ _ _ L) as (A & B & C & _).
  assert (Hex : forall j, In j jobs -> Jobs.existing (job_id j) dbx = true).
  { intros j Hj. apply (B (j, None)). apply in_map_iff. now exists j. }
  split; [|split].
  - unfold api_scan. rewrite Hs2. unfold ingest. rewrite Hres.
    rewrite scan_loop_skips.
    + now rewrite length_map.
    + intros [j d] Hj. apply in_map_iff in Hj as (j0 & [= <- <-] & Hj).
      now apply Hex.
  - intros j Hj. apply count_id_one; [now apply C|now apply Hex].
  - intros. now apply scan_job_existing.
Qed.

End PipelineTheorems.


Section Invariant.

Context {T : Urllib.LibraryTables} {E : External}.

Lemma ingest_rows_ok jobs msg db w :
  rows_ok db -> rows_ok (fst (fst (ingest jobs msg db w))).
Proof.
  intros H. unfold ingest. destruct (falsy (load_resumes w)); [exact H|].
  destruct (scan_loop jobs (load_resumes w) (db, 0%nat, 0%nat) w)
    as [[[[db' n] f]|e] w'] eqn:L; cbn [fst]; [|exact H].
  now apply (scan_loop_ok _ _ _ _ _ _ L).
Qed.

Lemma api_scan_rows_ok db w : rows_ok db -> rows_ok (fst (fst (api_scan db w))).
Proof.
  intros H. unfold api_scan. destruct (scan_emails w) as [[jobs|e] w1];
    [|exact H].
  now apply ingest_rows_ok.
Qed.

Lemma api_scan_wwr_rows_ok db w :
  rows_ok db -> rows_ok (fst (fst (api_scan_wwr db w))).
Proof.
  intros H. unfold api_scan_wwr. destruct (fetch_wwr_jobs 7 w) as [jobs w1].
  now apply ingest_rows_ok.
Qed.

(** The rows that an update of [api_analyze] reaches passed the filter. *)
Lemma unfiltered_by_id db job r :
  NoDup (map Jobs.job_id db) -> In job db -> Jobs.is_filtered job = 0%Z ->
  In r db -> Jobs.job_id r = Jobs.job_id job -> Jobs.is_filtered r = 0%Z.
Proof.
  intros Hn Hj Hf Hr Hid.
  induction db as [|x db IH]; [destruct Hj|].
  simpl in Hn. apply NoDup_cons_iff in Hn as [Hx Hn].
  destruct Hj as [->|Hj], Hr as [->|Hr]; auto.
  - exfalso. apply Hx. rewrite <- Hid. now apply in_map.
  - exfalso. apply Hx. rewrite Hid. now apply in_map.
Qed.


Lemma update_keys cond assign db :
  (forall r, Jobs.job_id (assign r) = Jobs.job_id r
             /\ Jobs.is_filtered (assign r) = Jobs.is_filtered r) ->
  keys (Jobs.update cond assign db) = keys db.
Proof.
  intros H. unfold keys, Jobs.update. rewrite map_map. apply map_ext.
  intros r. destruct (cond r); [|reflexivity]. now destruct (H r) as [-> ->].
Qed.

Lemma keys_unfiltered db id :
  NoDup (map Jobs.job_id db) -> In (id, 0%Z) (keys db) ->
  forall r, In r db -> Jobs.job_id r = id -> Jobs.is_filtered r = 0%Z.
Proof.
  intros Hn Hk r Hr Hid. unfold keys in Hk.
  apply in_map_iff in Hk as (job & [= Hj Hf] & Hin).
  eapply unfiltered_by_id; [exact Hn|exact Hin|exact Hf|exact Hr|congruence].
Qed.

Lemma analyze_row_ok job resume db w db' w' :
  analyze_row job resume db w = (Ok db', w') ->
  In (Jobs.job_id job, 0%Z) (keys db) ->
  rows_ok db -> rows_ok db' /\ keys db' = keys db.
Proof.
  unfold analyze_row.
  destruct (analyze_job _ _ _ _ resume w) as [analysis w1].
  destruct (datetime_now w1) as [now w2].
  destruct (bind_integer _) as [score|]; cbn [bind]; [|discriminate].
  destruct (bind_str _) as [text|]; cbn [bind]; [|discriminate].
  intros [= <- <-] Hk Hok. split.
  - apply rows_ok_update; [reflexivity| |assumption].
    intros r Hin Hc Hf. exfalso. apply Hf. cbn.
    apply str_eqb_eq in Hc.
    eapply keys_unfiltered; [exact (proj1 Hok)|exact Hk|exact Hin|exact Hc].
  - apply update_keys. now intros r.
Qed.

Lemma analyze_loop_ok jobs resume : forall db w,
  (forall job, In job jobs -> In (Jobs.job_id job, 0%Z) (keys db)) ->
  rows_ok db -> rows_ok (fst (fst (analyze_loop jobs resume db w))).
Proof.
  induction jobs as [|job jobs IH]; intros db w Hk Hok; [exact Hok|].
  cbn [analyze_loop].
  destruct (analyze_row job resume db w) as [[db'|e] w'] eqn:A; [|exact Hok].
  assert (X : rows_ok db' /\ keys db' = keys db)
    by (eapply analyze_row_ok; [exact A|apply Hk; now left|exact Hok]).
  destruct X as [Hok' Hk'].
  apply IH; [|assumption]. intros j Hj. rewrite Hk'. apply Hk. now right.
Qed.

Lemma api_analyze_rows_ok db w :
  rows_ok db -> rows_ok (fst (fst (api_analyze db w))).
Proof.
  intros H. unfold api_analyze. destruct (falsy (load_resumes w)); [exact H|].
  pose proof (@analyze_loop_ok (filter to_analyze db) (load_resumes w) db w) as L.
  destruct (analyze_loop (filter to_analyze db) (load_resumes w) db w)
    as [[db' e] w'].
  cbn [fst] in L.
  assert (R : rows_ok db').
  { apply L; [|assumption]. intros job Hj. apply filter_In in Hj as [Hin Hf].
    unfold to_analyze in Hf. apply andb_true_iff in Hf as [Hf _].
    apply Z.eqb_eq in Hf. unfold keys. apply in_map_iff. exists job.
    now rewrite Hf. }
  now destruct e.
Qed.

Lemma update_job_rows_ok id status db w :
  rows_ok db -> rows_ok (fst (fst (update_job id status db w))).
Proof.
  intros H. unfold update_job. destruct (datetime_now w) as [now w1].
  destruct (bind_text status) as [v|]; [|exact H]. cbn [fst].
  apply rows_ok_update; [reflexivity| |assumption].
  intros x Hin _. exact (proj2 H x Hin).
Qed.

Lemma api_cover_letter_rows_ok id db w :
  rows_ok db -> rows_ok (fst (fst (api_cover_letter id db w))).
Proof.
  intros H. unfold api_cover_letter.
  destruct (Jobs.fetchone id db) as [found|]; [|exact H].
  destruct (cover_letter_text id (load_resumes w) w) as [[letter|e] w1];
    [|exact H].
  destruct (datetime_now w1) as [now w2].
  destruct (bind_str letter) as [bound|]; [|exact H]. cbn [fst].
  apply rows_ok_update; [reflexivity| |assumption].
  intros x Hin _. exact (proj2 H x Hin).
Qed.

Lemma api_capture_rows_ok c db w :
  rows_ok db -> rows_ok (fst (fst (api_capture c db w))).
Proof.
  intros H. unfold api_capture.
  destruct (clean_job_url (capture_url c)) as [url|]; [|exact H].
  destruct (_ || _); [exact H|].
  destruct (generate_job_id url _ _) as [id|]; [|exact H].
  destruct (Jobs.existing id db).
  - destruct (datetime_now w) as [now w1].
    destruct (capture_update id _ _ db) as [db'|] eqn:U; [|exact H].
    cbn [fst]. unfold capture_update in U.
    destruct (negb has_description_column); [discriminate U|].
    unfold bind in U.
    repeat match type of U with
    | match ?x with Ok _ => _ | Raise _ => _ end = Ok _ =>
        let v := fresh "v" in destruct x as [v|]; [|discriminate U]
    end.
    injection U as <-.
    apply rows_ok_update; [reflexivity| |assumption].
    intros x Hin _. exact (proj2 H x Hin).
  - match goal with
    | |- context [let (scored, w0) := ?s in _] => destruct s as [[score|] w1]
    end; [|exact H].
    destruct (datetime_now w1) as [now1 w2].
    destruct (datetime_now w2) as [now2 w3].
    destruct (capture_insert _ _ _ _ _ _ _ db) as [db'|] eqn:I; [|exact H].
    cbn [fst]. unfold capture_insert in I.
    destruct (negb has_description_column); [discriminate I|].
    unfold bind in I.
    repeat match type of I with
    | match ?x with Ok _ => _ | Raise _ => _ end = Ok _ =>
        let v := fresh "v" in destruct x as [v|]; [|discriminate I]
    end.
    apply (rows_ok_insert H I). intros Hf. now contradiction Hf.
Qed.

Lemma handle_rows_ok r db w : rows_ok db -> rows_ok (fst (fst (handle r db w))).
Proof.
  destruct r; cbn [handle].
  - apply api_scan_rows_ok.
  - apply api_scan_wwr_rows_ok.
  - apply api_analyze_rows_ok.
  - apply update_job_rows_ok.
  - apply api_cover_letter_rows_ok.
  - apply api_capture_rows_ok.
Qed.

Lemma reachable_rows_ok db : reachable db -> rows_ok db.
Proof.
  induction 1 as [|db r w _ IH].
  - split; [constructor|intros r []].
  - now apply handle_rows_ok.
Qed.

(** C9. In every table that the requests can reach from the empty one, a
    row with [is_filtered] set has the default score 0 and no analysis. *)
Theorem filtered_rows_have_no_score db r :
  reachable db -> In r db -> Jobs.is_filtered r <> 0%Z ->
  Jobs.score r = SInt 0 /\ Jobs.analysis r = SNull.
Proof.
  intros Hr Hin Hf. exact (proj2 (reachable_rows_ok Hr) r Hin Hf).
Qed.

End Invariant.



(** C2, at the failing input. For a baseline score of 100 and a posting of
    30 days ago the code returns 70.03, where the specified formula gives
    70.0; at 0 and at 31 days it returns 100.0 and 70.0. *)
Theorem calculate_weighted_score_at_30_days :
  Ranking.calculate_weighted_score 100 (Some 30%Z) = 70.03%float
  /\ Ranking.weighted_score_as_specified 100 30 = 70%float
  /\ Ranking.calculate_weighted_score 100 (Some 0%Z) = 100%float
  /\ Ranking.calculate_weighted_score 100 (Some 31%Z) = 70%float.
Proof. repeat split; vm_compute; reflexivity. Qed.


(** ** Further properties *)


Section RouteFacts.

Context {T : Urllib.LibraryTables} {E : External}.

Lemma scan_loop_appends jobs resume : forall db n f w db' n' f' w',
  scan_loop jobs resume (db, n, f) w = (Ok (db', n', f'), w') ->
  exists added,
    db' = db ++ added
    /\ (n' = n + List.length (filter (fun r => (Jobs.is_filtered r =? 0)%Z) added))%nat
    /\ (f' = f + List.length (filter (fun r => (Jobs.is_filtered r =? 1)%Z) added))%nat
    /\ (List.length added = (n' - n) + (f' - f))%nat
    /\ (List.length added <= List.length jobs)%nat
    /\ Forall (fun r => In (Jobs.job_id r) (map (fun j => job_id (fst j)) jobs)
                        /\ Jobs.score r = SInt 0 /\ Jobs.analysis r = SNull) added.
Proof.
  induction jobs as [|[job d] jobs IH]; intros db n f w db' n' f' w' H.
  - cbn [scan_loop] in H. injection H as <- <- <- <-. exists [].
    rewrite app_nil_r. cbn. repeat split; try lia. constructor.
  - cbn [scan_loop] in H.
    destruct (scan_job job d resume (db, n, f) w) as [[[[db1 n1] f1]|e] w1] eqn:J;
      [|discriminate].
    destruct (IH _ _ _ _ _ _ _ _ H) as (added & -> & Hn & Hf & Hl & Hle & Hall).
    assert (Hall' : Forall (fun r => In (Jobs.job_id r)
                                        (map (fun j => job_id (fst j)) ((job, d) :: jobs))
                                     /\ Jobs.score r = SInt 0
                                     /\ Jobs.analysis r = SNull) added).
    { eapply Forall_impl; [|exact Hall]. cbn. intros r (A & B & C). auto. }
    apply scan_job_ok in J
      as [(Ex & -> & -> & -> & _)|(Ex & row & -> & Hid & Hs & Ha & Hc)].
    + exists added. cbn [List.length]. repeat split; auto; lia.
    + exists (row :: added). rewrite <- app_assoc. cbn [app List.length filter].
      destruct Hc as [(Hz & -> & ->)|(Hz & -> & ->)]; rewrite Hz; cbn;
        (split; [reflexivity|]); (split; [lia|]); (split; [lia|]);
        (split; [lia|]); (split; [lia|]); constructor; auto.
Qed.


Lemma ingest_appends jobs msg db w db' found new filtered w' :
  ingest jobs msg db w = (db', Ok (ScanReply found new filtered), w') ->
  exists added,
    db' = db ++ added
    /\ List.length (filter (fun r => (Jobs.is_filtered r =? 0)%Z) added) = new
    /\ List.length (filter (fun r => (Jobs.is_filtered r =? 1)%Z) added) = filtered
    /\ List.length added = (new + filtered)%nat
    /\ found = List.length jobs /\ (new + filtered <= found)%nat
    /\ Forall (fun r => Jobs.score r = SInt 0 /\ Jobs.analysis r = SNull) added.
Proof.
  unfold ingest. destruct (falsy (load_resumes w)); [discriminate|].
  destruct (scan_loop jobs (load_resumes w) (db, 0%nat, 0%nat) w)
    as [[[[db1 n1] f1]|e] w1] eqn:L; [|discriminate].
  intros [= <- <- <- <- <-].
  destruct (scan_loop_appends _ _ _ _ _ _ L) as (added & -> & Hn & Hf & Hl & Hle & Hall).
  exists added. cbn in Hn, Hf. repeat split; try lia.
  eapply Forall_impl; [|exact Hall]. cbn. intros r (_ & B & C). auto.
Qed.

Lemma update_none (cond : Jobs.Row -> bool) assign db :
  (forall r, In r db -> cond r = false) -> Jobs.update cond assign db = db.
Proof.
  intros H. unfold Jobs.update. rewrite <- (map_id db) at 2.
  apply map_ext_in. intros r Hr. now rewrite (H r Hr).
Qed.

Lemma existing_false id db :
  Jobs.existing id db = false ->
  forall r, In r db -> str_eqb (Jobs.job_id r) id = false.
Proof.
  unfold Jobs.existing. intros H r Hr.
  destruct (str_eqb (Jobs.job_id r) id) eqn:Eq; [|reflexivity].
  rewrite <- H. symmetry. apply existsb_exists. now exists r.
Qed.

Lemma fetchone_none id db : Jobs.existing id db = false -> Jobs.fetchone id db = None.
Proof.
  intros H. unfold Jobs.fetchone.
  destruct (find _ db) as [r|] eqn:F; [|reflexivity].
  apply find_some in F as [Hin Heq].
  now rewrite (existing_false _ _ H r Hin) in Heq.
Qed.

End RouteFacts.


Section RouteTheorems.

Context {T : Urllib.LibraryTables} {E : External}.

(** X3. A scan that completes only appends: the rows that were there are
    kept as they were and in place, the rows added with [is_filtered = 0]
    are as many as the reply's [new], those with [is_filtered = 1] as many
    as its [filtered], and no more rows are added than jobs were found. *)
Theorem scan_appends db w db' found new filtered w' :
  api_scan db w = (db', Ok (ScanReply found new filtered), w')
  \/ api_scan_wwr db w = (db', Ok (ScanReply found new filtered), w') ->
  exists added,
    db' = db ++ added
    /\ List.length (filter (fun r => (Jobs.is_filtered r =? 0)%Z) added) = new
    /\ List.length (filter (fun r => (Jobs.is_filtered r =? 1)%Z) added) = filtered
    /\ List.length added = (new + filtered)%nat
    /\ (new + filtered <= found)%nat.
Proof.
  intros [H|H].
  - unfold api_scan in H. destruct (scan_emails w) as [[jobs|e] w1]; [|discriminate].
    destruct (ingest_appends _ _ _ _ H) as (added & A & B & C & D & _ & F & _).
    exists added. auto.
  - unfold api_scan_wwr in H. destruct (fetch_wwr_jobs 7 w) as [jobs w1].
    destruct (ingest_appends _ _ _ _ H) as (added & A & B & C & D & _ & F & _).
    exists added. auto.
Qed.

Lemma ingest_refused jobs msg db w :
  refused (snd (fst (ingest jobs msg db w))) = true ->
  fst (fst (ingest jobs msg db w)) = db.
Proof.
  unfold ingest. destruct (falsy (load_resumes w)); [reflexivity|].
  destruct (scan_loop jobs (load_resumes w) (db, 0%nat, 0%nat) w)
    as [[[[db1 n1] f1]|e] w1]; cbn; [discriminate|reflexivity].
Qed.

Lemma api_capture_refused c db w :
  refused (snd (fst (api_capture c db w))) = true ->
  fst (fst (api_capture c db w)) = db.
Proof.
  unfold api_capture.
  destruct (clean_job_url (capture_url c)) as [url|]; [|reflexivity].
  destruct (_ || _); [reflexivity|].
  destruct (generate_job_id url _ _) as [id|]; [|reflexivity].
  destruct (Jobs.existing id db).
  - destruct (datetime_now w) as [now w1].
    destruct (capture_update id _ _ db) as [db'|]; cbn; [discriminate|reflexivity].
  - match goal with
    | |- context [let (scored, w0) := ?s in _] => destruct s as [[score|] w1]
    end; [|reflexivity].
    destruct (datetime_now w1) as [now1 w2].
    destruct (datetime_now w2) as [now2 w3].
    destruct (capture_insert _ _ _ _ _ _ _ db) as [db'|]; cbn;
      [discriminate|reflexivity].
Qed.

(** X4. A request that ends in an exception or in an error reply leaves the
    table as it was, for every route but [/api/analyze], which commits row
    by row. *)
Theorem refused_request_keeps_table r db w :
  r <> Analyze ->
  refused (snd (fst (handle r db w))) = true ->
  fst (fst (handle r db w)) = db.
Proof.
  intros Hr. destruct r as [| | |id status|id|c]; cbn [handle];
    try (now contradiction Hr).
  - unfold api_scan. destruct (scan_emails w) as [[jobs|e] w1]; [|reflexivity].
    apply ingest_refused.
  - unfold api_scan_wwr. destruct (fetch_wwr_jobs 7 w) as [jobs w1].
    apply ingest_refused.
  - unfold update_job. destruct (datetime_now w) as [now w1].
    destruct (bind_text status); cbn; [discriminate|reflexivity].
  - unfold api_cover_letter. destruct (Jobs.fetchone id db); [|reflexivity].
    destruct (cover_letter_text _ _ w) as [[letter|e] w1]; [|reflexivity].
    destruct (datetime_now w1) as [now w2].
    destruct (bind_str letter); cbn; [discriminate|reflexivity].
  - apply api_capture_refused.
Qed.

(** X5. [PATCH /api/jobs/<job_id>] for an id that no row has changes
    nothing; it still answers with success when the status of the body is
    a value that [sqlite3] binds, and ends in the exception of the binding
    otherwise. *)
Theorem update_job_unknown_id id status db w :
  Jobs.existing id db = false ->
  update_job id status db w
  = (db,
     match bind_param status with
     | Ok _ => Ok SuccessReply
     | Raise e => Raise e
     end,
     snd (datetime_now w)).
Proof.
  intros Hx. unfold update_job, bind_text.
  destruct (datetime_now w) as [now w1].
  cbn [snd]. destruct (bind_param status) as [v|e]; cbn [bind]; [|reflexivity].
  rewrite update_none; [reflexivity|]. now apply existing_false.
Qed.

(** X6. The cover-letter route for an id that no row has raises TypeError
    before the generative-text service is called, and writes nothing. *)
Theorem api_cover_letter_unknown_id id db w :
  Jobs.existing id db = false ->
  api_cover_letter id db w = (db, Raise TypeError, w).
Proof.
  intros Hx. unfold api_cover_letter. now rewrite (fetchone_none _ _ Hx).
Qed.

End RouteTheorems.

Section ColumnTheorems.

Context {T : Urllib.LibraryTables} {E : External}.

Lemma scan_loop_no_column jobs resume : forall db n f w,
  has_description_column = false ->
  (forall j, In j jobs -> snd j <> None) ->
  forall db' n' f' w',
  scan_loop jobs resume (db, n, f) w = (Ok (db', n', f'), w') ->
  db' = db /\ n' = n /\ f' = f.
Proof.
  induction jobs as [|[job d] jobs IH]; intros db n f w Hc Hd db' n' f' w' H.
  - cbn [scan_loop] in H. now injection H as <- <- <- <-.
  - cbn [scan_loop] in H.
    destruct (scan_job job d resume (db, n, f) w) as [[[[db1 n1] f1]|e] w1] eqn:J;
      [|discriminate].
    assert (X : db1 = db /\ n1 = n /\ f1 = f).
    { unfold scan_job in J. destruct (Jobs.existing (job_id job) db).
      - now injection J as <- <- <- <-.
      - destruct (ai_filter_and_score _ _ _ _ resume w)
          as [[[[keep score] reason]|e] w2]; [|discriminate].
        destruct (datetime_now w2) as [now w3].
        destruct d as [d|]; [|now contradiction (Hd (job, None) (or_introl eq_refl))].
        rewrite Hc in J. destruct (truthy keep); cbn [bind] in J; discriminate. }
    destruct X as (-> & -> & ->).
    eapply IH; [exact Hc| |exact H]. intros j Hj. apply Hd. now right.
Qed.

(** X7. On a [jobs] table without the [description] column, which is the
    table that [init_db] creates, the feed scan never changes the table and
    a capture is always refused and stores nothing. *)
Theorem missing_description_column_blocks_writes :
  has_description_column = false ->
  (forall db w, fst (fst (api_scan_wwr db w)) = db)
  /\ (forall c db w,
        fst (fst (api_capture c db w)) = db
        /\ refused (snd (fst (api_capture c db w))) = true).
Proof.
  intros Hc. split.
  - intros db w. unfold api_scan_wwr. destruct (fetch_wwr_jobs 7 w) as [jobs w1].
    unfold ingest. destruct (falsy (load_resumes w1)); [reflexivity|].
    destruct (scan_loop _ (load_resumes w1) (db, 0%nat, 0%nat) w1)
      as [[[[db1 n1] f1]|e] w2] eqn:L; [|reflexivity].
    cbn [fst]. eapply scan_loop_no_column in L as (-> & _); [reflexivity|exact Hc|].
    intros j Hj. apply in_map_iff in Hj as (x & <- & _). discriminate.
  - intros c db w.
    assert (R : refused (snd (fst (api_capture c db w))) = true).
    { unfold api_capture.
      destruct (clean_job_url (capture_url c)) as [url|]; [|reflexivity].
      destruct (_ || _); [reflexivity|].
      destruct (generate_job_id url _ _) as [id|]; [|reflexivity].
      destruct (Jobs.existing id db).
      - destruct (datetime_now w) as [now w1].
        unfold capture_update. rewrite Hc. reflexivity.
      - match goal with
        | |- context [let (scored, w0) := ?s in _] => destruct s as [[score|] w1]
        end; [|reflexivity].
        destruct (datetime_now w1) as [now1 w2].
        destruct (datetime_now w2) as [now2 w3].
        unfold capture_insert. rewrite Hc. reflexivity. }
    split; [|exact R]. now apply api_capture_refused.
Qed.

End ColumnTheorems.

Section FrameTheorems.

Context {T : Urllib.LibraryTables} {E : External}.

Lemma update_keeps (cond : Jobs.Row -> bool) assign db r :
  In r db -> cond r = false -> In r (Jobs.update cond assign db).
Proof.
  intros Hin Hc. unfold Jobs.update. apply in_map_iff. exists r.
  now rewrite Hc.
Qed.

Lemma analyze_row_keeps job resume db w db' w' r :
  analyze_row job resume db w = (Ok db', w') ->
  In r db -> Jobs.job_id r <> Jobs.job_id job ->
  In r db' /\ map Jobs.job_id db' = map Jobs.job_id db.
Proof.
  unfold analyze_row.
  destruct (analyze_job _ _ _ _ resume w) as [analysis w1].
  destruct (datetime_now w1) as [now w2].
  destruct (bind_integer _) as [score|]; cbn [bind]; [|discriminate].
  destruct (bind_str _) as [text|]; cbn [bind]; [|discriminate].
  intros [= <- <-] Hin Hne. split.
  - apply update_keeps; [assumption|].
    destruct (str_eqb _ _) eqn:Eq; [|reflexivity].
    apply str_eqb_eq in Eq. contradiction.
  - now apply update_ids.
Qed.

Lemma analyze_row_ids job resume db w db' w' :
  analyze_row job resume db w = (Ok db', w') ->
  map Jobs.job_id db' = map Jobs.job_id db.
Proof.
  unfold analyze_row.
  destruct (analyze_job _ _ _ _ resume w) as [analysis w1].
  destruct (datetime_now w1) as [now w2].
  destruct (bind_integer _) as [score|]; cbn [bind]; [|discriminate].
  destruct (bind_str _) as [text|]; cbn [bind]; [|discriminate].
  intros [= <- <-]. now apply update_ids.
Qed.

Lemma analyze_loop_keeps jobs resume r : forall db w,
  In r db -> (forall job, In job jobs -> Jobs.job_id r <> Jobs.job_id job) ->
  In r (fst (fst (analyze_loop jobs resume db w)))
  /\ map Jobs.job_id (fst (fst (analyze_loop jobs resume db w)))
     = map Jobs.job_id db.
Proof.
  induction jobs as [|job jobs IH]; intros db w Hin Hne; [now split|].
  cbn [analyze_loop].
  destruct (analyze_row job resume db w) as [[db'|e] w'] eqn:A; [|now split].
  destruct (@analyze_row_keeps job resume db w db' w' r A Hin
              (Hne job (or_introl eq_refl)))
    as [Hin' Hids].
  destruct (IH db' w' Hin' (fun j Hj => Hne j (or_intror Hj))) as [X Y].
  split; [exact X|]. now rewrite Y.
Qed.

Lemma nodup_same_id db a b :
  NoDup (map Jobs.job_id db) -> In a db -> In b db ->
  Jobs.job_id a = Jobs.job_id b -> a = b.
Proof.
  induction db as [|x db IH]; intros Hn Ha Hb Hid; [destruct Ha|].
  simpl in Hn. apply NoDup_cons_iff in Hn as [Hx Hn].
  destruct Ha as [->|Ha], Hb as [->|Hb]; auto.
  - exfalso. apply Hx. rewrite Hid. now apply in_map.
  - exfalso. apply Hx. rewrite <- Hid. now apply in_map.
Qed.

(** X8. The analysis pass leaves every row that it does not select (a
    filtered row, or a row that has a score) exactly as it was, and neither
    adds nor removes a row. *)
Theorem api_analyze_frame db w r :
  NoDup (map Jobs.job_id db) -> In r db -> to_analyze r = false ->
  In r (fst (fst (api_analyze db w)))
  /\ map Jobs.job_id (fst (fst (api_analyze db w))) = map Jobs.job_id db.
Proof.
  intros Hn Hin Hsel. unfold api_analyze.
  destruct (falsy (load_resumes w)); [now split|].
  assert (Hne : forall job, In job (filter to_analyze db) ->
                            Jobs.job_id r <> Jobs.job_id job).
  { intros job Hj Hid. apply filter_In in Hj as [Hj Hs].
    rewrite (@nodup_same_id db r job Hn Hin Hj Hid) in Hsel. congruence. }
  pose proof (@analyze_loop_keeps (filter to_analyze db) (load_resumes w) r db w
                Hin Hne) as L.
  destruct (analyze_loop (filter to_analyze db) (load_resumes w) db w)
    as [[db' e] w'].
  cbn [fst] in L. now destruct e.
Qed.

End FrameTheorems.

Section CaptureTheorems.

Context {T : Urllib.LibraryTables} {E : External}.

Lemma upto_length n s : (List.length (upto n s) <= N.to_nat n)%nat.
Proof. unfold upto. rewrite length_firstn. lia. Qed.

Lemma capture_insert_ok id url source c score now1 now2 db db' :
  capture_insert id url source c score now1 now2 db = Ok db' ->
  exists row,
    db' = db ++ [row]
    /\ Jobs.job_id row = id /\ Jobs.is_filtered row = 0%Z
    /\ Jobs.url row = url /\ Jobs.source row = source
    /\ Jobs.title row = upto 200 (capture_title c)
    /\ Jobs.company row = upto 100 (capture_company c)
    /\ Jobs.location row = upto 100 (capture_location c)
    /\ Jobs.raw_text row = upto 2000 (capture_description c)
    /\ Jobs.description row = SText (upto 5000 (capture_description c))
    /\ Jobs.score row = SInt 0 /\ Jobs.status row = SText (str "new").
Proof.
  unfold capture_insert. intros I.
  destruct (negb has_description_column); [discriminate I|].
  unfold bind in I.
  repeat match type of I with
  | match ?x with Ok _ => _ | Raise _ => _ end = Ok _ =>
      let v := fresh "v" in let Hv := fresh "Hv" in
      destruct x as [v|] eqn:Hv; [|discriminate I]
  end.
  apply insert_ok in I as [-> _].
  repeat match goal with H : bind_str _ = Ok _ |- _ => apply bind_str_ok in H end.
  subst. eexists. split; [reflexivity|]. cbn. repeat split; reflexivity.
Qed.

(** X9. A capture answered with [created] appended exactly one row for an
    id that was new; the row is never marked filtered, whatever the
    baseline filter said, and its fields are cut at 200, 100, 100, 2000 and
    5000 characters. *)
Theorem api_capture_created c db w db' id score w' :
  api_capture c db w = (db', Ok (CaptureReply (str "created") id score), w') ->
  Jobs.existing id db = false
  /\ exists row,
       db' = db ++ [row]
       /\ Jobs.job_id row = id /\ Jobs.is_filtered row = 0%Z
       /\ Jobs.score row = SInt 0
       /\ Jobs.title row = upto 200 (capture_title c)
       /\ Jobs.company row = upto 100 (capture_company c)
       /\ Jobs.location row = upto 100 (capture_location c)
       /\ Jobs.raw_text row = upto 2000 (capture_description c)
       /\ Jobs.description row = SText (upto 5000 (capture_description c)).
Proof.
  unfold api_capture.
  destruct (clean_job_url (capture_url c)) as [url|]; [|discriminate].
  destruct (_ || _); [discriminate|].
  destruct (generate_job_id url _ _) as [id0|]; [|discriminate].
  destruct (Jobs.existing id0 db) eqn:Ex.
  - destruct (datetime_now w) as [now w1].
    destruct (capture_update id0 _ _ db) as [db1|]; discriminate.
  - match goal with
    | |- context [let (scored, w0) := ?s in _] => destruct s as [[sc|] w1]
    end; [|discriminate].
    destruct (datetime_now w1) as [now1 w2].
    destruct (datetime_now w2) as [now2 w3].
    destruct (capture_insert _ _ _ _ _ _ _ db) as [db1|] eqn:I; [|discriminate].
    intros [= <- <- <- <-]. split; [exact Ex|].
    apply capture_insert_ok in I
      as (row & -> & A & B & _ & _ & C & D & F & G & H & S & _).
    exists row. auto 12.
Qed.

(** X10. A capture never overwrites a description that is stored: a row
    whose [description] is neither NULL nor empty is left as it was. *)
Theorem api_capture_keeps_description c db w r :
  In r db -> description_blank (Jobs.description r) = false ->
  In r (fst (fst (api_capture c db w))).
Proof.
  intros Hin Hd. unfold api_capture.
  destruct (clean_job_url (capture_url c)) as [url|]; [|exact Hin].
  destruct (_ || _); [exact Hin|].
  destruct (generate_job_id url _ _) as [id|]; [|exact Hin].
  destruct (Jobs.existing id db).
  - destruct (datetime_now w) as [now w1].
    destruct (capture_update id _ _ db) as [db'|] eqn:U; [|exact Hin].
    cbn [fst]. unfold capture_update in U.
    destruct (negb has_description_column); [discriminate U|].
    unfold bind in U.
    repeat match type of U with
    | match ?x with Ok _ => _ | Raise _ => _ end = Ok _ =>
        let v := fresh "v" in destruct x as [v|]; [|discriminate U]
    end.
    injection U as <-. apply update_keeps; [exact Hin|].
    rewrite Hd. apply andb_false_r.
  - match goal with
    | |- context [let (scored, w0) := ?s in _] => destruct s as [[score|] w1]
    end; [|exact Hin].
    destruct (datetime_now w1) as [now1 w2].
    destruct (datetime_now w2) as [now2 w3].
    destruct (capture_insert _ _ _ _ _ _ _ db) as [db'|] eqn:I; [|exact Hin].
    cbn [fst]. apply capture_insert_ok in I as (row & -> & _).
    apply in_or_app. now left.
Qed.

(** X11. In every table that the requests can reach from the empty one, no
    two rows have the same [job_id]. *)
Theorem reachable_job_ids_unique db :
  reachable db -> NoDup (map Jobs.job_id db).
Proof. intros H. exact (proj1 (reachable_rows_ok H)). Qed.

End CaptureTheorems.


Lemma upto_within n s : within (N.to_nat n) (upto n s).
Proof. unfold within, upto. rewrite length_firstn. lia. Qed.

Lemma upto_length_min n s :
  List.length (upto n s) = Nat.min (N.to_nat n) (List.length s).
Proof. unfold upto. apply length_firstn. Qed.

Section ParserTheorems.

Context {T : Urllib.LibraryTables} {E : External}.

Lemma generate_job_id_shape u t c id :
  generate_job_id u t c = Ok id ->
  List.length id = 16%nat /\ forallb is_hex_lower id = true.
Proof.
  unfold generate_job_id.
  destruct (clean_job_url u) as [cu|]; cbn [bind]; [|discriminate].
  destruct (utf8_encode _) as [enc|]; cbn [bind]; [|discriminate].
  intros [= <-]. split.
  - rewrite upto_length_min, hexdigest_length. reflexivity.
  - apply forallb_forall. intros x Hx.
    apply (proj1 (forallb_forall _ _) (hexdigest_hex enc)).
    unfold upto in Hx. rewrite <- (firstn_skipn 16 (SHA256.hexdigest enc)).
    apply in_or_app. now left.
Qed.

Lemma mem_cons_false x y l :
  mem x (y :: l) = false -> x <> y /\ mem x l = false.
Proof.
  unfold mem. cbn [existsb]. intros H. apply orb_false_iff in H as [A B].
  split; [|exact B]. intros ->. now rewrite str_eqb_refl in A.
Qed.

Lemma falsy_false s : falsy s = false -> s <> [].
Proof. now destruct s. Qed.

Lemma mail_job_built board d u t com loc raw id :
  generate_job_id u t com = Ok id -> falsy u = false ->
  (3 <= List.length t)%nat -> within 100 com -> within 100 loc ->
  mail_job_ok board d
    (mkJob id (upto 200 t) com loc u board (upto 1000 raw) d d).
Proof.
  intros G Fu Ft Xc Xl. apply generate_job_id_shape in G as [G1 G2].
  unfold mail_job_ok.
  cbn [job_id title company location raw_text source created_at email_date url].
  split; [exact G1|]. split; [exact G2|]. split.
  { split; [|apply (upto_within 200)].
    rewrite upto_length_min. apply Nat.min_glb; [cbn; lia|exact Ft]. }
  split; [exact Xc|]. split; [exact Xl|]. split; [apply (upto_within 1000)|].
  split; [reflexivity|]. split; [reflexivity|]. split; [reflexivity|].
  now apply falsy_false.
Qed.

Lemma within_choice (b : bool) s : within 100 (if b then upto 100 s else str "").
Proof. destruct b; [apply (upto_within 100)|unfold within; cbn; lia]. Qed.

Lemma within_empty : within 100 (str "").
Proof. unfold within; cbn; lia. Qed.

Ltac parser_step IH Mu Fu Ft H :=
  match type of H with
  | context [generate_job_id ?u ?t ?c] =>
      let G := fresh "G" in let id := fresh "id" in
      destruct (generate_job_id u t c) as [id|] eqn:G; cbn [bind] in H;
      [|discriminate H];
      match type of H with
      | context [bind ?r _] =>
          let R := fresh "R" in let rest := fresh "rest" in
          destruct r as [rest|] eqn:R; cbn [bind] in H; [|discriminate H];
          injection H as <-;
          let A := fresh "A" in let B := fresh "B" in let C := fresh "C" in
          destruct (IH _ _ R) as (A & B & C);
          split; [|split];
          [ constructor; [|exact A];
            apply (@mail_job_built _ _ _ _ _ _ _ _ G Fu Ft);
            first [apply within_choice | apply within_empty]
          | cbn; constructor; [|exact B];
            let Hin := fresh "Hin" in let j := fresh "j" in
            let Hj := fresh "Hj" in
            intros Hin; apply in_map_iff in Hin as (j & Hj & Hin);
            destruct (mem_cons_false _ _ _ (C j Hin)) as [Hne _]; congruence
          | let j := fresh "j" in let Hj := fresh "Hj" in
            intros j [<-|Hj]; [exact Mu|];
            now apply (mem_cons_false _ _ _ (C j Hj)) ]
      end
  end.

Lemma parse_linkedin_links_ok links d : forall seen jobs,
  parse_linkedin_links links seen d = Ok jobs ->
  Forall (mail_job_ok (str "linkedin") d) jobs
  /\ NoDup (map url jobs)
  /\ (forall j, In j jobs -> mem (url j) seen = false).
Proof.
  induction links as [|link links IH]; intros seen jobs H.
  - cbn in H. injection H as <-. repeat split; [constructor|constructor|intros j []].
  - cbn [parse_linkedin_links] in H.
    destruct (clean_job_url (href link)) as [u|]; cbn [bind] in H; [|discriminate].
    destruct (falsy u) eqn:Fu; cbn [orb] in H; [now apply IH|].
    destruct (mem u seen) eqn:Mu; [now apply IH|].
    destruct (falsy (link_title link) || (List.length (link_title link) <? 3)%nat)
      eqn:Ft.
    + destruct (IH _ _ H) as (A & B & C). repeat split; auto.
      intros j Hj. now apply (mem_cons_false _ _ _ (C j Hj)).
    + apply orb_false_iff in Ft as [_ Ft]. apply Nat.ltb_ge in Ft.
      destruct (parent_text link) as [raw|]; cbv beta iota zeta in H;
        parser_step IH Mu Fu Ft H.
Qed.

Lemma parse_indeed_links_ok links d : forall seen jobs,
  parse_indeed_links links seen d = Ok jobs ->
  Forall (mail_job_ok (str "indeed") d) jobs
  /\ NoDup (map url jobs)
  /\ (forall j, In j jobs -> mem (url j) seen = false).
Proof.
  induction links as [|link links IH]; intros seen jobs H.
  - cbn in H. injection H as <-. repeat split; [constructor|constructor|intros j []].
  - cbn [parse_indeed_links] in H.
    destruct (clean_job_url (href link)) as [u|]; cbn [bind] in H; [|discriminate].
    destruct (falsy u) eqn:Fu; cbn [orb] in H; [now apply IH|].
    destruct (mem u seen) eqn:Mu; [now apply IH|].
    destruct (falsy (link_title link) || (List.length (link_title link) <? 3)%nat)
      eqn:Ft.
    + destruct (IH _ _ H) as (A & B & C). repeat split; auto.
      intros j Hj. now apply (mem_cons_false _ _ _ (C j Hj)).
    + apply orb_false_iff in Ft as [_ Ft]. apply Nat.ltb_ge in Ft.
      destruct (parent_text link) as [raw|]; cbv beta iota zeta in H;
        parser_step IH Mu Fu Ft H.
Qed.

(** X12. Every record of [parse_linkedin_jobs] has an id of 16 lower-case
    hex digits, a title of 3 to 200 characters, a company and a location of
    at most 100, a [raw_text] of at most 1000, the source [linkedin], the
    date of the mail in both date fields, and a URL that is not empty. *)
Theorem parse_linkedin_jobs_records links d jobs :
  parse_linkedin_jobs links d = Ok jobs ->
  Forall (mail_job_ok (str "linkedin") d) jobs.
Proof. intros H. exact (proj1 (parse_linkedin_links_ok _ _ _ H)). Qed.

(** X13. The same for [parse_indeed_jobs], with the source [indeed]. *)
Theorem parse_indeed_jobs_records links d jobs :
  parse_indeed_jobs links d = Ok jobs ->
  Forall (mail_job_ok (str "indeed") d) jobs.
Proof. intros H. exact (proj1 (parse_indeed_links_ok _ _ _ H)). Qed.

(** X14. The records that a mail parser returns for one mail have pairwise
    distinct URLs: a cleaned URL that was seen is skipped. *)
Theorem mail_parsers_urls_distinct links d jobs :
  parse_linkedin_jobs links d = Ok jobs \/ parse_indeed_jobs links d = Ok jobs ->
  NoDup (map url jobs).
Proof.
  intros [H|H].
  - exact (proj1 (proj2 (parse_linkedin_links_ok _ _ _ H))).
  - exact (proj1 (proj2 (parse_indeed_links_ok _ _ _ H))).
Qed.

Lemma feed_item_ok item cutoff w fj w' :
  feed_item item cutoff w = (Ok (Some fj), w') -> feed_job_ok fj.
Proof.
  unfold feed_item.
  destruct (not_elem (title_elem item) || not_elem (link_elem item)) eqn:Ne;
    [discriminate|].
  destruct (clean_job_url _) as [u|]; [|discriminate].
  match goal with
  | |- context [partition ?c ?t] => destruct (partition c t) as [before [after|]]
  end.
  all: destruct (datetime_now w) as [now w1].
  all: destruct (item_pub_date _ _ _) as [pub|]; [|discriminate].
  all: match goal with
       | |- context [generate_job_id ?a ?b ?c] =>
           destruct (generate_job_id a b c) as [id|] eqn:G; [|discriminate]
       end.
  all: intros [= <- <-]; apply generate_job_id_shape in G as [G1 G2].
  all: unfold feed_job_ok;
       cbn [job description job_id title company location source created_at
            email_date].
  all: split; [exact G1|]; split; [exact G2|].
  all: split; [apply (upto_within 200)|]; split; [apply (upto_within 100)|].
  all: split; [reflexivity|]; split; [reflexivity|]; split; [reflexivity|].
  all: destruct (desc_elem item) as [el|]; [destruct (text el) as [dd|]|];
       try exact I.
  all: try (destruct (falsy dd) eqn:Fd; [destruct dd; [|discriminate Fd]|]).
  all: try apply (upto_within 2000).
  all: unfold within; cbn [List.length str]; try lia.
  all: change (falsy (str "")) with true; cbn; lia.
Qed.

Lemma feed_items_ok items cutoff : forall jobs w,
  Forall feed_job_ok jobs ->
  Forall feed_job_ok (fst (feed_items items cutoff jobs w)).
Proof.
  induction items as [|item items IH]; intros jobs w H; [exact H|].
  cbn [feed_items].
  destruct (feed_item item cutoff w) as [[[fj|]|e] w1] eqn:F.
  - apply IH. apply Forall_app. split; [exact H|].
    constructor; [|constructor]. exact (@feed_item_ok _ _ _ _ _ F).
  - now apply IH.
  - exact H.
Qed.

Lemma fetch_feeds_ok feeds cutoff : forall jobs w,
  Forall feed_job_ok jobs ->
  Forall feed_job_ok (fst (fetch_feeds feeds cutoff jobs w)).
Proof.
  induction feeds as [|feed feeds IH]; intros jobs w H; [exact H|].
  cbn [fetch_feeds].
  destruct (fetch_feed feed w) as [[items|e] w1]; [|now apply IH].
  pose proof (@feed_items_ok items cutoff jobs w1 H) as X.
  destruct (feed_items items cutoff jobs w1) as [jobs1 w2].
  now apply IH.
Qed.

(** X15. Every record of [fetch_wwr_jobs] has an id of 16 lower-case hex
    digits, a title of at most 200 characters, a company of at most 100,
    the location [Remote], the source [weworkremotely], equal date fields,
    and a description of at most 2000 characters. *)
Theorem fetch_wwr_jobs_records days_back w :
  Forall feed_job_ok (fst (fetch_wwr_jobs days_back w)).
Proof.
  unfold fetch_wwr_jobs. destruct (datetime_now w) as [now w1].
  apply fetch_feeds_ok. constructor.
Qed.

Lemma feed_items_childless items cutoff : forall jobs w,
  forallb childless items = true ->
  fst (feed_items items cutoff jobs w) = jobs.
Proof.
  induction items as [|item items IH]; intros jobs w H; [reflexivity|].
  cbn [forallb] in H. apply andb_true_iff in H as [Hi H].
  cbn [feed_items]. unfold feed_item. unfold childless in Hi. rewrite Hi.
  now apply IH.
Qed.

Lemma fetch_feeds_childless feeds cutoff : forall jobs w,
  (forall u w0 items, fst (fetch_feed u w0) = Ok items ->
                      forallb childless items = true) ->
  fst (fetch_feeds feeds cutoff jobs w) = jobs.
Proof.
  induction feeds as [|feed feeds IH]; intros jobs w H; [reflexivity|].
  cbn [fetch_feeds]. pose proof (H feed w) as Hf.
  destruct (fetch_feed feed w) as [[items|e] w1]; [|now apply IH].
  pose proof (@feed_items_childless items cutoff jobs w1 (Hf items eq_refl)) as X.
  destruct (feed_items items cutoff jobs w1) as [jobs1 w2]. cbn [fst] in X.
  subst jobs1. now apply IH.
Qed.

(** X16. [fetch_wwr_jobs] skips every item whose [title] or [link] element
    has no child element (such an element is falsy): from feeds whose items
    are all of that kind it returns no record. *)
Theorem fetch_wwr_jobs_skips_childless days_back w :
  (forall u w0 items, fst (fetch_feed u w0) = Ok items ->
                      forallb childless items = true) ->
  fst (fetch_wwr_jobs days_back w) = [].
Proof.
  intros H. unfold fetch_wwr_jobs. destruct (datetime_now w) as [now w1].
  now apply fetch_feeds_childless.
Qed.

End ParserTheorems.


Lemma zrange_all (P : Z -> bool) lo n :
  forallb P (zrange lo n) = true ->
  forall d, (lo <= d < lo + n)%Z -> P d = true.
Proof.
  intros H d Hd. apply (proj1 (forallb_forall _ _) H).
  unfold zrange. apply in_map_iff. exists (Z.to_nat (d - lo)). split; [lia|].
  apply in_seq. lia.
Qed.


Lemma no_recency_checked : forallb no_recency (zrange 31 3620) = true.
Proof. vm_compute. reflexivity. Qed.

Lemma recency_zero d :
  (31 <= d <= 3650)%Z ->
  Ranking.max0 (100 - Ranking.float_of_Z d * 3.33) = 0%float.
Proof.
  intros Hd.
  assert (H : no_recency d = true)
    by (apply (@zrange_all no_recency 31 3620 no_recency_checked); lia).
  unfold no_recency in H. now apply Leibniz.eqb_spec in H.
Qed.

Lemma old_scores_agree b d d' :
  (31 <= d <= 3650)%Z -> (31 <= d' <= 3650)%Z ->
  Ranking.calculate_weighted_score b (Some d)
  = Ranking.calculate_weighted_score b (Some d').
Proof.
  intros Hd Hd'. unfold Ranking.calculate_weighted_score.
  now rewrite (recency_zero Hd), (recency_zero Hd').
Qed.

(** X17. From 31 days on (checked up to 3650) the recency score is 0: the
    weighted score is what an unreadable date gives, for every baseline
    score. *)
Theorem calculate_weighted_score_after_31_days b d :
  (31 <= d <= 3650)%Z ->
  Ranking.calculate_weighted_score b (Some d)
  = Ranking.calculate_weighted_score b None.
Proof.
  intros Hd. unfold Ranking.calculate_weighted_score.
  now rewrite (recency_zero Hd).
Qed.


Lemma in_range_checked :
  forallb (fun b => forallb (in_range b) (zrange 0 32)) (zrange 0 101) = true.
Proof. vm_compute. reflexivity. Qed.

(** X18. For a baseline score from 0 to 100 and an age from 0 to 3650 days
    the weighted score lies between 0 and 100. *)
Theorem calculate_weighted_score_range b d :
  (0 <= b <= 100)%Z -> (0 <= d <= 3650)%Z ->
  PrimFloat.leb 0 (Ranking.calculate_weighted_score b (Some d)) = true
  /\ PrimFloat.leb (Ranking.calculate_weighted_score b (Some d)) 100 = true.
Proof.
  intros Hb Hd.
  assert (H : forall d', (0 <= d' <= 31)%Z -> in_range b d' = true).
  { intros d' Hd'.
    pose proof (@zrange_all _ 0 101 in_range_checked b ltac:(lia)) as Hb'.
    cbv beta in Hb'. apply (@zrange_all _ 0 32 Hb'). lia. }
  assert (X : in_range b d = true).
  { destruct (Z_le_gt_dec d 31) as [L|G]; [apply H; lia|].
    unfold in_range. rewrite (@old_scores_agree b d 31) by lia.
    apply (H 31%Z). lia. }
  unfold in_range in X. now apply andb_true_iff in X.
Qed.


Ltac divmod := Z.to_euclidean_division_equations.
Ltac nlia := zify; Z.to_euclidean_division_equations; lia.

Lemma code_point_spec c :
  code_point c = true <-> (c < 1114112 /\ (c < 55296 \/ 57343 < c))%N.
Proof.
  unfold code_point, scalar, is_surrogate. rewrite andb_true_iff, negb_true_iff.
  rewrite N.ltb_lt, andb_false_iff, !N.leb_gt. tauto.
Qed.

Lemma utf8_encode_char_ok c :
  code_point c = true -> exists bs, utf8_encode_char c = Ok bs.
Proof.
  intros H. apply code_point_spec in H as [H1 H2]. unfold utf8_encode_char.
  destruct (c <? 128)%N; [now eexists|].
  destruct (c <? 2048)%N eqn:E; [now eexists|].
  assert (S : is_surrogate c = false).
  { unfold is_surrogate. apply andb_false_iff.
    destruct H2; [left|right]; apply N.leb_gt; lia. }
  rewrite S. destruct (c <? 65536)%N; now eexists.
Qed.

Lemma utf8_decode_1 b r :
  (b < 128)%N -> utf8_decode (b :: r) = b :: utf8_decode r.
Proof.
  intros H. cbn [utf8_decode].
  now replace (b <? 128)%N with true by (symmetry; apply N.ltb_lt; lia).
Qed.

Lemma utf8_decode_2 b0 b1 r :
  (194 <= b0 < 224)%N -> (128 <= b1 <= 191)%N ->
  utf8_decode (b0 :: b1 :: r) = ((b0 - 192) * 64 + (b1 - 128))%N :: utf8_decode r.
Proof.
  intros H0 H1. cbn [utf8_decode]. unfold is_cont.
  replace (b0 <? 128)%N with false by (symmetry; apply N.ltb_ge; lia).
  replace (b0 <? 194)%N with false by (symmetry; apply N.ltb_ge; lia).
  replace (b0 <? 224)%N with true by (symmetry; apply N.ltb_lt; lia).
  replace (128 <=? b1)%N with true by (symmetry; apply N.leb_le; lia).
  replace (b1 <=? 191)%N with true by (symmetry; apply N.leb_le; lia).
  reflexivity.
Qed.

Lemma second_ok_intro b0 b1 :
  (128 <= b1 <= 191)%N ->
  (b0 = 224 -> 160 <= b1)%N -> (b0 = 237 -> b1 <= 159)%N ->
  (b0 = 240 -> 144 <= b1)%N -> (b0 = 244 -> b1 <= 143)%N ->
  second_ok b0 b1 = true.
Proof.
  intros R A B C D. unfold second_ok, is_cont.
  destruct (N.eqb_spec b0 224) as [E|_].
  { specialize (A E). apply andb_true_iff. split; apply N.leb_le; lia. }
  destruct (N.eqb_spec b0 237) as [E|_].
  { specialize (B E). apply andb_true_iff. split; apply N.leb_le; lia. }
  destruct (N.eqb_spec b0 240) as [E|_].
  { specialize (C E). apply andb_true_iff. split; apply N.leb_le; lia. }
  destruct (N.eqb_spec b0 244) as [E|_].
  { specialize (D E). apply andb_true_iff. split; apply N.leb_le; lia. }
  apply andb_true_iff. split; apply N.leb_le; lia.
Qed.

Lemma utf8_decode_3 b0 b1 b2 r :
  (224 <= b0 < 240)%N -> second_ok b0 b1 = true -> (128 <= b2 <= 191)%N ->
  utf8_decode (b0 :: b1 :: b2 :: r)
  = ((b0 - 224) * 4096 + (b1 - 128) * 64 + (b2 - 128))%N :: utf8_decode r.
Proof.
  intros H0 H1 H2. cbn [utf8_decode]. rewrite H1. unfold is_cont.
  replace (b0 <? 128)%N with false by (symmetry; apply N.ltb_ge; lia).
  replace (b0 <? 194)%N with false by (symmetry; apply N.ltb_ge; lia).
  replace (b0 <? 224)%N with false by (symmetry; apply N.ltb_ge; lia).
  replace (b0 <? 240)%N with true by (symmetry; apply N.ltb_lt; lia).
  replace (128 <=? b2)%N with true by (symmetry; apply N.leb_le; lia).
  replace (b2 <=? 191)%N with true by (symmetry; apply N.leb_le; lia).
  reflexivity.
Qed.

Lemma utf8_decode_4 b0 b1 b2 b3 r :
  (240 <= b0 < 245)%N -> second_ok b0 b1 = true ->
  (128 <= b2 <= 191)%N -> (128 <= b3 <= 191)%N ->
  utf8_decode (b0 :: b1 :: b2 :: b3 :: r)
  = ((b0 - 240) * 262144 + (b1 - 128) * 4096 + (b2 - 128) * 64 + (b3 - 128))%N
      :: utf8_decode r.
Proof.
  intros H0 H1 H2 H3. cbn [utf8_decode]. rewrite H1. unfold is_cont.
  replace (b0 <? 128)%N with false by (symmetry; apply N.ltb_ge; lia).
  replace (b0 <? 194)%N with false by (symmetry; apply N.ltb_ge; lia).
  replace (b0 <? 224)%N with false by (symmetry; apply N.ltb_ge; lia).
  replace (b0 <? 240)%N with false by (symmetry; apply N.ltb_ge; lia).
  replace (b0 <? 245)%N with true by (symmetry; apply N.ltb_lt; lia).
  replace (128 <=? b2)%N with true by (symmetry; apply N.leb_le; lia).
  replace (b2 <=? 191)%N with true by (symmetry; apply N.leb_le; lia).
  replace (128 <=? b3)%N with true by (symmetry; apply N.leb_le; lia).
  replace (b3 <=? 191)%N with true by (symmetry; apply N.leb_le; lia).
  reflexivity.
Qed.


Lemma bytes_intro (l : list N) :
  (forall b, In b l -> (128 <= b < 256)%N) ->
  forallb is_byte l = true /\ forallb high l = true.
Proof.
  intros H. split; apply forallb_forall; intros b Hb; specialize (H b Hb).
  - unfold is_byte. apply N.ltb_lt. lia.
  - unfold high. apply negb_true_iff, N.ltb_ge. lia.
Qed.

Ltac ok_inj_in E :=
  apply (f_equal (fun r => match r with Ok x => x | Raise _ => [] end)) in E;
  cbv beta iota in E; subst.

Ltac ok_inj :=
  let Hb := fresh "Hb" in
  intros Hb;
  apply (f_equal (fun r => match r with Ok x => x | Raise _ => [] end)) in Hb;
  cbv beta iota in Hb; subst.

Lemma utf8_round_char c bs rest :
  code_point c = true -> utf8_encode_char c = Ok bs ->
  utf8_decode (bs ++ rest) = c :: utf8_decode rest
  /\ forallb is_byte bs = true
  /\ ((c < 128)%N -> bs = [c])
  /\ ((128 <= c)%N -> forallb high bs = true).
Proof.
  intros H. apply code_point_spec in H as [H1 H2]. unfold utf8_encode_char.
  destruct (N.ltb_spec c 128) as [E1|E1].
  { ok_inj. cbn [app]. rewrite utf8_decode_1 by assumption.
    repeat split; auto; [|lia].
    cbn [forallb]. unfold is_byte. rewrite andb_true_r. apply N.ltb_lt. lia. }
  destruct (N.ltb_spec c 2048) as [E2|E2].
  { ok_inj. cbn [app]. rewrite utf8_decode_2 by nlia.
    split; [f_equal; nlia|].
    destruct (bytes_intro [192 + c / 64; 128 + c mod 64]%N) as [X Y].
    { intros b [<-|[<-|[]]]; nlia. }
    repeat split; auto. lia. }
  assert (S : is_surrogate c = false).
  { unfold is_surrogate. apply andb_false_iff.
    destruct H2; [left|right]; apply N.leb_gt; lia. }
  rewrite S.
  destruct (N.ltb_spec c 65536) as [E3|E3].
  { ok_inj. cbn [app].
    rewrite utf8_decode_3; [| nlia | apply second_ok_intro; nlia | nlia].
    split; [f_equal; nlia|].
    destruct (bytes_intro [224 + c / 4096; 128 + (c / 64) mod 64;
                           128 + c mod 64]%N) as [X Y].
    { intros b [<-|[<-|[<-|[]]]]; nlia. }
    repeat split; auto. lia. }
  ok_inj. cbn [app].
  rewrite utf8_decode_4; [| nlia | apply second_ok_intro; nlia | nlia | nlia].
  split; [f_equal; nlia|].
  destruct (bytes_intro [240 + c / 262144; 128 + (c / 4096) mod 64;
                         128 + (c / 64) mod 64; 128 + c mod 64]%N) as [X Y].
  { intros b [<-|[<-|[<-|[<-|[]]]]]; nlia. }
  repeat split; auto. lia.
Qed.

Lemma utf8_round s : forall bs,
  forallb code_point s = true -> utf8_encode s = Ok bs ->
  utf8_decode bs = s /\ forallb is_byte bs = true
  /\ (s <> [] -> bs <> []).
Proof.
  induction s as [|c s IH]; intros bs H E.
  - cbn in E. ok_inj_in E. repeat split; auto.
  - cbn [forallb] in H. apply andb_true_iff in H as [Hc H].
    cbn [utf8_encode] in E.
    destruct (utf8_encode_char c) as [b1|] eqn:E1; cbn [bind] in E; [|discriminate].
    destruct (utf8_encode s) as [b2|] eqn:E2; cbn [bind] in E; [|discriminate].
    ok_inj_in E.
    destruct (@utf8_round_char c b1 b2 Hc E1) as (A & B & C & D).
    destruct (IH b2 H eq_refl) as (A' & B' & _).
    rewrite A, A', forallb_app, B, B'. repeat split; auto.
    intros _ Hn. apply app_eq_nil in Hn as [Hn _]. subst b1.
    unfold utf8_encode_char in E1.
    repeat match type of E1 with
           | (if ?b then _ else _) = _ => destruct b
           end; discriminate E1.
Qed.

Lemma utf8_encode_code_points s :
  forallb code_point s = true -> exists bs, utf8_encode s = Ok bs.
Proof.
  induction s as [|c s IH]; cbn [forallb utf8_encode]; [now exists []|].
  intros H. apply andb_true_iff in H as [Hc H]. destruct (IH H) as [bs ->].
  destruct (@utf8_encode_char_ok c Hc) as [b ->]. eexists; reflexivity.
Qed.

(** *** Percent-encoding and back *)

Lemma hex_val_digit n : (n < 16)%N -> hex_val (hex_digit n) = Some n.
Proof.
  intros H. unfold hex_digit, hex_val, is_digit.
  destruct (N.ltb_spec n 10).
  - replace (48 <=? 48 + n)%N with true by (symmetry; apply N.leb_le; lia).
    replace (48 + n <=? 57)%N with true by (symmetry; apply N.leb_le; lia).
    cbn [andb]. f_equal. lia.
  - replace (48 <=? 55 + n)%N with true by (symmetry; apply N.leb_le; lia).
    replace (55 + n <=? 57)%N with false by (symmetry; apply N.leb_gt; lia).
    cbn [andb].
    replace (65 <=? 55 + n)%N with true by (symmetry; apply N.leb_le; lia).
    replace (55 + n <=? 70)%N with true by (symmetry; apply N.leb_le; lia).
    cbn [andb]. f_equal. lia.
Qed.


Lemma quoted_char_intro c :
  (c < 128 /\ c <> 43 /\ c <> 38 /\ c <> 61)%N -> quoted_char c = true.
Proof.
  intros (A & B & C & D). unfold quoted_char, is_ascii.
  repeat (apply andb_true_iff; split);
    try apply negb_true_iff; try apply N.eqb_neq; try apply N.ltb_lt; assumption.
Qed.

Lemma always_safe_spec b :
  always_safe b = true ->
  ((65 <= b <= 90) \/ (97 <= b <= 122) \/ (48 <= b <= 57)
   \/ b = 95 \/ b = 46 \/ b = 45 \/ b = 126)%N.
Proof.
  unfold always_safe, is_ascii_alpha, is_upper_ascii, is_lower_ascii, is_digit.
  change (chr "_") with 95%N. change (chr ".") with 46%N.
  change (chr "-") with 45%N. change (chr "~") with 126%N.
  intros H.
  repeat match type of H with
         | (_ || _) = true => apply orb_true_iff in H as [H|H]
         end;
    try (apply andb_true_iff in H as [H1 H2]; apply N.leb_le in H1, H2);
    try apply N.eqb_eq in H; lia.
Qed.

Lemma hex_digit_range n :
  (n < 16)%N -> (48 <= hex_digit n <= 57 \/ 65 <= hex_digit n <= 70)%N.
Proof. intros H. unfold hex_digit. destruct (N.ltb_spec n 10); lia. Qed.

Section Quote.

Variable safe : N -> bool.
Hypothesis safe_space : forall b, safe b = true -> b = 32%N.

Lemma quote_byte_chars b :
  is_byte b = true -> forallb quoted_char (quote_byte safe b) = true.
Proof.
  intros Hb. unfold is_byte in Hb. apply N.ltb_lt in Hb. unfold quote_byte.
  destruct (always_safe b) eqn:A; cbn [orb].
  - cbn [forallb]. rewrite andb_true_r. apply quoted_char_intro.
    apply always_safe_spec in A. lia.
  - destruct ((b <? 128)%N && safe b) eqn:S.
    + apply andb_true_iff in S as [_ S]. apply safe_space in S. subst b.
      reflexivity.
    + cbn [forallb]. rewrite andb_true_r.
      assert (H1 : (b / 16 < 16)%N) by nlia.
      assert (H2 : (b mod 16 < 16)%N) by nlia.
      pose proof (hex_digit_range H1). pose proof (hex_digit_range H2).
      apply andb_true_iff; split; [reflexivity|].
      apply andb_true_iff; split; apply quoted_char_intro; lia.
Qed.

Lemma quote_byte_back b rest :
  is_byte b = true ->
  unquote_to_bytes (quote_byte safe b ++ rest) = b :: unquote_to_bytes rest.
Proof.
  intros Hb. unfold is_byte in Hb. apply N.ltb_lt in Hb. unfold quote_byte.
  assert (K : forall x, x <> 37%N ->
            unquote_to_bytes ([x] ++ rest) = x :: unquote_to_bytes rest).
  { intros x Hx. cbn [app unquote_to_bytes]. change (chr "%") with 37%N.
    now replace (x =? 37)%N with false by (symmetry; apply N.eqb_neq; exact Hx). }
  destruct (always_safe b) eqn:A; cbn [orb].
  - apply K. apply always_safe_spec in A. lia.
  - destruct ((b <? 128)%N && safe b) eqn:S.
    + apply K. apply andb_true_iff in S as [_ S]. apply safe_space in S. lia.
    + cbn [app unquote_to_bytes]. change (chr "%") with 37%N.
      rewrite N.eqb_refl, !hex_val_digit by nlia. f_equal. nlia.
Qed.

Lemma quote_bytes_back bs :
  forallb is_byte bs = true ->
  unquote_to_bytes (flat_map (quote_byte safe) bs) = bs
  /\ forallb quoted_char (flat_map (quote_byte safe) bs) = true
  /\ (bs <> [] -> flat_map (quote_byte safe) bs <> []).
Proof.
  induction bs as [|b bs IH]; intros H; [repeat split; auto|].
  cbn [forallb] in H. apply andb_true_iff in H as [Hb H].
  destruct (IH H) as (A & B & _). cbn [flat_map].
  rewrite quote_byte_back by assumption. rewrite A.
  rewrite forallb_app, quote_byte_chars by assumption. rewrite B.
  repeat split; auto. intros _ Hn. apply app_eq_nil in Hn as [Hn _].
  unfold quote_byte in Hn. destruct (_ || _); discriminate.
Qed.

End Quote.

Lemma quoted_ascii q : forallb quoted_char q = true -> forallb is_ascii q = true.
Proof.
  apply forallb_weaken. intros x H. unfold quoted_char in H.
  now repeat (apply andb_true_iff in H as [H _]).
Qed.

Lemma quoted_has c q :
  quoted_char c = false -> forallb quoted_char q = true -> has c q = false.
Proof.
  intros Hc Hq. apply has_absent. revert Hq. apply forallb_weaken.
  intros x Hx. apply negb_true_iff. apply N.eqb_neq. intros <-. congruence.
Qed.

Lemma unquote_to_bytes_plain s :
  has (chr "%") s = false -> unquote_to_bytes s = s.
Proof.
  induction s as [|c s IH]; [reflexivity|]. cbn [has existsb]. intros H.
  apply orb_false_iff in H as [Hc H]. cbn [unquote_to_bytes].
  rewrite N.eqb_sym in Hc. rewrite Hc. f_equal. now apply IH.
Qed.

Lemma utf8_decode_ascii s : forallb is_ascii s = true -> utf8_decode s = s.
Proof.
  induction s as [|c s IH]; [reflexivity|]. cbn [forallb]. intros H.
  apply andb_true_iff in H as [Hc H]. unfold is_ascii in Hc.
  apply N.ltb_lt in Hc. rewrite utf8_decode_1 by assumption. f_equal.
  now apply IH.
Qed.

Lemma unquote_runs_ascii s : forall run,
  forallb is_ascii s = true ->
  unquote_runs s run = utf8_decode (unquote_to_bytes (rev run ++ s)).
Proof.
  induction s as [|c s IH]; intros run H; cbn [unquote_runs].
  - now rewrite app_nil_r.
  - cbn [forallb] in H. apply andb_true_iff in H as [Hc H]. rewrite Hc.
    rewrite IH by assumption. cbn [rev]. now rewrite <- app_assoc.
Qed.

Lemma unquote_ascii s :
  forallb is_ascii s = true -> unquote s = utf8_decode (unquote_to_bytes s).
Proof.
  intros H. unfold unquote. destruct (has (chr "%") s) eqn:P.
  - now rewrite unquote_runs_ascii.
  - now rewrite unquote_to_bytes_plain, utf8_decode_ascii.
Qed.

Lemma replace_back a b s :
  has b s = false -> replace b a (replace a b s) = s.
Proof.
  unfold replace. induction s as [|x s IH]; [reflexivity|].
  cbn [has existsb map]. intros H. apply orb_false_iff in H as [Hx H].
  rewrite IH by exact H. f_equal.
  destruct (N.eqb_spec x a) as [->|Ne].
  - now rewrite N.eqb_refl.
  - rewrite N.eqb_sym in Hx. now rewrite Hx.
Qed.


Lemma quote_plus_round s q :
  forallb code_point s = true -> quote_plus s = Ok q ->
  unquote (replace (chr "+") (chr " ") q) = s
  /\ forallb field_char q = true
  /\ (s <> [] -> q <> []).
Proof.
  intros Hs. unfold quote_plus, quote.
  destruct (utf8_encode_code_points s Hs) as [bs Hbs]. rewrite Hbs. cbn [bind].
  destruct (utf8_round s Hs Hbs) as (R & B & NE).
  destruct (negb (has (chr " ") s)).
  - intros Hq. ok_inj_in Hq.
    destruct (@quote_bytes_back (fun _ => false) ltac:(discriminate) bs B)
      as (U & C & N0).
    rewrite replace_absent by (apply (@quoted_has 43%N _ eq_refl C)).
    rewrite unquote_ascii by now apply quoted_ascii.
    rewrite U. repeat split; auto.
    revert C. apply forallb_weaken. intros x Hx. unfold quoted_char in Hx.
    unfold field_char.
    apply andb_true_iff in Hx as [Hx H3]. apply andb_true_iff in Hx as [Hx H2].
    apply andb_true_iff in Hx as [Hx H1]. now rewrite Hx, H2, H3.
  - intros Hq. ok_inj_in Hq.
    assert (SP : forall b, N.eqb (chr " ") b = true -> b = 32%N).
    { intros b Hb. apply N.eqb_eq in Hb. now subst b. }
    destruct (@quote_bytes_back (N.eqb (chr " ")) SP bs B) as (U & C & N0).
    rewrite replace_back by (apply (@quoted_has 43%N _ eq_refl C)).
    rewrite unquote_ascii by now apply quoted_ascii.
    rewrite U. repeat split; auto.
    + unfold replace. apply forallb_forall. intros y Hy.
      apply in_map_iff in Hy as (x & <- & Hin).
      pose proof (proj1 (forallb_forall _ _) C x Hin) as Hx.
      destruct (N.eqb x (chr " ")); [reflexivity|].
      unfold quoted_char in Hx. unfold field_char.
      apply andb_true_iff in Hx as [Hx H3]. apply andb_true_iff in Hx as [Hx H2].
      apply andb_true_iff in Hx as [Hx H1]. now rewrite Hx, H2, H3.
    + intros Hn Hq. apply N0; [now apply NE|].
      unfold replace in Hq. now apply map_eq_nil in Hq.
Qed.

(** *** From the encoded query string back to the dict *)


Lemma field_has c q :
  field_char c = false -> forallb field_char q = true -> has c q = false.
Proof.
  intros Hc Hq. apply has_absent. revert Hq. apply forallb_weaken.
  intros x Hx. apply negb_true_iff. apply N.eqb_neq. intros <-. congruence.
Qed.

Lemma parse_field_encoded k v qk qv :
  forallb code_point k = true -> forallb code_point v = true -> v <> [] ->
  quote_plus k = Ok qk -> quote_plus v = Ok qv ->
  parse_field (qk ++ str "=" ++ qv) = Some (k, v)
  /\ has (chr "&") (qk ++ str "=" ++ qv) = false.
Proof.
  intros Hk Hv Nv Ek Ev.
  destruct (quote_plus_round k Hk Ek) as (Rk & Ck & _).
  destruct (quote_plus_round v Hv Ev) as (Rv & Cv & Nq).
  split.
  - unfold parse_field. change (str "=" ++ qv) with (chr "=" :: qv).
    assert (F : falsy (qk ++ chr "=" :: qv) = false) by now destruct qk.
    rewrite F.
    rewrite partition_hit by (apply (@field_has (chr "=") _ eq_refl Ck)).
    destruct qv as [|x qv']; [now contradiction (Nq Nv)|]. cbn [falsy].
    now rewrite Rk, Rv.
  - rewrite !has_app. rewrite (@field_has (chr "&") _ eq_refl Ck).
    rewrite (@field_has (chr "&") _ eq_refl Cv). reflexivity.
Qed.

Lemma split_cons_sep c x s :
  has c x = false -> split c (x ++ c :: s) = x :: split c s.
Proof.
  induction x as [|y x IH]; cbn [has existsb app split]; intros H.
  - now rewrite N.eqb_refl.
  - apply orb_false_iff in H as [Hy H]. rewrite N.eqb_sym in Hy. rewrite Hy.
    now rewrite IH.
Qed.

Lemma split_join c l :
  l <> [] -> (forall x, In x l -> has c x = false) ->
  split c (join [c] l) = l.
Proof.
  induction l as [|x l IH]; intros Hn H; [now contradiction Hn|].
  destruct l as [|y l].
  - cbn [join]. apply split_absent. apply H. now left.
  - change (join [c] (x :: y :: l)) with (x ++ [c] ++ join [c] (y :: l)).
    cbn [app]. rewrite split_cons_sep by (apply H; now left). f_equal.
    apply IH; [discriminate|]. intros z Hz. apply H. now right.
Qed.


Lemma encode_values_fields k qk vs l :
  forallb code_point k = true -> quote_plus k = Ok qk ->
  (forall v, In v vs -> forallb code_point v = true /\ v <> []) ->
  encode_values qk vs = Ok l ->
  Forall2 (fun kv f => parse_field f = Some kv /\ has (chr "&") f = false)
          (map (pair k) vs) l.
Proof.
  intros Hk Ek. revert l. induction vs as [|v vs IH]; intros l Hv E.
  - cbn in E. ok_inj_in E. constructor.
  - cbn [encode_values] in E.
    destruct (quote_plus v) as [qv|] eqn:Ev; cbn [bind] in E; [|discriminate].
    destruct (encode_values qk vs) as [r|] eqn:Er; cbn [bind] in E; [|discriminate].
    ok_inj_in E. cbn [map]. constructor.
    + destruct (Hv v (or_introl eq_refl)) as [A B].
      now apply parse_field_encoded.
    + apply IH; [|reflexivity]. intros x Hx. apply Hv. now right.
Qed.

Lemma encode_items_fields d : forall l,
  dict_ok d -> encode_items d = Ok l ->
  Forall2 (fun kv f => parse_field f = Some kv /\ has (chr "&") f = false)
          (expand d) l.
Proof.
  induction d as [|[k vs] d IH]; intros l [Hn Hd] E.
  - cbn in E. ok_inj_in E. constructor.
  - cbn [encode_items] in E.
    destruct (quote_plus k) as [qk|] eqn:Ek; cbn [bind] in E; [|discriminate].
    destruct (encode_values qk vs) as [l1|] eqn:E1; cbn [bind] in E; [|discriminate].
    destruct (encode_items d) as [l2|] eqn:E2; cbn [bind] in E; [|discriminate].
    ok_inj_in E. unfold expand. cbn [flat_map fst snd].
    destruct (Hd k vs (or_introl eq_refl)) as (Hk & _ & Hv).
    apply Forall2_app.
    + now apply (@encode_values_fields k qk vs l1 Hk Ek Hv).
    + apply IH; [|reflexivity]. split.
      * cbn in Hn. now apply NoDup_cons_iff in Hn.
      * intros k' vs' Hin. apply Hd. now right.
Qed.

Lemma parse_fields l pairs :
  Forall2 (fun kv f => parse_field f = Some kv /\ has (chr "&") f = false)
          pairs l ->
  flat_map (fun nv => match parse_field nv with
                      | Some p => [p]
                      | None => []
                      end) l = pairs
  /\ forall x, In x l -> has (chr "&") x = false /\ x <> [].
Proof.
  induction 1 as [|kv f pairs l [P Q] F [A B]].
  - split; [reflexivity|intros x []].
  - split.
    + cbn [flat_map]. rewrite P, A. reflexivity.
    + intros x [<-|Hx]; auto. split; [exact Q|]. intros ->. discriminate P.
Qed.

Lemma join_nonempty (sep : pystr) l :
  l <> [] -> (forall x, In x l -> x <> []) -> join sep l <> [].
Proof.
  destruct l as [|x l]; intros Hn H; [now contradiction Hn|].
  assert (Hx : x <> []) by (apply H; now left).
  destruct l; cbn [join]; [exact Hx|].
  intros E. apply app_eq_nil in E as [E _]. contradiction.
Qed.

Lemma parse_qsl_urlencode d q :
  dict_ok d -> d <> [] -> urlencode d = Ok q -> parse_qsl q = expand d.
Proof.
  intros Hd Hn. unfold urlencode.
  destruct (encode_items d) as [l|] eqn:E; cbn [bind]; [|discriminate].
  intros Hq. ok_inj_in Hq.
  pose proof (@encode_items_fields d l Hd E) as F2.
  destruct (parse_fields F2) as [A B].
  assert (Hl : l <> []).
  { destruct d as [|[k vs] d]; [now contradiction Hn|].
    destruct Hd as [_ Hd]. destruct (Hd k vs (or_introl eq_refl)) as (_ & Hvs & _).
    destruct vs as [|v vs]; [now contradiction Hvs|].
    unfold expand in F2. cbn [flat_map map snd fst app] in F2.
    intros ->. inversion F2. }
  unfold parse_qsl.
  assert (Hj : join (str "&") l <> []).
  { apply join_nonempty; [exact Hl|]. intros x Hx. now apply B. }
  assert (Fj : falsy (join (str "&") l) = false)
    by (destruct (join (str "&") l); [now contradiction Hj|reflexivity]).
  rewrite Fj. change (str "&") with [chr "&"].
  rewrite split_join; [exact A|exact Hl|]. intros x Hx. now apply B.
Qed.

(** *** Rebuilding the dict *)


Lemma dict_append_new k v acc :
  ~ In k (map fst acc) -> dict_append k v acc = acc ++ [(k, [v])].
Proof.
  induction acc as [|[k' vs] acc IH]; intros H; [reflexivity|].
  cbn [dict_append]. destruct (str_eqb k k') eqn:Eq.
  - apply str_eqb_eq in Eq. subst k'. exfalso. apply H. now left.
  - cbn [app]. f_equal. apply IH. intros Hin. apply H. now right.
Qed.

Lemma dict_append_last k v vs acc :
  ~ In k (map fst acc) ->
  dict_append k v (acc ++ [(k, vs)]) = acc ++ [(k, vs ++ [v])].
Proof.
  induction acc as [|[k' vs'] acc IH]; intros H.
  - cbn [app dict_append]. now rewrite str_eqb_refl.
  - cbn [app dict_append]. destruct (str_eqb k k') eqn:Eq.
    + apply str_eqb_eq in Eq. subst k'. exfalso. apply H. now left.
    + f_equal. apply IH. intros Hin. apply H. now right.
Qed.

Lemma fold_values k vs' : forall vs acc,
  ~ In k (map fst acc) ->
  fold_left add_pair (map (pair k) vs') (acc ++ [(k, vs)])
  = acc ++ [(k, vs ++ vs')].
Proof.
  induction vs' as [|v vs' IH]; intros vs acc H; cbn [map fold_left].
  - now rewrite app_nil_r.
  - unfold add_pair at 2. cbn [fst snd]. rewrite dict_append_last by exact H.
    rewrite IH by exact H. now rewrite <- app_assoc.
Qed.

Lemma fold_expand d : forall acc,
  NoDup (map fst (acc ++ d)) ->
  (forall k vs, In (k, vs) d -> vs <> []) ->
  fold_left add_pair (expand d) acc = acc ++ d.
Proof.
  induction d as [|[k vs] d IH]; intros acc Hn Hv.
  - cbn. now rewrite app_nil_r.
  - unfold expand. cbn [flat_map fst snd]. rewrite fold_left_app.
    destruct vs as [|v vs]; [now contradiction (Hv k [] (or_introl eq_refl))|].
    assert (Hk : ~ In k (map fst acc)).
    { rewrite map_app in Hn. cbn [map fst] in Hn.
      apply NoDup_remove_2 in Hn. intros Hin. apply Hn.
      apply in_or_app. now left. }
    cbn [map fold_left]. unfold add_pair at 3. cbn [fst snd].
    rewrite dict_append_new by exact Hk.
    rewrite fold_values by exact Hk. cbn [app].
    change (fold_left add_pair (flat_map (fun kv => map (pair (fst kv)) (snd kv)) d)
                      (acc ++ [(k, v :: vs)]))
      with (fold_left add_pair (expand d) (acc ++ [(k, v :: vs)])).
    rewrite IH.
    + now rewrite <- app_assoc.
    + now rewrite <- app_assoc.
    + intros k' vs' Hin. apply (Hv k' vs'). now right.
Qed.

Lemma parse_qs_urlencode d q :
  dict_ok d -> d <> [] -> urlencode d = Ok q -> parse_qs q = d.
Proof.
  intros Hd Hn Hq. unfold parse_qs. rewrite (parse_qsl_urlencode Hd Hn Hq).
  change (fold_left add_pair (expand d) [] = d).
  rewrite fold_expand; [reflexivity|exact (proj1 Hd)|].
  intros k vs Hin. now apply (proj2 Hd k vs Hin).
Qed.

(** *** The dicts of [parse_qs] *)

Lemma code_point_intro c :
  (c < 1114112 /\ (c < 55296 \/ 57343 < c))%N -> code_point c = true.
Proof. apply code_point_spec. Qed.

Lemma utf8_decode_code_points_len n : forall bs,
  (List.length bs <= n)%nat -> forallb code_point (utf8_decode bs) = true.
Proof.
  induction n as [|n IH]; intros bs Hlen.
  - destruct bs; [reflexivity|simpl in Hlen; lia].
  - destruct bs as [|b0 r0]; [reflexivity|].
    simpl in Hlen. cbn [utf8_decode].
    assert (I0 : forallb code_point (utf8_decode r0) = true) by (apply IH; lia).
    destruct (b0 <? 128)%N eqn:E1.
    { cbn [forallb]. rewrite I0, andb_true_r. apply code_point_intro.
      bool_to_prop. lia. }
    destruct (b0 <? 194)%N eqn:E2; [cbn [forallb]; now rewrite I0|].
    destruct (b0 <? 224)%N eqn:E3.
    { destruct r0 as [|b1 r1]; [reflexivity|].
      destruct (is_cont b1) eqn:C1; [|cbn [forallb]; now rewrite I0].
      cbn [forallb]. rewrite IH by (simpl in *; lia). rewrite andb_true_r.
      unfold is_cont in C1. apply code_point_intro. bool_to_prop. lia. }
    destruct (b0 <? 240)%N eqn:E4.
    { destruct r0 as [|b1 r1]; [reflexivity|].
      destruct (second_ok b0 b1) eqn:S1; [|cbn [forallb]; now rewrite I0].
      destruct r1 as [|b2 r2]; [reflexivity|].
      destruct (is_cont b2) eqn:C2.
      2:{ cbn [forallb]. now rewrite IH by (simpl in *; lia). }
      cbn [forallb]. rewrite IH by (simpl in *; lia). rewrite andb_true_r.
      unfold is_cont in C2. unfold second_ok, is_cont in S1.
      apply code_point_intro.
      destruct (b0 =? 224)%N eqn:F1; [bool_to_prop; lia|].
      destruct (b0 =? 237)%N eqn:F2; [bool_to_prop; lia|].
      destruct (b0 =? 240)%N eqn:F3; [bool_to_prop; lia|].
      destruct (b0 =? 244)%N eqn:F4; bool_to_prop; lia. }
    destruct (b0 <? 245)%N eqn:E5; [|cbn [forallb]; now rewrite I0].
    destruct r0 as [|b1 r1]; [reflexivity|].
    destruct (second_ok b0 b1) eqn:S1; [|cbn [forallb]; now rewrite I0].
    destruct r1 as [|b2 r2]; [reflexivity|].
    destruct (is_cont b2) eqn:C2.
    2:{ cbn [forallb]. now rewrite IH by (simpl in *; lia). }
    destruct r2 as [|b3 r3]; [reflexivity|].
    destruct (is_cont b3) eqn:C3.
    2:{ cbn [forallb]. now rewrite IH by (simpl in *; lia). }
    cbn [forallb]. rewrite IH by (simpl in *; lia). rewrite andb_true_r.
    unfold is_cont in C2, C3. unfold second_ok, is_cont in S1.
    apply code_point_intro.
    destruct (b0 =? 224)%N eqn:F1; [bool_to_prop; lia|].
    destruct (b0 =? 237)%N eqn:F2; [bool_to_prop; lia|].
    destruct (b0 =? 240)%N eqn:F3; [bool_to_prop; lia|].
    destruct (b0 =? 244)%N eqn:F4; bool_to_prop; lia.
Qed.

Lemma utf8_decode_code_points bs : forallb code_point (utf8_decode bs) = true.
Proof. now apply (@utf8_decode_code_points_len (List.length bs)). Qed.

Lemma utf8_decode_nonempty bs : bs <> [] -> utf8_decode bs <> [].
Proof.
  destruct bs as [|b0 r0]; [now intros H|]. intros _. cbn [utf8_decode].
  repeat match goal with
         | |- (if ?b then _ else _) <> _ => destruct b
         | |- match ?l with [] => _ | _ :: _ => _ end <> _ => destruct l
         end; discriminate.
Qed.

Lemma unquote_to_bytes_nonempty s : s <> [] -> unquote_to_bytes s <> [].
Proof.
  destruct s as [|c s]; [now intros H|]. intros _. cbn [unquote_to_bytes].
  destruct (N.eqb c (chr "%")); [|discriminate].
  destruct s as [|h1 [|h2 s]]; try discriminate.
  destruct (hex_val h1), (hex_val h2); discriminate.
Qed.

Lemma unquote_runs_code_points s : forall run,
  forallb code_point s = true -> forallb code_point (unquote_runs s run) = true.
Proof.
  induction s as [|c s IH]; intros run H; cbn [unquote_runs].
  - apply utf8_decode_code_points.
  - cbn [forallb] in H. apply andb_true_iff in H as [Hc H].
    destruct (is_ascii c); [now apply IH|].
    rewrite forallb_app, utf8_decode_code_points. cbn [forallb andb].
    rewrite Hc. now apply IH.
Qed.

Lemma unquote_runs_nonempty s : forall run,
  s <> [] \/ run <> [] -> unquote_runs s run <> [].
Proof.
  induction s as [|c s IH]; intros run H; cbn [unquote_runs].
  - destruct H as [H|H]; [now contradiction H|].
    apply utf8_decode_nonempty, unquote_to_bytes_nonempty.
    intros E. apply H. apply (f_equal (@rev N)) in E.
    now rewrite rev_involutive in E.
  - destruct (is_ascii c).
    + apply IH. right. discriminate.
    + intros E. apply app_eq_nil in E as [_ E]. discriminate.
Qed.

Lemma unquote_ok s :
  forallb code_point s = true ->
  forallb code_point (unquote s) = true /\ (s <> [] -> unquote s <> []).
Proof.
  intros H. unfold unquote. destruct (has (chr "%") s).
  - split; [now apply unquote_runs_code_points|].
    intros Hn. apply unquote_runs_nonempty. now left.
  - now split.
Qed.

Lemma replace_code_points a b s :
  code_point b = true -> forallb code_point s = true ->
  forallb code_point (replace a b s) = true.
Proof.
  intros Hb H. unfold replace. apply forallb_forall. intros y Hy.
  apply in_map_iff in Hy as (x & <- & Hin).
  destruct (N.eqb x a); [exact Hb|].
  exact (proj1 (forallb_forall _ _) H x Hin).
Qed.

Lemma parse_field_ok nv k v :
  forallb code_point nv = true -> parse_field nv = Some (k, v) ->
  forallb code_point k = true /\ forallb code_point v = true /\ v <> [].
Proof.
  intros H. unfold parse_field. destruct (falsy nv); [discriminate|].
  destruct (all_partition code_point (chr "=") nv H) as [A B].
  destruct (partition (chr "=") nv) as [n [t|]]; [|discriminate].
  cbn [fst snd] in A, B. specialize (B t eq_refl).
  destruct (falsy t) eqn:Ft; [discriminate|]. intros E.
  apply (f_equal (fun o => match o with Some p => p | None => ([], []) end)) in E.
  cbv beta iota in E. apply (f_equal fst) in E as Ek.
  apply (f_equal snd) in E as Ev. cbn [fst snd] in Ek, Ev. subst k v.
  assert (An : forallb code_point (replace (chr "+") (chr " ") n) = true)
    by (apply replace_code_points; [reflexivity|exact A]).
  assert (Bt : forallb code_point (replace (chr "+") (chr " ") t) = true)
    by (apply replace_code_points; [reflexivity|exact B]).
  destruct (unquote_ok _ An) as [K _]. destruct (unquote_ok _ Bt) as [V Vn].
  split; [exact K|]. split; [exact V|]. apply Vn.
  unfold replace. destruct t; discriminate.
Qed.

Lemma dict_append_keys k v d x :
  In x (map fst (dict_append k v d)) -> x = k \/ In x (map fst d).
Proof.
  induction d as [|[k0 vs0] d IH]; cbn [dict_append map fst In].
  - intros [<-|[]]. now left.
  - destruct (str_eqb k k0); cbn [map fst In]; intros [<-|H]; auto.
    destruct (IH H); auto.
Qed.

Lemma dict_append_ok k v d :
  forallb code_point k = true -> forallb code_point v = true -> v <> [] ->
  dict_ok d -> dict_ok (dict_append k v d).
Proof.
  intros Hk Hv Nv. induction d as [|[k0 vs0] d IH]; intros [Hn Hd].
  - cbn [dict_append]. split.
    + cbn. constructor; [intros []|constructor].
    + intros k' vs' [E|[]]. injection E as <- <-. split; [exact Hk|].
      split; [discriminate|]. intros x [<-|[]]. now split.
  - cbn [map fst] in Hn. apply NoDup_cons_iff in Hn as [Hk0 Hn].
    assert (Hd' : dict_ok d).
    { split; [exact Hn|]. intros k' vs' Hin. apply Hd. now right. }
    destruct (Hd k0 vs0 (or_introl eq_refl)) as (C0 & N0 & V0).
    cbn [dict_append]. destruct (str_eqb k k0) eqn:Eq.
    + split.
      * cbn [map fst]. now constructor.
      * intros k' vs' [E|Hin]; [|apply Hd; now right].
        injection E as <- <-. split; [exact C0|]. split.
        -- intros E. apply app_eq_nil in E as [_ E]. discriminate.
        -- intros x Hx. apply in_app_or in Hx as [Hx|[<-|[]]]; auto.
    + destruct (IH Hd') as [Hn2 Hd2]. split.
      * cbn [map fst]. constructor; [|exact Hn2]. intros Hin.
        apply dict_append_keys in Hin as [->|Hin]; [|contradiction].
        now rewrite str_eqb_refl in Eq.
      * intros k' vs' [E|Hin]; [|now apply Hd2].
        injection E as <- <-. auto.
Qed.

Lemma parse_qs_ok qs : forallb code_point qs = true -> dict_ok (parse_qs qs).
Proof.
  intros H. unfold parse_qs.
  assert (L : forall nv, In nv (parse_qsl qs) ->
                forallb code_point (fst nv) = true
                /\ forallb code_point (snd nv) = true /\ snd nv <> []).
  { intros [k v] Hin. unfold parse_qsl in Hin.
    destruct (falsy qs); [destruct Hin|].
    apply in_flat_map in Hin as (nv & Hnv & Hin).
    pose proof (all_split code_point (chr "&") qs nv H Hnv) as Hs.
    destruct (parse_field nv) as [[k' v']|] eqn:E; [|destruct Hin].
    destruct Hin as [E'|[]]. injection E' as <- <-.
    exact (parse_field_ok nv Hs E). }
  assert (G : forall l d,
             (forall nv, In nv l ->
                forallb code_point (fst nv) = true
                /\ forallb code_point (snd nv) = true /\ snd nv <> []) ->
             dict_ok d ->
             dict_ok (fold_left (fun d nv => dict_append (fst nv) (snd nv) d) l d)).
  { induction l as [|[k v] l IHl]; intros d Hl Hd; cbn [fold_left]; [exact Hd|].
    apply IHl; [intros nv Hnv; apply Hl; now right|].
    destruct (Hl (k, v) (or_introl eq_refl)) as (A & B & C).
    now apply dict_append_ok. }
  apply G; [exact L|]. split; [constructor|intros k vs []].
Qed.

Lemma filter_dict_ok (f : pystr * list pystr -> bool) d :
  dict_ok d -> dict_ok (filter f d).
Proof.
  intros [Hn Hd]. split.
  - clear Hd. induction d as [|kv d IH]; [constructor|].
    cbn [map] in Hn. apply NoDup_cons_iff in Hn as [Hk Hn].
    cbn [filter]. destruct (f kv); [|now apply IH].
    cbn [map]. constructor; [|now apply IH]. intros Hin. apply Hk.
    apply in_map_iff in Hin as (x & Ex & Hx). apply filter_In in Hx as [Hx _].
    apply in_map_iff. now exists x.
  - intros k vs Hin. apply filter_In in Hin as [Hin _]. now apply Hd.
Qed.

Lemma dict_ok_scalar d : dict_ok d -> scalar_dict d = true.
Proof.
  intros [_ Hd]. unfold scalar_dict. apply forallb_forall. intros [k vs] Hin.
  destruct (Hd k vs Hin) as (Hk & _ & Hv). cbn [fst snd].
  assert (W : forall s, forallb code_point s = true -> forallb scalar s = true).
  { intros s. apply forallb_weaken. intros x Hx. unfold code_point in Hx.
    now apply andb_true_iff in Hx as [_ Hx]. }
  rewrite (W k Hk). cbn [andb]. apply forallb_forall. intros v Hv'.
  apply W. now apply Hv.
Qed.


Lemma strip_tracking_spec p :
  forallb code_point (query p) = true ->
  exists q,
    strip_tracking p
    = Ok (urlunparse (scheme p) (netloc p) (path p) (str "") q (str ""))
    /\ parse_qs q = filter untracked (parse_qs (query p))
    /\ (q <> [] -> urlencode (filter untracked (parse_qs (query p))) = Ok q
                   /\ filter untracked (parse_qs (query p)) <> []).
Proof.
  intros Hq. unfold strip_tracking.
  change (fun kv : pystr * list pystr => negb (mem (fst kv) tracking_params))
    with untracked.
  assert (Hd : dict_ok (filter untracked (parse_qs (query p))))
    by now apply filter_dict_ok, parse_qs_ok.
  destruct (filter untracked (parse_qs (query p))) as [|kv d] eqn:F.
  - exists []. split; [reflexivity|]. split; [reflexivity|].
    intros H. now contradiction H.
  - destruct (urlencode_scalar _ (dict_ok_scalar Hd)) as [q Eq]. rewrite Eq.
    cbn [bind]. exists q. split; [reflexivity|]. split.
    + apply parse_qs_urlencode; [exact Hd|discriminate|exact Eq].
    + intros _. split; [reflexivity|discriminate].
Qed.

Lemma urlunparse_query_inj s n p q q' :
  urlunparse s n p (str "") q (str "") = urlunparse s n p (str "") q' (str "") ->
  q = q'.
Proof.
  unfold urlunparse, urlunsplit. cbn [falsy str negb map list_ascii_of_string].
  match goal with
  | |- context [if negb (falsy s) then ?a else ?b] =>
      generalize (if negb (falsy s) then a else b)
  end.
  intros base. destruct q as [|x q], q' as [|y q']; cbn [falsy negb]; intros E.
  - reflexivity.
  - exfalso. apply (f_equal (@List.length N)) in E. rewrite length_app in E.
    cbn in E. lia.
  - exfalso. apply (f_equal (@List.length N)) in E. rewrite length_app in E.
    cbn in E. lia.
  - apply app_inv_head in E. now apply app_inv_head in E.
Qed.

Lemma dict_get_filter (f : pystr * list pystr -> bool) k d :
  dict_get k d = None -> dict_get k (filter f d) = None.
Proof.
  induction d as [|[k0 vs] d IH]; [reflexivity|]. cbn [dict_get filter].
  destruct (str_eqb k k0) eqn:Eq; [discriminate|]. intros H.
  destruct (f (k0, vs)); [|now apply IH]. cbn [dict_get]. rewrite Eq.
  now apply IH.
Qed.

Lemma filter_filter {A} (f : A -> bool) l : filter f (filter f l) = filter f l.
Proof.
  induction l as [|x l IH]; [reflexivity|]. cbn [filter].
  destruct (f x) eqn:E; [|exact IH]. cbn [filter]. now rewrite E, IH.
Qed.

Section TrackingTheorems.

Context {T : LibraryTables}.

(** X19. For a URL without a lone surrogate and with a query that neither
    job-board branch rewrites, [clean_job_url] returns the scheme,
    authority and path of the URL with a new query and nothing else;
    parsed, the new query is the old one without the tracking parameters:
    every other parameter is there with its values, in order. *)
Theorem clean_job_url_strips_tracking u p :
  forallb code_point u = true -> urlparse u = Ok p ->
  job_board_url p = None -> query p <> [] ->
  exists q,
    clean_job_url u
    = Ok (urlunparse (scheme p) (netloc p) (path p) (str "") q (str ""))
    /\ parse_qs q = filter untracked (parse_qs (query p)).
Proof.
  intros Hu Hp Hb Hq.
  assert (Fu : falsy u = false).
  { destruct u as [|c u']; [|reflexivity]. exfalso. apply Hq.
    cbv in Hp. assert (E : query p = []) by (now inversion Hp). exact E. }
  assert (Fq : negb (falsy (query p)) = true).
  { destruct (query p); [now contradiction Hq|reflexivity]. }
  unfold clean_job_url. rewrite Fu, Hp. cbn [bind]. rewrite Hb, Fq.
  destruct (@strip_tracking_spec p) as (q & A & B & _).
  { exact (proj2 (urlparse_inherits code_point u (all_prepare _ u Hu) Hp)). }
  exists q. now split.
Qed.

(** X20. The URL that the tracking branch returns for a URL without a
    lone surrogate is a fixed point of [clean_job_url] when it parses back
    into the parts it was assembled from and its host is not LinkedIn's. *)
Theorem clean_job_url_tracking_fixed u p q :
  forallb code_point u = true -> urlparse u = Ok p ->
  job_board_url p = None -> query p <> [] ->
  contains (str "linkedin.com") (netloc p) = false ->
  clean_job_url u
  = Ok (urlunparse (scheme p) (netloc p) (path p) (str "") q (str "")) ->
  urlparse (urlunparse (scheme p) (netloc p) (path p) (str "") q (str ""))
  = Ok (mkParseResult (scheme p) (netloc p) (path p) (str "") q (str "")) ->
  clean_job_url (urlunparse (scheme p) (netloc p) (path p) (str "") q (str ""))
  = Ok (urlunparse (scheme p) (netloc p) (path p) (str "") q (str "")).
Proof.
  intros Hu Hp Hb Hq Hl Hc Hr.
  assert (Fu : falsy u = false).
  { destruct u as [|c u']; [|reflexivity]. exfalso. apply Hq.
    cbv in Hp. assert (E : query p = []) by (now inversion Hp). exact E. }
  assert (Fq : negb (falsy (query p)) = true).
  { destruct (query p); [now contradiction Hq|reflexivity]. }
  unfold clean_job_url in Hc. rewrite Fu, Hp in Hc. cbn [bind] in Hc.
  rewrite Hb, Fq in Hc.
  destruct (@strip_tracking_spec p) as (q0 & A & B & C).
  { exact (proj2 (urlparse_inherits code_point u (all_prepare _ u Hu) Hp)). }
  rewrite A in Hc.
  assert (E : q0 = q).
  { apply (@urlunparse_query_inj (scheme p) (netloc p) (path p)).
    now inversion Hc. }
  subst q0. clear Hc.
  set (r := urlunparse (scheme p) (netloc p) (path p) (str "") q (str "")) in *.
  unfold clean_job_url. destruct (falsy r) eqn:Fr; [reflexivity|].
  rewrite Hr. cbn [bind].
  assert (Hb' : job_board_url
                  (mkParseResult (scheme p) (netloc p) (path p) (str "") q (str ""))
                = None).
  { unfold job_board_url in *. cbn [netloc path query] in *. rewrite Hl in *.
    destruct (contains (str "indeed.com") (netloc p)); [|reflexivity].
    rewrite B.
    destruct (dict_get (str "jk") (parse_qs (query p))) eqn:J; [discriminate Hb|].
    destruct (dict_get (str "vjk") (parse_qs (query p))) eqn:V; [discriminate Hb|].
    now rewrite !dict_get_filter. }
  rewrite Hb'. cbn [query].
  destruct q as [|x q']; [reflexivity|]. cbn [falsy negb].
  destruct C as [C1 C2]; [discriminate|].
  unfold strip_tracking. cbn [query scheme netloc path].
  change (fun kv : pystr * list pystr => negb (mem (fst kv) tracking_params))
    with untracked.
  rewrite B, filter_filter.
  destruct (filter untracked (parse_qs (query p))) as [|kv d]; [now contradiction C2|].
  rewrite C1. reflexivity.
Qed.

End TrackingTheorems.


Lemma ordered_app r (f : Z -> float) l1 x l2 :
  ordered r (map f (l1 ++ x :: l2)) = true ->
  forall y, In y (x :: l2) -> r (f x) (f y) = true.
Proof.
  induction l1 as [|a l1 IH]; cbn [app map ordered]; intros H y Hy.
  - apply andb_true_iff in H as [H _].
    apply (proj1 (forallb_forall _ _) H). change (In (f y) (map f (x :: l2))).
    now apply in_map.
  - apply andb_true_iff in H as [_ H]. now apply IH.
Qed.

Lemma zrange_split lo n d :
  (lo <= d < lo + n)%Z ->
  exists l1 l2, zrange lo n = l1 ++ d :: l2
                /\ forall y, (d <= y < lo + n)%Z -> In y (d :: l2).
Proof.
  intros H. unfold zrange.
  replace (Z.to_nat n) with (Z.to_nat (d - lo) + S (Z.to_nat (lo + n - d - 1)))%nat
    by lia.
  rewrite seq_app, map_app. cbn [seq map Nat.add].
  eexists _, _. split.
  - f_equal. f_equal. lia.
  - intros y Hy. destruct (Z.eq_dec y d) as [->|Ne]; [now left|]. right.
    apply in_map_iff. exists (Z.to_nat (y - lo)). split; [lia|].
    apply in_seq. lia.
Qed.

Lemma ordered_zrange r (f : Z -> float) lo n :
  ordered r (map f (zrange lo n)) = true ->
  forall x y, (lo <= x <= y)%Z -> (y < lo + n)%Z -> r (f x) (f y) = true.
Proof.
  intros H x y Hx Hy.
  destruct (@zrange_split lo n x ltac:(lia)) as (l1 & l2 & E & Hin).
  rewrite E in H. apply (@ordered_app r f l1 x l2 H). apply Hin. lia.
Qed.

Lemma score_by_age_checked :
  forallb (fun b => ordered (fun x y => PrimFloat.leb y x) (score_by_age b))
          (zrange 0 101) = true.
Proof. vm_compute. reflexivity. Qed.

Lemma score_by_baseline_checked :
  forallb (fun d => ordered PrimFloat.leb (score_by_baseline d)) (zrange 0 32)
  = true.
Proof. vm_compute. reflexivity. Qed.

Lemma clamp_score b d :
  (0 <= d <= 3650)%Z ->
  Ranking.calculate_weighted_score b (Some d)
  = Ranking.calculate_weighted_score b (Some (clamp d)).
Proof.
  intros H. unfold clamp. destruct (Z_le_gt_dec d 31) as [L|G].
  - now rewrite Z.min_l by lia.
  - rewrite Z.min_r by lia.
    apply old_scores_agree; lia.
Qed.

(** X21. The weighted score never grows with the age of a posting and
    never falls with its baseline score (baselines from 0 to 100, ages from
    0 to 3650 days). *)
Theorem calculate_weighted_score_monotone b b' d d' :
  (0 <= b <= b')%Z -> (b' <= 100)%Z -> (0 <= d <= d')%Z -> (d' <= 3650)%Z ->
  PrimFloat.leb (Ranking.calculate_weighted_score b (Some d'))
                (Ranking.calculate_weighted_score b (Some d)) = true
  /\ PrimFloat.leb (Ranking.calculate_weighted_score b (Some d))
                   (Ranking.calculate_weighted_score b' (Some d)) = true.
Proof.
  intros Hb Hb' Hd Hd'. split.
  - rewrite (@clamp_score b d), (@clamp_score b d') by lia.
    pose proof (@zrange_all _ 0 101 score_by_age_checked b ltac:(lia)) as A.
    cbv beta in A. unfold score_by_age in A.
    apply (@ordered_zrange _ _ 0 32 A); unfold clamp; lia.
  - rewrite (@clamp_score b d), (@clamp_score b' d) by lia.
    pose proof (@zrange_all _ 0 32 score_by_baseline_checked (clamp d)
                  ltac:(unfold clamp; lia)) as A.
    cbv beta in A. unfold score_by_baseline in A.
    apply (@ordered_zrange _ _ 0 101 A); lia.
Qed.


Section EmailBodyTheorems.

Variable b64decode_utf8 : pystr -> result pystr.

Lemma get_email_body_eq mt body parts :
  get_email_body b64decode_utf8 (mkPayload mt body parts)
  = match truthy_data body with
    | Some d => b64decode_utf8 d
    | None =>
        match parts with
        | Some ps => parts_body b64decode_utf8 ps
        | None => Ok (str "")
        end
    end.
Proof.
  cbn [get_email_body]. destruct (truthy_data body); [reflexivity|].
  destruct parts as [ps|]; [|reflexivity].
  induction ps as [|part rest IH]; [reflexivity|].
  cbn [parts_body]. rewrite <- IH. reflexivity.
Qed.

Lemma all_data_eq mt body parts :
  all_data (mkPayload mt body parts)
  = match body with
    | Some (Some d) => [d]
    | _ => []
    end
    ++ match parts with
       | Some ps => flat_map all_data ps
       | None => []
       end.
Proof.
  cbn [all_data]. f_equal.
Qed.

Lemma Payload_induction (P : Payload -> Prop) :
  (forall mt body parts,
     match parts with
     | Some ps => Forall P ps
     | None => True
     end -> P (mkPayload mt body parts)) ->
  forall p, P p.
Proof.
  intros H. fix IH 1. intros [mt body parts]. apply H.
  destruct parts as [ps|]; [|exact I].
  revert ps. fix IHps 1.
  intros [|x r]; [constructor|constructor; [apply IH|apply IHps]].
Qed.

(** X22. A body that [get_email_body] returns and that is not empty is the
    decoding of one [data] of the payload or of one of its parts. *)
Theorem get_email_body_provenance p b :
  get_email_body b64decode_utf8 p = Ok b -> b <> [] ->
  exists d, In d (all_data p) /\ b64decode_utf8 d = Ok b.
Proof.
  revert b. induction p as [mt body parts IH] using Payload_induction.
  intros b. rewrite get_email_body_eq, all_data_eq.
  destruct (truthy_data body) as [d|] eqn:Td.
  { intros Hb _. exists d. split; [|exact Hb]. apply in_or_app. left.
    unfold truthy_data in Td. destruct body as [[d0|]|]; try discriminate.
    destruct (falsy d0); [discriminate|]. injection Td as ->. now left. }
  destruct parts as [ps|]; [|intros [= <-] Hn; now contradiction Hn].
  intros Hb Hn.
  assert (X : exists d, In d (flat_map all_data ps) /\ b64decode_utf8 d = Ok b).
  { clear Td. induction ps as [|part rest IHr].
    - cbn in Hb. injection Hb as <-. now contradiction Hn.
    - apply Forall_cons_iff in IH as [IHp IHrest]. specialize (IHr IHrest).
      cbn [parts_body] in Hb. cbn [flat_map].
      destruct part as [[m|] pbody sub]; [|discriminate].
      destruct (html_data m pbody) as [d|] eqn:Hd.
      + exists d. split; [|exact Hb]. apply in_or_app. left.
        rewrite all_data_eq. apply in_or_app. left.
        unfold html_data in Hd. destruct (str_eqb m _); [|discriminate].
        destruct pbody as [[d0|]|]; try discriminate.
        injection Hd as ->. now left.
      + destruct sub as [sub|].
        * destruct (get_email_body b64decode_utf8 (mkPayload (Some m) pbody (Some sub)))
            as [body0|] eqn:G; cbn [bind] in Hb; [|discriminate].
          destruct (negb (falsy body0)) eqn:F.
          -- injection Hb as ->. destruct (IHp b eq_refl Hn) as (d & Hin & Hdec).
             exists d. split; [|exact Hdec]. apply in_or_app. now left.
          -- destruct (IHr Hb) as (d & Hin & Hdec).
             exists d. split; [|exact Hdec]. apply in_or_app. now right.
        * destruct (IHr Hb) as (d & Hin & Hdec).
          exists d. split; [|exact Hdec]. apply in_or_app. now right. }
  destruct X as (d & Hin & Hdec). exists d. split; [|exact Hdec].
  apply in_or_app. now right.
Qed.

(** X23. A payload without body data of its own whose parts have no parts
    themselves and are not of type [text/html] has the empty body: a part
    of another type is never decoded. *)
Theorem get_email_body_plain_parts mt body ps :
  truthy_data body = None -> forallb plain_leaf ps = true ->
  get_email_body b64decode_utf8 (mkPayload mt body (Some ps)) = Ok (str "").
Proof.
  intros Hb Hp. rewrite get_email_body_eq, Hb.
  induction ps as [|part rest IH]; [reflexivity|].
  cbn [forallb] in Hp. apply andb_true_iff in Hp as [Hl Hp].
  cbn [parts_body]. destruct part as [[m|] pbody [sub|]]; try discriminate Hl.
  unfold plain_leaf in Hl. unfold html_data.
  apply negb_true_iff in Hl. rewrite Hl. now apply IH.
Qed.

End EmailBodyTheorems.


Section StoredRows.

Context {T : Urllib.LibraryTables} {E : External}.

Lemma scan_row_fields j d sc now f notes row :
  scan_row j d sc now f notes = Ok row ->
  (f = 1%Z \/ (f = 0%Z /\ notes = None)) -> row_of_job j row.
Proof.
  unfold scan_row.
  repeat match goal with
  | |- (bind ?x _ = Ok _) -> _ =>
      let v := fresh "v" in let Hv := fresh "Hv" in
      destruct x as [v|] eqn:Hv; cbn [bind]; [|discriminate]
  end.
  intros [= <-] Hf. unfold row_of_job.
  cbn [Jobs.job_id Jobs.title Jobs.company Jobs.location Jobs.url Jobs.source
       Jobs.raw_text Jobs.created_at Jobs.email_date Jobs.status Jobs.score
       Jobs.analysis Jobs.cover_letter Jobs.is_filtered Jobs.notes].
  repeat match goal with H : bind_str _ = Ok _ |- _ => apply bind_str_ok in H end.
  subst. repeat (split; [reflexivity|]).
  destruct Hf as [->|[-> ->]]; [now right|left].
  split; [reflexivity|].
  match goal with H : Ok SNull = Ok _ |- _ => now injection H as <- end.
Qed.

Lemma scan_job_rows j d resume db n f w db' n' f' w' :
  scan_job j d resume (db, n, f) w = (Ok (db', n', f'), w') ->
  db' = db \/ exists row, db' = db ++ [row] /\ row_of_job j row.
Proof.
  unfold scan_job. destruct (Jobs.existing (job_id j) db).
  - intros [= <- <- <- <-]. now left.
  - destruct (ai_filter_and_score _ _ _ _ resume w) as [[[[keep sc] reason]|e] w1];
      [|discriminate].
    destruct (datetime_now w1) as [now w2].
    match goal with
    | |- context [bind ?pr _] => destruct pr as [d0|]
    end.
    2:{ destruct (truthy keep); cbn [bind]; discriminate. }
    destruct (truthy keep); cbn [bind].
    + destruct (scan_row j d0 sc (isoformat now) 0 None) as [row|] eqn:R;
        cbn [bind]; [|discriminate].
      destruct (Jobs.insert row db) as [db1|] eqn:I; cbn [bind]; [|discriminate].
      intros [= <- <- <- <-]. apply insert_ok in I as [-> _].
      right. exists row. split; [reflexivity|].
      eapply scan_row_fields; [exact R|]. right. now split.
    + destruct (scan_row j d0 sc (isoformat now) 1 (Some reason)) as [row|] eqn:R;
        cbn [bind]; [|discriminate].
      destruct (Jobs.insert row db) as [db1|] eqn:I; cbn [bind]; [|discriminate].
      intros [= <- <- <- <-]. apply insert_ok in I as [-> _].
      right. exists row. split; [reflexivity|].
      eapply scan_row_fields; [exact R|]. now left.
Qed.

Lemma scan_loop_rows jobs resume : forall db n f w db' n' f' w',
  scan_loop jobs resume (db, n, f) w = (Ok (db', n', f'), w') ->
  forall row, In row db' ->
    In row db \/ exists j, In j (map fst jobs) /\ row_of_job j row.
Proof.
  induction jobs as [|[j d] jobs IH]; intros db n f w db' n' f' w' H row Hin.
  - cbn [scan_loop] in H. injection H as <- <- <- <-. now left.
  - cbn [scan_loop] in H.
    destruct (scan_job j d resume (db, n, f) w) as [[[[db1 n1] f1]|e] w1] eqn:J;
      [|discriminate].
    destruct (IH _ _ _ _ _ _ _ _ H row Hin) as [Hin1|(j0 & Hj & Hr)].
    + apply scan_job_rows in J as [->|(r0 & -> & Hr)]; [now left|].
      apply in_app_or in Hin1 as [Hin1|[<-|[]]]; [now left|].
      right. exists j. split; [now left|exact Hr].
    + right. exists j0. split; [now right|exact Hr].
Qed.

(** X24. After an email scan that completes, every row of the table was
    there before or holds the fields of one of the scanned jobs as they
    were parsed, with the status [new], the score 0, no analysis and no
    cover letter, and without notes when it is kept. *)
Theorem scan_stores_the_parsed_jobs db w db' reply w' row :
  api_scan db w = (db', Ok reply, w') -> In row db' ->
  In row db
  \/ exists j jobs, fst (scan_emails w) = Ok jobs /\ In j jobs /\ row_of_job j row.
Proof.
  unfold api_scan. destruct (scan_emails w) as [[jobs|e] w1]; [|discriminate].
  unfold ingest. destruct (falsy (load_resumes w1)).
  - intros [= <- _ _] Hin. now left.
  - destruct (scan_loop _ (load_resumes w1) (db, 0%nat, 0%nat) w1)
      as [[[[db1 n1] f1]|e] w2] eqn:L; [|discriminate].
    intros [= <- _ _] Hin.
    destruct (@scan_loop_rows _ _ _ _ _ _ _ _ _ _ L row Hin) as [H|(j & Hj & Hr)];
      [now left|].
    right. exists j, jobs. split; [reflexivity|]. split; [|exact Hr].
    rewrite map_map in Hj. cbn [fst] in Hj. now rewrite map_id in Hj.
Qed.

End StoredRows.


Section AnalysisTheorems.

Context {T : Urllib.LibraryTables} {E : External}.

Lemma analyze_job_without_payload title0 company0 location0 raw resume w :
  no_payload
    (fst (messages_create
            (AnalysisPrompt resume title0 company0 location0 raw) w)) ->
  jget (str "qualification_score")
       (fst (analyze_job title0 company0 location0 raw resume w)) (JInt 0)
  = JInt 0
  /\ truthy (jget (str "should_apply")
                  (fst (analyze_job title0 company0 location0 raw resume w))
                  JNull) = false.
Proof.
  unfold analyze_job, no_payload.
  destruct (messages_create _ w) as [[text|e] w1]; cbn [fst].
  - destruct (search_braces text) as [m|].
    + intros [e ->]. split; reflexivity.
    + intros _. split; reflexivity.
  - intros _. split; reflexivity.
Qed.

(** X25. When the analysis of a job gets no payload from the service, the
    update leaves the job with the score 0 and the status [new], so that
    the next analysis pass selects it again unless it is filtered. *)
Theorem failed_analysis_is_retried job resume db w db' w' :
  no_payload
    (fst (messages_create
            (AnalysisPrompt resume (Jobs.title job) (Jobs.company job)
                            (Jobs.location job) (Jobs.raw_text job)) w)) ->
  analyze_row job resume db w = (Ok db', w') ->
  forall r, In r db' -> Jobs.job_id r = Jobs.job_id job ->
    Jobs.score r = SInt 0 /\ Jobs.status r = SText (str "new")
    /\ to_analyze r = (Jobs.is_filtered r =? 0)%Z.
Proof.
  intros Hn. unfold analyze_row.
  pose proof (analyze_job_without_payload _ _ _ _ _ _ Hn) as [Hs Ha].
  destruct (analyze_job _ _ _ _ resume w) as [analysis w1]. cbn [fst] in Hs, Ha.
  destruct (datetime_now w1) as [now w2]. rewrite Hs, Ha.
  change (bind_integer (JInt 0)) with (Ok (SInt 0) : result sqlval).
  cbn [bind].
  destruct (bind_str _) as [text|]; cbn [bind]; [|discriminate].
  intros [= <- <-] r Hin Hid. unfold Jobs.update in Hin.
  apply in_map_iff in Hin as (r0 & Hr & Hin0).
  destruct (str_eqb (Jobs.job_id r0) (Jobs.job_id job)) eqn:Eq.
  - subst r. unfold to_analyze. cbn. now rewrite andb_true_r.
  - subst r. apply str_eqb_eq in Hid. congruence.
Qed.

End AnalysisTheorems.

(** * Worked examples *)

#[local] Existing Instance plain_tables.

(** C1, at the failing input. The canonical URL of a LinkedIn search URL
    whose [currentJobId] holds a slash is not canonical itself: a second
    pass cuts its token. *)
Lemma clean_job_url_not_idempotent :
  clean_job_url (str "https://linkedin.com/jobs/search?currentJobId=12/3")
  = Ok (str "https://www.linkedin.com/jobs/view/12/3")
  /\ clean_job_url (str "https://www.linkedin.com/jobs/view/12/3")
     = Ok (str "https://www.linkedin.com/jobs/view/12").
Proof. split; vm_compute; reflexivity. Qed.


(** Idempotence at a LinkedIn job URL with a tracking parameter. *)
Lemma clean_job_url_idempotent_settled_witness :
  (x <- clean_job_url (str "https://www.linkedin.com/jobs/view/123?trk=x") ;;
   clean_job_url x)
  = clean_job_url (str "https://www.linkedin.com/jobs/view/123?trk=x").
Proof.
  apply (@clean_job_url_idempotent_settled plain_tables
           (str "https://www.linkedin.com/jobs/view/123?trk=x")
           (str "https://www.linkedin.com/jobs/view/123")).
  - vm_compute. reflexivity.
  - left. exists (str "123"). split; reflexivity.
Defined.

(** C7 fails at a URL with an unbalanced bracket in its authority: the
    ValueError of [urlparse] reaches the caller. *)
Lemma clean_job_url_raises :
  clean_job_url (str "http://[") = Raise (ValueError "Invalid IPv6 URL").
Proof. vm_compute. reflexivity. Qed.

(** C7, as amended, at a feed URL. *)
Lemma clean_job_url_total_witness :
  exists r,
    clean_job_url
      (str "https://weworkremotely.com/remote-jobs/acme-123?utm_source=x")
    = Ok r.
Proof.
  apply (proj1 (proj2 (proj2
           (clean_job_url_total
              (str "https://weworkremotely.com/remote-jobs/acme-123?utm_source=x")))));
    reflexivity.
Defined.



(** The model of [hashlib.sha256] on the examples of FIPS 180-4: the
    message [abc] and the empty message. *)
Lemma sha256_examples :
  SHA256.hexdigest (str "abc")
  = str "ba7816bf8f01cfea414140de5dae2223b00361a396177a9cb410ff61f20015ad"
  /\ SHA256.hexdigest (str "")
     = str "e3b0c44298fc1c149afbf4c8996fb92427ae41e4649b934ca495991b7852b855".
Proof. split; vm_compute; reflexivity. Qed.

(** C10, at the failing input. The identity of a raw URL and the identity
    of its normalised form differ, because normalising the normalised form
    changes it once more. *)
Lemma generate_job_id_not_invariant :
  generate_job_id (str "https://linkedin.com/jobs/search?currentJobId=12/3")
                  (str "Dev") (str "ACME")
  = Ok (str "4a9f3e48f40c7b19")
  /\ clean_job_url (str "https://linkedin.com/jobs/search?currentJobId=12/3")
     = Ok (str "https://www.linkedin.com/jobs/view/12/3")
  /\ generate_job_id (str "https://www.linkedin.com/jobs/view/12/3")
                     (str "Dev") (str "ACME")
     = Ok (str "55d2b9a2de48ade9").
Proof. repeat split; vm_compute; reflexivity. Qed.

(** The identity of an Indeed click URL and of its normalised form. *)
Lemma generate_job_id_settled_witness :
  generate_job_id (str "https://www.indeed.com/rc/clk?jk=abc123&from=mail")
                  (str "Dev") (str "ACME")
  = generate_job_id (str "https://www.indeed.com/viewjob?jk=abc123")
                    (str "Dev") (str "ACME").
Proof.
  apply (@generate_job_id_settled plain_tables
           (str "https://www.indeed.com/rc/clk?jk=abc123&from=mail")
           (str "https://www.indeed.com/viewjob?jk=abc123")).
  - vm_compute. reflexivity.
  - right. left. exists (str "abc123"). split; reflexivity.
Defined.

(** C3 in a world where the service cannot be reached. *)
Lemma ai_filter_and_score_fallback_witness :
  @ai_filter_and_score (scripted offline)
    (str "Backend Engineer") (str "ACME") (str "Remote")
    (str "Backend Engineer at ACME") (str "Python, Go, PostgreSQL") 0%nat
  = (Ok (JBool true, JInt 30, JStr (str "filter error - kept by default")), 1%nat).
Proof.
  exact (@ai_filter_and_score_fallback (scripted offline)
           (str "Backend Engineer") (str "ACME") (str "Remote")
           (str "Backend Engineer at ACME") (str "Python, Go, PostgreSQL")
           0%nat I).
Defined.

(** C8, as amended, in a world without resumes. *)
Lemma scan_without_resumes_witness :
  @api_scan_wwr plain_tables (scripted no_resumes) [] 0%nat
  = ([], Ok (ErrorReply 400 (str "No resumes found")), 1%nat)
  /\ @api_scan plain_tables (scripted no_resumes) [] 0%nat
     = ([],
        Ok (ErrorReply 400
              (str "No resumes found. Add .txt/.md files to resumes/ folder")),
        0%nat).
Proof.
  exact (@scan_without_resumes plain_tables (scripted no_resumes)
           [] 0%nat eq_refl eq_refl).
Defined.

(** C8 fails where the mail service cannot be opened: without resumes the
    email scan then ends in the exception of [get_gmail_service], not in
    the error reply. *)
Lemma scan_without_resumes_raises :
  @load_resumes no_credentials 0%nat = str ""
  /\ @api_scan plain_tables no_credentials [] 0%nat
     = ([],
        Raise (OtherException
                 (str "Missing credentials.json. Download from Google Cloud Console.")),
        0%nat).
Proof. split; vm_compute; reflexivity. Qed.

(** C4: the second scan of the same mail. *)
Lemma api_scan_twice_witness :
  @api_scan plain_tables (scripted offline) kept_table 2%nat
  = (kept_table, Ok (ScanReply 1 0 0), 2%nat).
Proof.
  refine (proj1 (@api_scan_twice plain_tables (scripted offline)
                   [] 0%nat 0%nat demo_jobs kept_table 1%nat 1%nat 0%nat 2%nat
                   2%nat 2%nat (NoDup_nil _) _ _ _ _));
    vm_compute; reflexivity.
Defined.

(** C9 on the table that one scan leaves when the filter rejects the
    posting. *)
Lemma filtered_rows_have_no_score_witness :
  Forall (fun r => Jobs.is_filtered r = 1%Z
                   /\ Jobs.score r = SInt 0 /\ Jobs.analysis r = SNull)
         rejected_table
  /\ List.length rejected_table = 1%nat.
Proof.
  split; [|vm_compute; reflexivity].
  apply Forall_forall. intros r Hin.
  assert (Hf : Jobs.is_filtered r = 1%Z).
  { unfold rejected_table in Hin. vm_compute in Hin.
    destruct Hin as [<-|[]]. reflexivity. }
  split; [exact Hf|].
  apply (@filtered_rows_have_no_score plain_tables (scripted rejecting)
           rejected_table r
           (@reachable_step plain_tables (scripted rejecting) [] Scan 0%nat
              (@reachable_init plain_tables (scripted rejecting)))
           Hin).
  rewrite Hf. discriminate.
Defined.

(** The first scan of the mail appends one kept row to the empty table. *)
Lemma scan_appends_witness :
  exists added,
    kept_table = [] ++ added
    /\ List.length (filter (fun r => (Jobs.is_filtered r =? 0)%Z) added) = 1%nat
    /\ List.length (filter (fun r => (Jobs.is_filtered r =? 1)%Z) added) = 0%nat
    /\ List.length added = (1 + 0)%nat
    /\ (1 + 0 <= 1)%nat.
Proof.
  apply (@scan_appends plain_tables (scripted offline) [] 0%nat kept_table
           1%nat 1%nat 0%nat 2%nat).
  left. vm_compute. reflexivity.
Defined.

(** A cover letter for an unknown job is refused and the table stays. *)
Lemma refused_request_keeps_table_witness :
  fst (fst (@handle plain_tables (scripted offline) (CoverLetter (str "0123"))
              kept_table 2%nat))
  = kept_table.
Proof.
  apply (@refused_request_keeps_table plain_tables (scripted offline)
           (CoverLetter (str "0123")) kept_table 2%nat).
  - discriminate.
  - vm_compute. reflexivity.
Defined.

Lemma update_job_unknown_id_witness :
  @update_job (scripted offline) (str "0123") (JStr (str "applied"))
              kept_table 2%nat
  = (kept_table, Ok SuccessReply, 3%nat)
  /\ @update_job (scripted offline) (str "0123") (JList [])
                 kept_table 2%nat
     = (kept_table, Raise ProgrammingError, 3%nat).
Proof.
  split.
  - apply (@update_job_unknown_id (scripted offline) (str "0123")
             (JStr (str "applied")) kept_table 2%nat).
    vm_compute. reflexivity.
  - apply (@update_job_unknown_id (scripted offline) (str "0123")
             (JList []) kept_table 2%nat).
    vm_compute. reflexivity.
Defined.

Lemma api_cover_letter_unknown_id_witness :
  @api_cover_letter (scripted offline) (str "0123") kept_table 2%nat
  = (kept_table, Raise TypeError, 2%nat).
Proof.
  apply (@api_cover_letter_unknown_id (scripted offline) (str "0123")
           kept_table 2%nat).
  vm_compute. reflexivity.
Defined.

(** On the table that [init_db] creates, a capture stores nothing. *)
Lemma missing_description_column_blocks_writes_witness :
  fst (fst (@api_capture plain_tables (scripted offline) demo_capture [] 0%nat))
  = []
  /\ refused (snd (fst (@api_capture plain_tables (scripted offline)
                          demo_capture [] 0%nat))) = true.
Proof.
  exact (proj2 (@missing_description_column_blocks_writes plain_tables
                  (scripted offline) eq_refl) demo_capture [] 0%nat).
Defined.

(** The filtered row of [rejected_table] is still there after an analysis. *)
Lemma api_analyze_frame_witness :
  Forall (fun r => In r (fst (fst (@api_analyze (scripted rejecting)
                                     rejected_table 5%nat))))
         rejected_table.
Proof.
  apply Forall_forall. intros r Hin.
  apply (@api_analyze_frame (scripted rejecting) rejected_table 5%nat r).
  - vm_compute. repeat constructor. intros [].
  - exact Hin.
  - vm_compute in Hin. destruct Hin as [<-|[]]. vm_compute. reflexivity.
Defined.

Lemma api_capture_created_witness :
  Jobs.existing captured_id [] = false
  /\ exists row,
       captured_table = [] ++ [row]
       /\ Jobs.job_id row = captured_id /\ Jobs.is_filtered row = 0%Z
       /\ Jobs.score row = SInt 0
       /\ Jobs.title row = upto 200 (capture_title demo_capture)
       /\ Jobs.company row = upto 100 (capture_company demo_capture)
       /\ Jobs.location row = upto 100 (capture_location demo_capture)
       /\ Jobs.raw_text row = upto 2000 (capture_description demo_capture)
       /\ Jobs.description row
          = SText (upto 5000 (capture_description demo_capture)).
Proof.
  apply (@api_capture_created plain_tables (scripted extension) demo_capture
           [] 0%nat captured_table captured_id (Some (JInt 30)) 3%nat).
  vm_compute. reflexivity.
Defined.

(** A second capture of the same job leaves the stored description. *)
Lemma api_capture_keeps_description_witness :
  Forall (fun r => In r (fst (fst (@api_capture plain_tables (scripted extension)
                                     second_capture captured_table 3%nat))))
         captured_table.
Proof.
  apply Forall_forall. intros r Hin.
  apply (@api_capture_keeps_description plain_tables (scripted extension)
           second_capture captured_table 3%nat r Hin).
  vm_compute in Hin. destruct Hin as [<-|[]]. vm_compute. reflexivity.
Defined.

Lemma reachable_job_ids_unique_witness : NoDup (map Jobs.job_id kept_table).
Proof.
  apply (@reachable_job_ids_unique plain_tables (scripted offline) kept_table).
  exact (@reachable_step plain_tables (scripted offline) [] Scan 0%nat
           (@reachable_init plain_tables (scripted offline))).
Defined.

Lemma parse_linkedin_jobs_records_witness :
  Forall (mail_job_ok (str "linkedin") (str "2025-06-01T08:00:00")) demo_jobs.
Proof.
  apply (@parse_linkedin_jobs_records plain_tables [demo_link]
           (str "2025-06-01T08:00:00") demo_jobs).
  vm_compute. reflexivity.
Defined.

Lemma parse_indeed_jobs_records_witness :
  Forall (mail_job_ok (str "indeed") (str "2025-06-02T08:00:00"))
         (match parse_indeed_jobs [demo_indeed_link; demo_indeed_link]
                                  (str "2025-06-02T08:00:00") with
          | Ok jobs => jobs
          | Raise _ => []
          end).
Proof.
  apply (@parse_indeed_jobs_records plain_tables
           [demo_indeed_link; demo_indeed_link] (str "2025-06-02T08:00:00")).
  vm_compute. reflexivity.
Defined.

(** The same link twice in one mail gives one record. *)
Lemma mail_parsers_urls_distinct_witness :
  NoDup (map url (match parse_indeed_jobs [demo_indeed_link; demo_indeed_link]
                                          (str "2025-06-02T08:00:00") with
                  | Ok jobs => jobs
                  | Raise _ => []
                  end)).
Proof.
  apply (@mail_parsers_urls_distinct plain_tables
           [demo_indeed_link; demo_indeed_link] (str "2025-06-02T08:00:00")).
  right. vm_compute. reflexivity.
Defined.

(** A feed whose items hold text only yields no record. *)
Lemma fetch_wwr_jobs_skips_childless_witness :
  fst (@fetch_wwr_jobs plain_tables (scripted plain_feed) 7 0%nat) = [].
Proof.
  apply (@fetch_wwr_jobs_skips_childless plain_tables (scripted plain_feed)
           7%Z 0%nat).
  intros u w0 items. cbn [fetch_feed scripted fst].
  destruct (str_eqb u (hd [] WWR_FEEDS)); intros [= <-]; reflexivity.
Defined.

Lemma calculate_weighted_score_after_31_days_witness :
  Ranking.calculate_weighted_score 80 (Some 45%Z)
  = Ranking.calculate_weighted_score 80 None.
Proof.
  apply (@calculate_weighted_score_after_31_days 80 45). lia.
Defined.

Lemma calculate_weighted_score_range_witness :
  PrimFloat.leb 0 (Ranking.calculate_weighted_score 80 (Some 10%Z)) = true
  /\ PrimFloat.leb (Ranking.calculate_weighted_score 80 (Some 10%Z)) 100 = true.
Proof.
  apply (@calculate_weighted_score_range 80 10); lia.
Defined.

Lemma clean_job_url_strips_tracking_witness :
  exists q,
    clean_job_url tracked_url
    = Ok (urlunparse (str "https") (str "example.com") (str "/jobs/42")
                     (str "") q (str ""))
    /\ parse_qs q
       = filter untracked (parse_qs (str "utm_source=x&id=7&ref=abc")).
Proof.
  apply (@clean_job_url_strips_tracking plain_tables tracked_url tracked_parts).
  - vm_compute. reflexivity.
  - vm_compute. reflexivity.
  - vm_compute. reflexivity.
  - discriminate.
Defined.

Lemma clean_job_url_tracking_fixed_witness :
  clean_job_url (str "https://example.com/jobs/42?id=7")
  = Ok (str "https://example.com/jobs/42?id=7").
Proof.
  apply (@clean_job_url_tracking_fixed plain_tables tracked_url tracked_parts
           (str "id=7")).
  - vm_compute. reflexivity.
  - vm_compute. reflexivity.
  - vm_compute. reflexivity.
  - discriminate.
  - vm_compute. reflexivity.
  - vm_compute. reflexivity.
  - vm_compute. reflexivity.
Defined.

Lemma calculate_weighted_score_monotone_witness :
  PrimFloat.leb (Ranking.calculate_weighted_score 50 (Some 20%Z))
                (Ranking.calculate_weighted_score 50 (Some 3%Z)) = true
  /\ PrimFloat.leb (Ranking.calculate_weighted_score 50 (Some 3%Z))
                   (Ranking.calculate_weighted_score 80 (Some 3%Z)) = true.
Proof.
  apply (@calculate_weighted_score_monotone 50 80 3 20); lia.
Defined.

(** The body of a mail with two alternatives is the data of the HTML one. *)
Lemma get_email_body_provenance_witness :
  exists d, In d (all_data demo_payload) /\ undecoded d = Ok (str "PGI-aGk8L2I-").
Proof.
  apply (@get_email_body_provenance undecoded demo_payload (str "PGI-aGk8L2I-")).
  - vm_compute. reflexivity.
  - discriminate.
Defined.

(** A mail whose only part is plain text has no body. *)
Lemma get_email_body_plain_parts_witness :
  get_email_body undecoded
    (mkPayload (Some (str "multipart/mixed")) (Some None) (Some plain_parts))
  = Ok (str "").
Proof.
  apply (@get_email_body_plain_parts undecoded (Some (str "multipart/mixed"))
           (Some None) plain_parts); reflexivity.
Defined.

Lemma scan_stores_the_parsed_jobs_witness :
  In kept_row []
  \/ exists j jobs,
       fst (@scan_emails plain_tables (scripted offline) 0%nat) = Ok jobs
       /\ In j jobs /\ row_of_job j kept_row.
Proof.
  apply (@scan_stores_the_parsed_jobs plain_tables (scripted offline) [] 0%nat
           kept_table (ScanReply 1 1 0) 2%nat kept_row).
  - vm_compute. reflexivity.
  - vm_compute. left. reflexivity.
Defined.

(** With the service down, the analysis of the kept row leaves it to be
    analysed again. *)
Lemma failed_analysis_is_retried_witness :
  Jobs.score retried_row = SInt 0
  /\ Jobs.status retried_row = SText (str "new")
  /\ to_analyze retried_row = (Jobs.is_filtered retried_row =? 0)%Z.
Proof.
  apply (@failed_analysis_is_retried (scripted offline) kept_row
           (str "Python, Go, PostgreSQL") kept_table 2%nat
           retried_table 4%nat I).
  - vm_compute. reflexivity.
  - vm_compute. left. reflexivity.
  - vm_compute. reflexivity.
Defined.
